(** * plexos-coad: the class-object-attribute store and its XML loader

    A shallow embedding of [coad/COAD.py] (property resolution, tagging,
    configuration) and of [coad/plexos_database.py] (schema-inferring
    loader and serializer), with the properties of the specification
    stated and settled against it.

    Conventions of the embedding.
    - A Python exception is a value of [exn]; a method is a function of the
      store handle returning a [result] together with the handle it leaves
      behind, so that what was written before an exception is visible.
    - The SQLite connection is a pair of databases: the one the connection
      sees ([work]) and the one that has been committed ([durable]).
    - A table is the list of its rows in the order the engine enumerates
      them: ascending key order for a table with an INTEGER PRIMARY KEY,
      insertion order otherwise.  The store's own INSERTs append (a new data
      row takes the largest id plus one, the band and tag tables have no
      key), the loader's go by the key; a join is a nested loop in FROM
      order, ORDER BY is a stable sort with NULL first (SQLite's ascending
      order).
    - Identifier columns ([*_id], [uid]) are declared INTEGER by the loader
      and hold [Z]; every other column is TEXT and holds a [string].  Property
      values are therefore text, the way they are stored and read back. *)

From stdpp Require Import base option list gmap strings.
From Stdlib Require Import ZArith Ascii String Lia Permutation Sorted DecimalString.
From Stdlib Require DecimalZ.

Local Open Scope Z_scope.
Local Open Scope string_scope.
Local Open Scope list_scope.

(* ================================================================== *)
(** * Python values and string primitives *)
(* ================================================================== *)

Module Py.

(** The two kinds of scalars the code compares with [==]. *)
Inductive pyval :=
| PyInt (z : Z)
| PyStr (s : string).

(** Python's [==] on scalars: an [int] never equals a [str]. *)
Definition py_eq (a b : pyval) : bool :=
  match a, b with
  | PyInt x, PyInt y => Z.eqb x y
  | PyStr s, PyStr t => String.eqb s t
  | _, _ => false
  end.

(** A property value as passed to [set_property] and returned by
    [get_property]: a scalar or a list of scalars ([isinstance(v, list)]). *)
Inductive pvalue :=
| VScalar (s : string)
| VList (l : list string).

Definition is_list (v : pvalue) : bool :=
  match v with VList _ => true | VScalar _ => false end.

(** [if not isinstance(value, list): value = [value]] *)
Definition as_list (v : pvalue) : list string :=
  match v with VList l => l | VScalar s => [s] end.

(** The double quote character, [chr(34)]. *)
Definition dquote : ascii := "034"%char.
Definition semicolon : ascii := ";"%char.
Definition dot : ascii := "."%char.

(** [s.split(sep)] for a one-character separator. *)
Fixpoint split (sep : ascii) (s : string) : list string :=
  match s with
  | EmptyString => [EmptyString]
  | String c s' =>
      if Ascii.eqb c sep then EmptyString :: split sep s'
      else match split sep s' with
           | [] => [String c EmptyString]
           | w :: ws => String c w :: ws
           end
  end.

Fixpoint lstrip (c : ascii) (s : string) : string :=
  match s with
  | EmptyString => EmptyString
  | String a s' => if Ascii.eqb a c then lstrip c s' else s
  end.

Fixpoint rstrip (c : ascii) (s : string) : string :=
  match s with
  | EmptyString => EmptyString
  | String a s' =>
      match rstrip c s' with
      | EmptyString => if Ascii.eqb a c then EmptyString else String a EmptyString
      | r => String a r
      end
  end.

(** [s.strip(c)] for a one-character set. *)
Definition strip (c : ascii) (s : string) : string := rstrip c (lstrip c s).

(** Truth value of a nullable text cell: [None] and the empty string are
    false. *)
Definition truthy (o : option string) : bool :=
  match o with
  | None => false
  | Some EmptyString => false
  | Some _ => true
  end.

(** An insertion-ordered Python [dict]: assigning to an existing key keeps
    its position, assigning to a new key appends. *)
Section Dict.
Context {K V : Type} (keyb : K -> K -> bool).

Fixpoint dict_get (k : K) (d : list (K * V)) : option V :=
    match d with
    | [] => None
    | (k', v) :: d' => if keyb k k' then Some v else dict_get k d'
    end.

Fixpoint dict_set (k : K) (v : V) (d : list (K * V)) : list (K * V) :=
    match d with
    | [] => [(k, v)]
    | (k', v') :: d' =>
        if keyb k k' then (k, v) :: d' else (k', v') :: dict_set k v d'
    end.
End Dict.

(** [ORDER BY key]: stable insertion sort. *)
Section OrderBy.
Context {A : Type} (le : A -> A -> bool).

Fixpoint insert_by (x : A) (l : list A) : list A :=
    match l with
    | [] => [x]
    | y :: l' => if le x y then x :: l else y :: insert_by x l'
    end.

Fixpoint order_by (l : list A) : list A :=
    match l with
    | [] => []
    | x :: l' => insert_by x (order_by l')
    end.
End OrderBy.

(** No string occurs twice. *)
Fixpoint nodup_names (l : list string) : bool :=
  match l with
  | [] => true
  | x :: l' => negb (existsb (String.eqb x) l') && nodup_names l'
  end.

(** NULL sorts before every integer. *)
Definition null_first_le (a b : option Z) : bool :=
  match a, b with
  | None, _ => true
  | Some _, None => false
  | Some x, Some y => Z.leb x y
  end.

End Py.
Export Py.

(* ================================================================== *)
(** * Exceptions, results and the store monad *)
(* ================================================================== *)

Inductive exn :=
| NoSuchClass (name : string)
| NoSuchObject (name cls : string)
| BadHierarchy (identifier : string)
| NoSuchConfig (key : string)
| NotValidProperty (name cls : string)
| NoMembership (tag name : string)
| ValueNotInMask (value : string) (valid : list string)
| ListForSingle
| SingleForList
| LengthMismatch (passed stored : nat)
| TaggedListOverwrite
| CannotTagSystem
| CannotUntagSystem
| SqlError (msg : string)
| TypeError
| KeyError (key : string)
| StopIteration.

Inductive result (A : Type) :=
| Ok (a : A)
| Raise (e : exn).
Arguments Ok {A} a.
Arguments Raise {A} e.

Definition is_ok {A} (r : result A) : bool :=
  match r with Ok _ => true | Raise _ => false end.

(** Sequencing of fallible reads. *)
Definition rbind {A B} (r : result A) (k : A -> result B) : result B :=
  match r with
  | Ok a => k a
  | Raise e => Raise e
  end.

Notation "'try' x ':=' r 'in' k" := (rbind r (fun x => k))
  (at level 10, x pattern, r at level 100, k at level 200).

(** [cur.fetchone()]: the first row, or [None]. *)
Definition fetchone {A} (rows : list A) : option A := head rows.

(** Subscripting the result of [fetchone()]: a [TypeError] on [None]. *)
Definition subscript {A} (o : option A) : result A :=
  match o with
  | Some a => Ok a
  | None => Raise TypeError
  end.

(** [str(n)] for an integer. *)
Definition str_of_Z (z : Z) : string := NilZero.string_of_int (Z.to_int z).

(* ================================================================== *)
(** * The relational store behind a [COAD] handle *)
(* ================================================================== *)

Module Store.

Record class_row := {
  class_id : Z;
  class_name : string }.

Record object_row := {
  object_id : Z;
  o_class_id : Z;
  o_name : string }.

Record collection_row := {
  collection_id : Z;
  parent_class_id : Z;
  child_class_id : Z }.

Record membership_row := {
  membership_id : Z;
  parent_object_id : Z;
  child_object_id : Z }.

Record property_row := {
  property_id : Z;
  p_collection_id : Z;
  p_name : string;
  input_mask : option string;
  is_dynamic : string;
  is_enabled : string }.

Record data_row := {
  data_id : Z;
  uid : option Z;
  d_membership_id : Z;
  d_property_id : Z;
  d_value : string }.

Record band_row := {
  b_data_id : Z;
  band_id : Z }.

Record tag_row := {
  t_data_id : Z;
  t_object_id : Z }.

Record text_row := {
  x_data_id : Z;
  x_value : string }.

Record config_row := {
  element : string;
  c_value : string }.

Record database := {
  class_t : list class_row;
  object_t : list object_row;
  collection_t : list collection_row;
  membership_t : list membership_row;
  property_t : list property_row;
  data_t : list data_row;
  band_t : list band_row;
  tag_t : list tag_row;
  text_t : list text_row;
  config_t : list config_row }.

Definition with_property_t (f : list property_row -> list property_row) (db : database) : database :=
  {| class_t := class_t db; object_t := object_t db; collection_t := collection_t db;
     membership_t := membership_t db; property_t := f (property_t db);
     data_t := data_t db; band_t := band_t db; tag_t := tag_t db;
     text_t := text_t db; config_t := config_t db |}.

Definition with_data_t (f : list data_row -> list data_row) (db : database) : database :=
  {| class_t := class_t db; object_t := object_t db; collection_t := collection_t db;
     membership_t := membership_t db; property_t := property_t db;
     data_t := f (data_t db); band_t := band_t db; tag_t := tag_t db;
     text_t := text_t db; config_t := config_t db |}.

Definition with_band_t (f : list band_row -> list band_row) (db : database) : database :=
  {| class_t := class_t db; object_t := object_t db; collection_t := collection_t db;
     membership_t := membership_t db; property_t := property_t db;
     data_t := data_t db; band_t := f (band_t db); tag_t := tag_t db;
     text_t := text_t db; config_t := config_t db |}.

Definition with_tag_t (f : list tag_row -> list tag_row) (db : database) : database :=
  {| class_t := class_t db; object_t := object_t db; collection_t := collection_t db;
     membership_t := membership_t db; property_t := property_t db;
     data_t := data_t db; band_t := band_t db; tag_t := f (tag_t db);
     text_t := text_t db; config_t := config_t db |}.

Definition with_text_t (f : list text_row -> list text_row) (db : database) : database :=
  {| class_t := class_t db; object_t := object_t db; collection_t := collection_t db;
     membership_t := membership_t db; property_t := property_t db;
     data_t := data_t db; band_t := band_t db; tag_t := tag_t db;
     text_t := f (text_t db); config_t := config_t db |}.

Definition with_config_t (f : list config_row -> list config_row) (db : database) : database :=
  {| class_t := class_t db; object_t := object_t db; collection_t := collection_t db;
     membership_t := membership_t db; property_t := property_t db;
     data_t := data_t db; band_t := band_t db; tag_t := tag_t db;
     text_t := text_t db; config_t := f (config_t db) |}.

(** ** The [property_view] created by the loader

<<
  SELECT data.data_id, data.value, property.name, property.input_mask,
         membership.child_object_id, membership.parent_object_id,
         tag.object_id AS tag_object_id, text.value AS text_value,
         band.band_id
  FROM data
  INNER JOIN property ON property.property_id = data.property_id
  INNER JOIN membership ON membership.membership_id = data.membership_id
  LEFT OUTER JOIN tag ON tag.data_id = data.data_id
  LEFT OUTER JOIN text ON text.data_id = data.data_id
  LEFT OUTER JOIN band ON band.data_id = data.data_id
>>
    When the tag, text or band table is missing the loader selects NULL in
    its place; a missing table has no rows, so the left join below yields
    the same NULL. *)

Record view_row := {
  v_data_id : Z;
  v_value : string;
  v_name : string;
  v_input_mask : option string;
  v_child_object_id : Z;
  v_parent_object_id : Z;
  v_tag_object_id : option Z;
  v_text_value : option string;
  v_band_id : option Z }.

(** The right-hand rows of a LEFT OUTER JOIN: the matches, or one NULL. *)
Definition left_outer {A B} (f : A -> B) (matches : list A) : list (option B) :=
  match matches with
  | [] => [None]
  | _ => List.map (fun a => Some (f a)) matches
  end.

Definition view_of_data (db : database) (d : data_row) : list view_row :=
  List.flat_map (fun p =>
  List.flat_map (fun m =>
  List.flat_map (fun t =>
  List.flat_map (fun x =>
  List.map (fun b =>
    {| v_data_id := data_id d;
       v_value := d_value d;
       v_name := p_name p;
       v_input_mask := input_mask p;
       v_child_object_id := child_object_id m;
       v_parent_object_id := parent_object_id m;
       v_tag_object_id := t;
       v_text_value := x;
       v_band_id := b |})
    (left_outer band_id (List.filter (fun b => Z.eqb (b_data_id b) (data_id d)) (band_t db))))
    (left_outer x_value (List.filter (fun x => Z.eqb (x_data_id x) (data_id d)) (text_t db))))
    (left_outer t_object_id (List.filter (fun t => Z.eqb (t_data_id t) (data_id d)) (tag_t db))))
    (List.filter (fun m => Z.eqb (membership_id m) (d_membership_id d)) (membership_t db)))
    (List.filter (fun p => Z.eqb (property_id p) (d_property_id d)) (property_t db)).

Definition property_view (db : database) : list view_row :=
  List.flat_map (view_of_data db) (data_t db).

(** SQL [col = ?] on a nullable integer column: NULL matches nothing. *)
Definition sql_eq_opt (o : option Z) (z : Z) : bool :=
  match o with
  | Some y => Z.eqb y z
  | None => false
  end.

(** The effective band of a data row, as [property_spreadsheet] computes it:
    [CASE WHEN b.band_id IS NULL THEN 1 ELSE b.band_id END]. *)
Definition effective_bands (db : database) (did : Z) : list Z :=
  List.map (fun b => match b with None => 1 | Some n => n end)
    (left_outer band_id (List.filter (fun b => Z.eqb (b_data_id b) did) (band_t db))).

End Store.
Export Store.

(* ================================================================== *)
(** * [COAD]: the store handle *)
(* ================================================================== *)

Module Handle.

(** What [COAD.__init__] keeps beside the connection: the table names read
    from [sqlite_master], whether [data] has a [uid] column, and the
    hierarchy cache.  The connection is [work] (what its cursors see) and
    [durable] (what [commit] has made permanent). *)
Record COAD := {
  table_list : list string;
  has_data_uid : bool;
  hierarchy_cache : gmap Z string;
  work : database;
  durable : database }.

Definition has_table (c : COAD) (name : string) : bool :=
  existsb (String.eqb name) (table_list c).

(** A method of the handle: a result and the handle left behind. *)
Definition M (A : Type) : Type := COAD -> result A * COAD.

Definition ret {A} (a : A) : M A := fun c => (Ok a, c).

Definition raise {A} (e : exn) : M A := fun c => (Raise e, c).

Definition bind {A B} (m : M A) (k : A -> M B) : M B :=
  fun c =>
    match m c with
    | (Ok a, c') => k a c'
    | (Raise e, c') => (Raise e, c')
    end.

Notation "'let*' x ':=' m 'in' k" := (bind m (fun x => k))
  (at level 10, x pattern, m at level 100, k at level 200).

(** A read of the connection ([cur.execute(SELECT ...)] and a fetch). *)
Definition query {A} (q : database -> A) : M A := fun c => (Ok (q (work c)), c).

(** A fallible read. *)
Definition lift {A} (q : database -> result A) : M A := fun c => (q (work c), c).

Definition when_ (b : bool) (m : M unit) : M unit := if b then m else ret tt.

(** A statement against a table that may be missing from the file. *)
Definition require_table (name : string) : M unit :=
  fun c =>
    if has_table c name then (Ok tt, c)
    else (Raise (SqlError (String.append "no such table: " name)), c).

(** INSERT, UPDATE and DELETE change what the connection sees and open a
    transaction; nothing is durable until [commit]. *)
Definition execute (f : database -> database) : M unit :=
  fun c =>
    (Ok tt,
     {| table_list := table_list c; has_data_uid := has_data_uid c;
        hierarchy_cache := hierarchy_cache c;
        work := f (work c); durable := durable c |}).

(** [self.dbcon.commit()] *)
Definition commit : M unit :=
  fun c =>
    (Ok tt,
     {| table_list := table_list c; has_data_uid := has_data_uid c;
        hierarchy_cache := hierarchy_cache c;
        work := work c; durable := work c |}).

Definition cache_hierarchy (oid : Z) (hier : string) : M unit :=
  fun c =>
    (Ok tt,
     {| table_list := table_list c; has_data_uid := has_data_uid c;
        hierarchy_cache := <[oid := hier]> (hierarchy_cache c);
        work := work c; durable := durable c |}).

(** The connection has changes that were never committed. *)
Definition pending (c : COAD) : Prop := work c <> durable c.

(** [for x in l: body(x)] *)
Fixpoint for_each {A} (l : list A) (body : A -> M unit) : M unit :=
  match l with
  | [] => ret tt
  | x :: l' => let* _ := body x in for_each l' body
  end.

(** A loop whose body may [return] from the method: [true] stops it. *)
Fixpoint for_until {A} (l : list A) (body : A -> M bool) : M bool :=
  match l with
  | [] => ret false
  | x :: l' => let* stop := body x in if stop then ret true else for_until l' body
  end.

(** A loop over [l] that carries local variables [s]. *)
Fixpoint for_fold {A S} (l : list A) (s : S) (body : S -> A -> M S) : M S :=
  match l with
  | [] => ret s
  | x :: l' => let* s' := body s x in for_fold l' s' body
  end.

End Handle.
Export Handle.

(* ================================================================== *)
(** * [ClassDict], [ObjectDict] and the hierarchy lookups *)
(* ================================================================== *)

Module Coad.

(** [ClassDict]: the class row and the two tables its constructor builds,
    [valid_properties] (parent class name, then property id, to property)
    and [valid_properties_by_name] (parent class name, then property name,
    to property id). *)
Record ClassDict := {
  c_meta : class_row;
  valid_properties : list (string * list (Z * property_row));
  valid_properties_by_name : list (string * list (string * Z)) }.

(** [ObjectDict]: the object row.  The attribute store it also carries
    plays no part in property resolution and is left out. *)
Record ObjectDict := {
  o_meta : object_row }.

(** [self.meta['object_id']] is the integer SQLite returns for the INTEGER
    PRIMARY KEY column. *)
Definition meta_object_id (o : ObjectDict) : pyval := PyInt (object_id (o_meta o)).

Fixpoint fold_result {A S} (f : S -> A -> result S) (l : list A) (s : S) : result S :=
  match l with
  | [] => Ok s
  | x :: l' => try s' := f s x in fold_result f l' s'
  end.

Fixpoint map_result {A B} (f : A -> result B) (l : list A) : result (list B) :=
  match l with
  | [] => Ok []
  | x :: l' => try y := f x in try ys := map_result f l' in Ok (y :: ys)
  end.

(** The body of the inner loop of [ClassDict.__init__]:
<<
  if parent_name not in self.valid_properties:
      self.valid_properties[parent_name] = {}
  if prop['property_id'] in self.valid_properties:
      raise Exception("Duplicate property ...")
  self.valid_properties[parent_name][prop['property_id']] = prop
>>
    The duplicate test looks the property id (a string) up among the parent
    class names. *)
Definition add_valid_property (parent_name : string)
    (vp : list (string * list (Z * property_row))) (prop : property_row)
  : result (list (string * list (Z * property_row))) :=
  let vp1 := match dict_get String.eqb parent_name vp with
             | None => dict_set String.eqb parent_name [] vp
             | Some _ => vp
             end in
  match dict_get String.eqb (str_of_Z (property_id prop)) vp1 with
  | Some _ => Raise (KeyError "Duplicate property")
  | None =>
      let inner := default [] (dict_get String.eqb parent_name vp1) in
      Ok (dict_set String.eqb parent_name (dict_set Z.eqb (property_id prop) prop inner) vp1)
  end.

(** One collection whose child class is this class. *)
Definition add_collection (db : database)
    (vp : list (string * list (Z * property_row))) (coll : collection_row)
  : result (list (string * list (Z * property_row))) :=
  try parent := subscript (fetchone (List.filter
      (fun c => Z.eqb (class_id c) (parent_class_id coll)) (class_t db))) in
  fold_result (add_valid_property (class_name parent))
    (List.filter (fun p => Z.eqb (p_collection_id p) (collection_id coll)) (property_t db))
    vp.

(** The second loop of the constructor:
<<
  for p, pv in self.valid_properties.items():
      self.valid_properties_by_name[p] = {}
      for k, v in pv.items():
          if v['name'] in self.valid_properties_by_name:
              raise Exception("Duplicate property ...")
          self.valid_properties_by_name[p][v['name']] = k
>> *)
Definition add_name (p : string) (bn : list (string * list (string * Z)))
    (kv : Z * property_row) : result (list (string * list (string * Z))) :=
  match dict_get String.eqb (p_name (snd kv)) bn with
  | Some _ => Raise (KeyError "Duplicate property")
  | None =>
      let inner := default [] (dict_get String.eqb p bn) in
      Ok (dict_set String.eqb p (dict_set String.eqb (p_name (snd kv)) (fst kv) inner) bn)
  end.

Definition add_names (bn : list (string * list (string * Z)))
    (ppv : string * list (Z * property_row)) : result (list (string * list (string * Z))) :=
  fold_result (add_name (fst ppv)) (snd ppv) (dict_set String.eqb (fst ppv) [] bn).

Definition ClassDict_init (db : database) (meta : class_row) : result ClassDict :=
  try vp := fold_result (add_collection db)
      (List.filter (fun c => Z.eqb (child_class_id c) (class_id meta)) (collection_t db)) [] in
  try bn := fold_result add_names vp [] in
  Ok {| c_meta := meta; valid_properties := vp; valid_properties_by_name := bn |}.

(** [COAD.__getitem__]: [SELECT * FROM class WHERE name=?]. *)
Definition COAD_getitem (db : database) (key : string) : result ClassDict :=
  match fetchone (List.filter (fun c => String.eqb (class_name c) key) (class_t db)) with
  | None => Raise (NoSuchClass key)
  | Some row => ClassDict_init db row
  end.

(** [COAD.get_by_class_id]: [(name, ) = cur.fetchone()], then [self[name]]. *)
Definition get_by_class_id (db : database) (cid : Z) : result ClassDict :=
  try row := subscript (fetchone (List.filter (fun c => Z.eqb (class_id c) cid) (class_t db))) in
  COAD_getitem db (class_name row).

(** [ObjectDict.get_class] *)
Definition get_class (db : database) (self : ObjectDict) : result ClassDict :=
  get_by_class_id db (o_class_id (o_meta self)).

(** [ObjectDict.__init__] computes [self.hierarchy] through [get_class]. *)
Definition ObjectDict_init (db : database) (meta : object_row) : result ObjectDict :=
  let o := {| o_meta := meta |} in
  try _ := get_class db o in
  Ok o.

(** [ClassDict.__getitem__]:
    [SELECT * FROM object WHERE class_id=? AND name=?]. *)
Definition ClassDict_getitem (db : database) (cls : ClassDict) (key : string) : result ObjectDict :=
  match fetchone (List.filter
      (fun o => Z.eqb (o_class_id o) (class_id (c_meta cls)) && String.eqb (o_name o) key)
      (object_t db)) with
  | None => Raise (NoSuchObject key (class_name (c_meta cls)))
  | Some row => ObjectDict_init db row
  end.

(** [COAD.get_by_hierarchy] for the callers below, which go on to read
    [.meta['object_id']] of what it returns.  The membership tests
    [hier[0] not in self] and [hier[1] not in retobj] run [__getitem__],
    whose exception is no [KeyError] and so leaves the method.  An
    identifier of one part yields a [ClassDict] and one of three parts an
    attribute value; neither has an object id, and both end here in
    [BadHierarchy]. *)
Definition get_by_hierarchy (db : database) (identifier : string) : result ObjectDict :=
  match split dot identifier with
  | [] => Raise (BadHierarchy identifier)
  | cname :: rest =>
      try _ := COAD_getitem db cname in
      try cls := COAD_getitem db cname in
      match rest with
      | [] => Raise (BadHierarchy identifier)
      | oname :: rest' =>
          try _ := ClassDict_getitem db cls oname in
          try obj := ClassDict_getitem db cls oname in
          match rest' with
          | [] => Ok obj
          | _ :: _ => Raise (BadHierarchy identifier)
          end
      end
  end.

(** The [tag] argument: an [ObjectDict] or a hierarchy string. *)
Inductive tag_arg :=
| TagObject (o : ObjectDict)
| TagName (identifier : string).

Definition System_System : tag_arg := TagName "System.System".

Definition resolve_tag (db : database) (tag : tag_arg) : result ObjectDict :=
  match tag with
  | TagObject o => Ok o
  | TagName s => get_by_hierarchy db s
  end.

(** [COAD.get_hierarchy_for_object_id], with its cache. *)
Definition get_hierarchy_for_object_id (oid : Z) : M string :=
  fun c =>
    match hierarchy_cache c !! oid with
    | Some hier => (Ok hier, c)
    | None =>
        let rows :=
          List.flat_map (fun o =>
            List.map (fun cl => (o_name o, class_name cl))
              (List.filter (fun cl => Z.eqb (class_id cl) (o_class_id o)) (class_t (work c))))
            (List.filter (fun o => Z.eqb (object_id o) oid) (object_t (work c))) in
        match fetchone rows with
        | None => (Raise TypeError, c)
        | Some (oname, cname) =>
            let hier := String.append cname (String.append "." oname) in
            (let* _ := cache_hierarchy oid hier in ret hier) c
        end
    end.

(* ================================================================== *)
(** * Input masks *)
(* ================================================================== *)

(** The loop of [get_property] and [get_properties] over the split mask:
<<
  it = iter(mask)
  for k in it:
      valdict[str(k)] = next(it).strip(DQUOTE)
>>
    where [DQUOTE] is the one-character string holding a double quote.
    [next(it)] on an exhausted iterator raises [StopIteration]. *)
Fixpoint build_valdict (mask : list string) (valdict : gmap string string)
  : result (gmap string string) :=
  match mask with
  | [] => Ok valdict
  | [k] => Raise StopIteration
  | k :: v :: rest => build_valdict rest (<[k := strip dquote v]> valdict)
  end.

Definition valdict_of (mask : option string) : result (gmap string string) :=
  match mask with
  | Some m => if truthy mask then build_valdict (split semicolon m) ∅ else Ok ∅
  | None => Ok ∅
  end.

(** [valmap]: [valdict[val]] when [val in valdict], else [val]. *)
Definition valmap (valdict : gmap string string) (val : string) : string :=
  default val (valdict !! val).

(** The loop of [get_mask_value]:
<<
  for k in it:
      mval = next(it).strip(DQUOTE)
      if mval == value:
          return k
      vv.append(mval)
  raise Exception("Value '%s' not in property's input_mask.  Valid values are:..." )
>> *)
Fixpoint mask_scan (value : string) (mask_s : list string) (vv : list string) : result string :=
  match mask_s with
  | [] => Raise (ValueNotInMask value vv)
  | [k] => Raise StopIteration
  | k :: m :: rest =>
      if String.eqb (strip dquote m) value then Ok k
      else mask_scan value rest (vv ++ [strip dquote m])
  end.

Definition get_mask_value (value : string) (mask : option string) : result string :=
  match mask with
  | Some m => if truthy mask then mask_scan value (split semicolon m) [] else Ok value
  | None => Ok value
  end.

(** ** What a mask means

    The specification calls the mask an ordered list of raw code / display
    value pairs.  [mask_pairs] reads the split mask that way, and
    [display_of] is the translation it defines: the display value of the
    pair whose code is the raw value (the last such pair, as a dictionary
    built front to back keeps it), else the raw value itself. *)
Fixpoint mask_pairs (tokens : list string) : list (string * string) :=
  match tokens with
  | k :: v :: rest => (k, strip dquote v) :: mask_pairs rest
  | _ => []
  end.

Definition pairs_of (mask : option string) : list (string * string) :=
  match mask with
  | Some m => if truthy mask then mask_pairs (split semicolon m) else []
  | None => []
  end.

Definition display_of (mask : option string) (raw : string) : string :=
  default raw (dict_get String.eqb raw (rev (pairs_of mask))).

(** The mask splits into whole pairs. *)
Definition mask_paired (mask : option string) : bool :=
  match mask with
  | Some m => if truthy mask then Nat.even (List.length (split semicolon m)) else true
  | None => true
  end.

(** The mask is a mapping: whole pairs, no raw code twice. *)
Definition mask_is_mapping (mask : option string) : bool :=
  mask_paired mask && nodup_names (List.map fst (pairs_of mask)).

End Coad.
Export Coad.

(* ================================================================== *)
(** * Configuration *)
(* ================================================================== *)

Module Config.

(** [COAD.get_config]:
<<
  cur.execute("SELECT value FROM config WHERE element=?", [key])
  row = cur.fetchone()
  if row is None:
      raise Exception("No such config element %s"%key)
  return row[0]
>> *)
Definition get_config (key : string) : M string :=
  let* _ := require_table "config" in
  let* row := query (fun db =>
    fetchone (List.filter (fun r => String.eqb (element r) key) (config_t db))) in
  match row with
  | None => raise (NoSuchConfig key)
  | Some r => ret (c_value r)
  end.

(** [COAD.set_config]:
<<
  cmd = "UPDATE config SET value=? WHERE element=?"
  cur.execute(cmd, [value, key])
  self.dbcon.commit()
  return value
>> *)
Definition update_config (key value : string) (t : list config_row) : list config_row :=
  List.map (fun r =>
    if String.eqb (element r) key then {| element := element r; c_value := value |} else r) t.

Definition set_config (key value : string) : M string :=
  let* _ := require_table "config" in
  let* _ := execute (with_config_t (update_config key value)) in
  let* _ := commit in
  ret value.

End Config.
Export Config.

(* ================================================================== *)
(** * Property resolution: [get_property] and [get_properties] *)
(* ================================================================== *)

Module Properties.

(** The WHERE clause shared by [get_property] and [delete_property]:
    [(child_object_id=? AND name=?) AND (parent_object_id=? OR tag_object_id=?)]. *)
Definition owned_by (oid : Z) (name : string) (tid : Z) (r : view_row) : bool :=
  (Z.eqb (v_child_object_id r) oid && String.eqb (v_name r) name)
  && (Z.eqb (v_parent_object_id r) tid || sql_eq_opt (v_tag_object_id r) tid).

Definition by_band (a b : view_row) : bool := null_first_le (v_band_id a) (v_band_id b).

(** The rows [get_property] fetches: the filter, then [ORDER BY band_id]
    when the data table has a [uid] column. *)
Definition property_rows (c : COAD) (oid : Z) (name : string) (tid : Z) : list view_row :=
  let rows := List.filter (owned_by oid name tid) (property_view (work c)) in
  if has_data_uid c then order_by by_band rows else rows.

(** [ObjectDict.get_property] *)
Definition get_property (c : COAD) (self : ObjectDict) (name : string) (tag : tag_arg)
  : result (option pvalue) :=
  if negb (has_table c "data") then Ok None
  else
    try tag_obj := resolve_tag (work c) tag in
    let all_data :=
      property_rows c (object_id (o_meta self)) name (object_id (o_meta tag_obj)) in
    try valdict :=
      match all_data with
      | r :: _ => valdict_of (v_input_mask r)
      | [] => Ok ∅
      end in
    let mapped_data := List.map (fun d => valmap valdict (v_value d)) all_data in
    match mapped_data with
    | [] => Ok None
    | [v] => Ok (Some (VScalar v))
    | _ => Ok (Some (VList mapped_data))
    end.

(** One row of the loop of [get_properties]. *)
Definition add_to_props (name value : string) (inner : gmap string pvalue) : gmap string pvalue :=
  match inner !! name with
  | None => <[name := VScalar value]> inner
  | Some (VScalar old) => <[name := VList [old; value]]> inner
  | Some (VList l) => <[name := VList (l ++ [value])]> inner
  end.

Definition properties_step (props : gmap string (gmap string pvalue)) (r : view_row)
  : M (gmap string (gmap string pvalue)) :=
  let* map_hier :=
    match v_tag_object_id r with
    | Some t => if Z.eqb t 0 then get_hierarchy_for_object_id (v_parent_object_id r)
                else get_hierarchy_for_object_id t
    | None => get_hierarchy_for_object_id (v_parent_object_id r)
    end in
  let inner := default ∅ (props !! map_hier) in
  let* valdict := (fun c => (valdict_of (v_input_mask r), c)) in
  let value := valmap valdict (v_value r) in
  ret (<[map_hier := add_to_props (v_name r) value inner]> props).

(** [ObjectDict.get_properties] *)
Definition get_properties (self : ObjectDict) : M (gmap string (gmap string pvalue)) :=
  fun c =>
    if negb (has_table c "data") then (Ok ∅, c)
    else
      let rows := List.filter
        (fun r => Z.eqb (v_child_object_id r) (object_id (o_meta self)))
        (property_view (work c)) in
      let rows := if has_data_uid c then order_by by_band rows else rows in
      for_fold rows ∅ properties_step c.

End Properties.
Export Properties.

(* ================================================================== *)
(** * Property mutation: [set_property], [delete_property], tagging *)
(* ================================================================== *)

Module Mutation.

(** SQL [MAX] over a column: NULL on no rows. *)
Definition sql_max (l : list Z) : option Z :=
  fold_left (fun acc z =>
    match acc with
    | None => Some z
    | Some a => Some (Z.max a z)
    end) l None.

(** [SELECT MAX(data_id), MAX(CAST(uid AS INTEGER)) FROM data] *)
Definition select_max_ids : M (option Z * option Z) :=
  let* _ := require_table "data" in
  fun c =>
    if has_data_uid c then
      (Ok (sql_max (List.map data_id (data_t (work c))),
           sql_max (omap uid (data_t (work c)))), c)
    else (Raise (SqlError "no such column: uid"), c).

(** [x += 1] on what [MAX] returned: a [TypeError] on [None]. *)
Definition incr (o : option Z) : M Z :=
  match o with
  | Some z => ret (z + 1)
  | None => raise TypeError
  end.

(** [UPDATE property SET is_dynamic=v WHERE property_id=?] *)
Definition set_is_dynamic (v : string) (pid : Z) (t : list property_row) : list property_row :=
  List.map (fun p =>
    if Z.eqb (property_id p) pid then
      {| property_id := property_id p; p_collection_id := p_collection_id p;
         p_name := p_name p; input_mask := input_mask p;
         is_dynamic := v; is_enabled := is_enabled p |}
    else p) t.

(** [UPDATE property SET is_enabled=v WHERE property_id=?] *)
Definition set_is_enabled (v : string) (pid : Z) (t : list property_row) : list property_row :=
  List.map (fun p =>
    if Z.eqb (property_id p) pid then
      {| property_id := property_id p; p_collection_id := p_collection_id p;
         p_name := p_name p; input_mask := input_mask p;
         is_dynamic := is_dynamic p; is_enabled := v |}
    else p) t.

(** [UPDATE data SET value=? WHERE data_id=?] *)
Definition update_value (v : string) (did : Z) (t : list data_row) : list data_row :=
  List.map (fun d =>
    if Z.eqb (data_id d) did then
      {| data_id := data_id d; uid := uid d; d_membership_id := d_membership_id d;
         d_property_id := d_property_id d; d_value := v |}
    else d) t.

(** [SELECT ... FROM property WHERE property_id=?], then [fetchone()]. *)
Definition select_property (pid : Z) : M (option property_row) :=
  query (fun db => fetchone (List.filter (fun p => Z.eqb (property_id p) pid) (property_t db))).

(** [SELECT membership_id FROM membership
     WHERE child_object_id=? AND parent_object_id=?], then [fetchone()]. *)
Definition select_membership (child parent : Z) : M (option membership_row) :=
  query (fun db => fetchone (List.filter
    (fun m => Z.eqb (child_object_id m) child && Z.eqb (parent_object_id m) parent)
    (membership_t db))).

(** The two updates that mark a property dynamic and enabled, with the
    literal each call site writes. *)
Definition mark_property (lit : string) (prop : property_row) (pid : Z) : M unit :=
  let* _ := when_ (negb (String.eqb (is_dynamic prop) "true"))
              (execute (with_property_t (set_is_dynamic lit pid))) in
  when_ (negb (String.eqb (is_enabled prop) "true"))
    (execute (with_property_t (set_is_enabled lit pid))).

(** The insertion loop shared by the two branches that add data:
<<
  band = 0
  for m_value in m_values:
      last_data_id += 1
      last_uid += 1
      band += 1
      INSERT INTO data (data_id,uid,membership_id,value,property_id)
      if band > 1:
          INSERT INTO band (data_id,band_id)
      (tag branch only) INSERT INTO tag ...
>>
    [member] is the fetched membership row, subscripted at the INSERT. *)
Definition insert_step (member : option membership_row) (pid : Z) (after : Z -> M unit)
    (s : option Z * option Z * Z) (m_value : string) : M (option Z * option Z * Z) :=
  let '(last_data_id, last_uid, band) := s in
  let* new_id := incr last_data_id in
  let* new_uid := incr last_uid in
  let band := band + 1 in
  let* m := (fun c => (subscript member, c)) in
  let* _ := execute (with_data_t (fun t => t ++
      [{| data_id := new_id; uid := Some new_uid; d_membership_id := membership_id m;
          d_property_id := pid; d_value := m_value |}])) in
  let* _ := when_ (Z.ltb 1 band)
      (let* _ := require_table "band" in
       execute (with_band_t (fun t => t ++ [{| b_data_id := new_id; band_id := band |}]))) in
  let* _ := after new_id in
  ret (Some new_id, Some new_uid, band).

Definition insert_values (member : option membership_row) (pid : Z) (after : Z -> M unit)
    (ids : option Z * option Z) (m_values : list string) : M unit :=
  let* _ := for_fold m_values (ids, 0) (insert_step member pid after) in
  ret tt.

(** [INSERT INTO tag (data_id, object_id) VALUES (?,?)] *)
Definition insert_tag (did oid : Z) : M unit :=
  let* _ := require_table "tag" in
  execute (with_tag_t (fun t => t ++ [{| t_data_id := did; t_object_id := oid |}])).

(** ** The tag branch: the tag's class does not own the property *)

(** The body of the search over existing tags of the tag object; [true]
    when the value was overwritten and the method returned. *)
Definition overwrite_tagged (self : ObjectDict) (name : string) (value : pvalue)
    (ptag : Z) : M bool :=
  let* ptag_data := lift (fun db => subscript (fetchone
      (List.filter (fun d => Z.eqb (data_id d) ptag) (data_t db)))) in
  let* ptag_prop := lift (fun db => subscript (fetchone
      (List.filter (fun p => Z.eqb (property_id p) (d_property_id ptag_data)) (property_t db)))) in
  if String.eqb (p_name ptag_prop) name then
    let* ptag_member := lift (fun db => subscript (fetchone
        (List.filter (fun m => Z.eqb (membership_id m) (d_membership_id ptag_data))
           (membership_t db)))) in
    if Z.eqb (child_object_id ptag_member) (object_id (o_meta self)) then
      match value with
      | VList _ => raise TaggedListOverwrite
      | VScalar v =>
          let* m_value := (fun c => (get_mask_value v (input_mask ptag_prop), c)) in
          (* here the literal is the SQL keyword [true], stored as 1 *)
          let* _ := mark_property "1" ptag_prop (d_property_id ptag_data) in
          let* _ := execute (with_data_t (update_value m_value ptag)) in
          let* _ := commit in
          ret true
      end
    else ret false
  else ret false.

Definition set_property_tagged (self : ObjectDict) (self_cls : ClassDict)
    (tag_obj : ObjectDict) (name : string) (value : pvalue) (data_tag : option string)
  : M unit :=
  let* _ := require_table "tag" in
  let* possible_tags := query (fun db => List.map t_data_id
      (List.filter (fun t => Z.eqb (t_object_id t) (object_id (o_meta tag_obj))) (tag_t db))) in
  let* done := for_until possible_tags (overwrite_tagged self name value) in
  if done then ret tt
  else
    let* by_name := (fun c =>
      (match dict_get String.eqb "System" (valid_properties_by_name self_cls) with
       | Some d => Ok d
       | None => Raise (KeyError "System")
       end, c)) in
    let* prop_id := (fun c =>
      (match dict_get String.eqb name by_name with
       | Some p => Ok p
       | None => Raise (KeyError name)
       end, c)) in
    let* prop := select_property prop_id in
    let* ids := select_max_ids in
    let* sys_obj := lift (fun db => get_by_hierarchy db "System.System") in
    let* member := select_membership (object_id (o_meta self)) (object_id (o_meta sys_obj)) in
    let* p := (fun c => (subscript prop, c)) in
    let* m_values := (fun c =>
      (map_result (fun x => get_mask_value x (input_mask p)) (as_list value), c)) in
    let* data_obj :=
      match data_tag with
      | Some dt => let* o := lift (fun db => get_by_hierarchy db dt) in ret (Some o)
      | None => ret None
      end in
    let* _ := mark_property "true" p prop_id in
    let* _ := insert_values member prop_id
        (fun new_id =>
           let* _ := insert_tag new_id (object_id (o_meta tag_obj)) in
           match data_obj with
           | Some o => insert_tag new_id (object_id (o_meta o))
           | None => ret tt
           end)
        ids m_values in
    let* _ := commit in
    let* _ := set_config "Dynamic" "-1" in
    ret tt.

(** ** The native branch: the tag's class owns the property *)

(** The data rows of a membership and property, in the order the method
    reads them: by band (the row without a band row first) when the data
    table has a [uid] column, by data id otherwise.
<<
  SELECT data.data_id FROM data LEFT JOIN band ON band.data_id=data.data_id
  WHERE membership_id=? AND property_id=? ORDER BY band_id
>> *)
Definition native_rows (c : COAD) (mid pid : Z) : list Z :=
  let data := List.filter
    (fun d => Z.eqb (d_membership_id d) mid && Z.eqb (d_property_id d) pid)
    (data_t (work c)) in
  if has_data_uid c then
    List.map fst
      (order_by (fun a b : Z * option Z => null_first_le (snd a) (snd b))
         (List.flat_map (fun d =>
            List.map (fun b => (data_id d, b))
              (left_outer band_id
                 (List.filter (fun b => Z.eqb (b_data_id b) (data_id d)) (band_t (work c)))))
            data))
  else order_by Z.leb (List.map data_id data).

Definition select_native_rows (mid pid : Z) : M (list Z) :=
  let* _ := require_table "data" in
  fun c =>
    if has_data_uid c && negb (has_table c "band")
    then (Raise (SqlError "no such table: band"), c)
    else (Ok (native_rows c mid pid), c).

Definition set_property_native (self : ObjectDict) (tag_obj : ObjectDict)
    (tag : string) (tag_clsname : string) (by_name : list (string * Z))
    (name : string) (value : pvalue) : M unit :=
  match dict_get String.eqb name by_name with
  | None => raise (NotValidProperty name tag_clsname)
  | Some prop_id =>
      let* prop := select_property prop_id in
      let* member := select_membership (object_id (o_meta self)) (object_id (o_meta tag_obj)) in
      match member with
      | None => raise (NoMembership tag (o_name (o_meta self)))
      | Some m =>
          let* all_data := select_native_rows (membership_id m) prop_id in
          match all_data with
          | [] =>
              let* prop := select_property prop_id in
              let* ids := select_max_ids in
              let* p := (fun c => (subscript prop, c)) in
              let* m_values := (fun c =>
                (map_result (fun x => get_mask_value x (input_mask p)) (as_list value), c)) in
              let* _ := mark_property "true" p prop_id in
              insert_values member prop_id (fun _ => ret tt) ids m_values
          | [data] =>
              match value with
              | VList _ => raise ListForSingle
              | VScalar v =>
                  let* p := (fun c => (subscript prop, c)) in
                  let* m_value := (fun c => (get_mask_value v (input_mask p), c)) in
                  let* _ := execute (with_data_t (update_value m_value data)) in
                  commit
              end
          | _ =>
              match value with
              | VScalar _ => raise SingleForList
              | VList l =>
                  if negb (Nat.eqb (List.length l) (List.length all_data))
                  then raise (LengthMismatch (List.length l) (List.length all_data))
                  else
                    for_each (combine l all_data) (fun '(raw_val, data) =>
                      let* p := (fun c => (subscript prop, c)) in
                      let* m_value := (fun c => (get_mask_value raw_val (input_mask p), c)) in
                      let* _ := execute (with_data_t (update_value m_value data)) in
                      commit)
              end
          end
      end
  end.

(** [ObjectDict.set_property] *)
Definition set_property (self : ObjectDict) (name : string) (value : pvalue)
    (tag : string) (data_tag : option string) : M unit :=
  let* tag_obj := lift (fun db => get_by_hierarchy db tag) in
  let* tag_cls := lift (fun db => get_class db tag_obj) in
  let tag_clsname := class_name (c_meta tag_cls) in
  let* self_cls := lift (fun db => get_class db self) in
  match dict_get String.eqb tag_clsname (valid_properties_by_name self_cls) with
  | None => set_property_tagged self self_cls tag_obj name value data_tag
  | Some by_name => set_property_native self tag_obj tag tag_clsname by_name name value
  end.

(** [ObjectDict.delete_property] *)
Definition delete_property (self : ObjectDict) (name : string) (tag : tag_arg) : M unit :=
  let* tag_obj := lift (fun db => resolve_tag db tag) in
  let* _ := require_table "data" in
  let* all_data := query (fun db => List.map v_data_id
      (List.filter (owned_by (object_id (o_meta self)) name (object_id (o_meta tag_obj)))
         (property_view db))) in
  let* _ := for_each all_data (fun did =>
      let* _ := require_table "text" in
      let* _ := execute (with_text_t (List.filter (fun x => negb (Z.eqb (x_data_id x) did)))) in
      let* _ := require_table "tag" in
      let* _ := execute (with_tag_t (List.filter (fun t => negb (Z.eqb (t_data_id t) did)))) in
      let* _ := require_table "band" in
      let* _ := execute (with_band_t (List.filter (fun b => negb (Z.eqb (b_data_id b) did)))) in
      execute (with_data_t (List.filter (fun d => negb (Z.eqb (data_id d) did))))) in
  commit.

(** [GROUP BY data_id]: one row per data id, ascending. *)
Fixpoint dedup (l : list Z) : list Z :=
  match l with
  | [] => []
  | x :: l' => if existsb (Z.eqb x) l' then dedup l' else x :: dedup l'
  end.

Definition group_by_id (l : list Z) : list Z := order_by Z.leb (dedup l).

(** The data ids [tag_property] tags:
<<
  SELECT data_id FROM property_view WHERE child_object_id=? AND name=?
  AND data_id NOT IN (SELECT data_id FROM property_view WHERE tag_object_id=?)
  GROUP BY data_id
>> *)
Definition untagged_data (db : database) (oid : Z) (name : string) (tid : Z) : list Z :=
  let tagged := List.map v_data_id
    (List.filter (fun r => sql_eq_opt (v_tag_object_id r) tid) (property_view db)) in
  group_by_id (List.map v_data_id
    (List.filter
       (fun r => (Z.eqb (v_child_object_id r) oid && String.eqb (v_name r) name)
                 && negb (existsb (Z.eqb (v_data_id r)) tagged))
       (property_view db))).

(** [ObjectDict.tag_property]:
<<
  tag_obj = self.coad.get_by_hierarchy(tag)
  if tag_obj.meta['object_id'] == '1':
      raise Exception("Cannot tag with System object")
>>
    then the query above, one INSERT into [tag] per data id, and a commit. *)
Definition tag_property (self : ObjectDict) (name : string) (tag : string) : M unit :=
  let* tag_obj := lift (fun db => get_by_hierarchy db tag) in
  if py_eq (meta_object_id tag_obj) (PyStr "1") then raise CannotTagSystem
  else
    let* _ := require_table "data" in
    let* all_data_ids := query (fun db =>
      untagged_data db (object_id (o_meta self)) name (object_id (o_meta tag_obj))) in
    let* _ := require_table "tag" in
    let* _ := execute (with_tag_t (fun t => t ++
        List.map (fun did => {| t_data_id := did; t_object_id := object_id (o_meta tag_obj) |})
          all_data_ids)) in
    commit.

(** [ObjectDict.untag_property]:
<<
  tag_obj = self.coad.get_by_hierarchy(tag)
  if tag_obj.meta['object_id'] == 1:
      raise Exception("Cannot untag System object")
  ...
  if len(all_data_ids) == 0:
      _logger.warning("No properties untagged")
  else:
      cmd = "DELETE FROM tag WHERE data_id=? AND object_id=?"
      cur.executemany(cmd, zip(all_data_ids, [tag_obj.meta['object_id']]*len(all_data_ids)))
>>
    The method ends there. *)
Definition untag_property (self : ObjectDict) (name : string) (tag : string) : M unit :=
  let* tag_obj := lift (fun db => get_by_hierarchy db tag) in
  if py_eq (meta_object_id tag_obj) (PyInt 1) then raise CannotUntagSystem
  else
    let* _ := require_table "data" in
    let* all_data_ids := query (fun db => List.map v_data_id
      (List.filter
         (fun r => (Z.eqb (v_child_object_id r) (object_id (o_meta self))
                    && String.eqb (v_name r) name)
                   && sql_eq_opt (v_tag_object_id r) (object_id (o_meta tag_obj)))
         (property_view db))) in
    match all_data_ids with
    | [] => ret tt
    | _ =>
        let* _ := require_table "tag" in
        execute (with_tag_t (List.filter (fun t =>
          negb (existsb (Z.eqb (t_data_id t)) all_data_ids
                && Z.eqb (t_object_id t) (object_id (o_meta tag_obj))))))
    end.

End Mutation.
Export Mutation.

(* ================================================================== *)
(** * [plexos_database]: the schema-inferring loader and the serializer *)
(* ================================================================== *)

Module PlexosDatabase.

(** The loader sees tables it knows nothing about, so here a table is
    generic: its declared columns, its FOREIGN KEY clauses and its rows, a
    row holding one nullable text cell per column.  (An INTEGER column
    returns the numeral the file held, the key column in its plain decimal
    spelling; [save] turns it back into text with [str].)  Table and column
    names are taken as the plain, case-sensitive identifiers the file format
    uses. *)

Definition META_TABLE : string := "plexos_meta".

Definition PK_EXCEPTIONS : list string := ["band"].

Inductive affinity := INTEGER | TEXT.

Record column := {
  col_name : string;
  col_type : affinity;
  col_pk : bool }.

Record table := {
  columns : list column;
  foreign_keys : list string;
  rows : list (list (option string)) }.

Record index := {
  idx_name : string;
  idx_table : string;
  idx_columns : list string }.

Record sqlite_db := {
  tables : gmap string table;
  indexes : list index }.

(** One table-row element of the record stream: the table name and the
    sub-elements in document order, each with its text ([None] for an empty
    element). *)
Record xml_record := {
  rec_table : string;
  rec_fields : list (string * option string) }.

(** ** The key of a table with an INTEGER PRIMARY KEY

    Such a column is the table's rowid: a text that reads as a 64-bit
    integer is stored as that integer and any other text is refused, a NULL
    gets the largest key plus one (1 in an empty table), a key already there
    is refused, and the table is scanned in ascending key order.  A table
    without such a column is scanned in insertion order.

    The embedding reads decimal numerals with an optional minus sign, which
    is what the file format writes; SQLite reads more spellings of a number
    (blanks around it, a plus sign, a decimal point, an exponent), and those
    are refused here.  Past the largest 64-bit key SQLite draws a key at
    random; here the statement is refused. *)

(** The position of the INTEGER PRIMARY KEY column. *)
Fixpoint pk_index (cols : list column) : option nat :=
  match cols with
  | [] => None
  | c :: rest => if col_pk c then Some 0%nat else S <$> pk_index rest
  end.

Definition int_of_text (s : string) : option Z :=
  match NilZero.int_of_string s with
  | Some d =>
      let k := Z.of_int d in
      if Z.leb (- 2 ^ 63) k && Z.ltb k (2 ^ 63) then Some k else None
  | None => None
  end.

(** The key a stored row holds at position [i]. *)
Definition key_of (i : nat) (r : list (option string)) : Z :=
  match r !! i with
  | Some (Some s) => default 0 (int_of_text s)
  | _ => 0
  end.

Definition key_le (i : nat) (a b : list (option string)) : bool := Z.leb (key_of i a) (key_of i b).

(** The key given to a row that comes without one. *)
Definition next_key (i : nat) (rs : list (list (option string))) : result Z :=
  match last rs with
  | None => Ok 1
  | Some r =>
      if Z.ltb (key_of i r) (2 ^ 63 - 1) then Ok (key_of i r + 1)
      else Raise (SqlError "database or disk is full")
  end.

(** One row stored in a table with columns [cols] and rows [rs]. *)
Definition insert_row (cols : list column) (rs : list (list (option string))) (r : list (option string)) : result (list (list (option string))) :=
  match pk_index cols with
  | None => Ok (rs ++ [r])
  | Some i =>
      match mjoin (r !! i) with
      | Some s =>
          match int_of_text s with
          | Some k =>
              if existsb (Z.eqb k) (List.map (key_of i) rs)
              then Raise (SqlError "UNIQUE constraint failed")
              else Ok (insert_by (key_le i) (<[i := Some (str_of_Z k)]> r) rs)
          | None => Raise (SqlError "datatype mismatch")
          end
      | None =>
          try k := next_key i rs in
          Ok (rs ++ [<[i := Some (str_of_Z k)]> r])
      end
  end.

(** [s.endswith(suffix)] *)
Definition endswith (suffix s : string) : bool :=
  let n := String.length s in
  let k := String.length suffix in
  Nat.leb k n && String.eqb (substring (n - k) k s) suffix.

(** [s[:-3]] *)
Definition drop_last3 (s : string) : string :=
  substring 0 (String.length s - 3) s.

Definition is_primary_key (table_name col : string) : bool :=
  String.eqb (drop_last3 col) table_name
  && negb (existsb (String.eqb table_name) PK_EXCEPTIONS).

(** The column definition written by CREATE TABLE, in the first pass and in
    the rebuild alike. *)
Definition column_def (table_name col : string) : column :=
  if endswith "_id" col then
    {| col_name := col; col_type := INTEGER; col_pk := is_primary_key table_name col |}
  else if String.eqb col "uid" then
    {| col_name := col; col_type := INTEGER; col_pk := false |}
  else {| col_name := col; col_type := TEXT; col_pk := false |}.

(** The column definition written by ALTER TABLE ADD COLUMN. *)
Definition added_column (col : string) : column :=
  {| col_name := col;
     col_type := if endswith "_id" col || String.eqb col "uid" then INTEGER else TEXT;
     col_pk := false |}.

(** The candidate foreign keys a new table contributes: its [_id] columns
    other than its own key. *)
Definition new_table_forkeys (table_name : string) (col_names : list string)
  : list (string * string) :=
  List.map (fun c => (table_name, c))
    (List.filter (fun c => endswith "_id" c && negb (is_primary_key table_name c)) col_names).

(** ** Statements *)

Definition with_tables (f : gmap string table -> gmap string table) (db : sqlite_db) : sqlite_db :=
  {| tables := f (tables db); indexes := indexes db |}.

(** [DROP TABLE IF EXISTS name] *)
Definition drop_table_if_exists (name : string) (db : sqlite_db) : sqlite_db :=
  {| tables := delete name (tables db);
     indexes := List.filter (fun i => negb (String.eqb (idx_table i) name)) (indexes db) |}.

(** [CREATE TABLE name (cols, fks)]: refused without columns, with a
    repeated column name, with two primary keys, or when the table exists. *)
Definition create_table (name : string) (cols : list column) (fks : list string)
    (db : sqlite_db) : result sqlite_db :=
  match cols with
  | [] => Raise (SqlError "near ): syntax error")
  | _ =>
      if negb (nodup_names (List.map col_name cols)) then Raise (SqlError "duplicate column name")
      else if Nat.ltb 1 (List.length (List.filter col_pk cols))
      then Raise (SqlError "table has more than one primary key")
      else match tables db !! name with
           | Some _ => Raise (SqlError "table already exists")
           | None =>
               Ok (with_tables
                     (insert name {| columns := cols; foreign_keys := fks; rows := [] |}) db)
           end
  end.

(** [ALTER TABLE name ADD COLUMN col type]: existing rows read NULL in it. *)
Definition add_column (name : string) (col : column) (db : sqlite_db) : result sqlite_db :=
  match tables db !! name with
  | None => Raise (SqlError "no such table")
  | Some t =>
      if col_pk col then Raise (SqlError "Cannot add a PRIMARY KEY column")
      else if existsb (String.eqb (col_name col)) (List.map col_name (columns t))
      then Raise (SqlError "duplicate column name")
      else Ok (with_tables
                 (insert name {| columns := columns t ++ [col];
                                 foreign_keys := foreign_keys t;
                                 rows := List.map (fun r => r ++ [None]) (rows t) |}) db)
  end.

(** The cell a record gives a column: its text, the empty string for an
    empty element, NULL when the record has no such sub-element. *)
Fixpoint cell_of (fields : list (string * option string)) (col : string) : option string :=
  match fields with
  | [] => None
  | (k, v) :: fields' =>
      if String.eqb k col then Some (default EmptyString v) else cell_of fields' col
  end.

(** [INSERT INTO name (cols) VALUES (?, ...)] *)
Definition insert_record (name : string) (fields : list (string * option string))
    (db : sqlite_db) : result sqlite_db :=
  match tables db !! name with
  | None => Raise (SqlError "no such table")
  | Some t =>
      match fields with
      | [] => Raise (SqlError "near ): syntax error")
      | _ =>
          if forallb (fun k => existsb (String.eqb k) (List.map col_name (columns t)))
               (List.map fst fields)
          then
            try rs := insert_row (columns t) (rows t)
                        (List.map (fun c => cell_of fields (col_name c)) (columns t)) in
            Ok (with_tables
                  (insert name {| columns := columns t; foreign_keys := foreign_keys t;
                                  rows := rs |}) db)
          else Raise (SqlError "table has no such column")
      end
  end.

(** [ALTER TABLE old RENAME TO new] *)
Definition rename_table (old new : string) (db : sqlite_db) : result sqlite_db :=
  match tables db !! old with
  | None => Raise (SqlError "no such table")
  | Some t =>
      match tables db !! new with
      | Some _ => Raise (SqlError "there is already another table with this name")
      | None =>
          Ok {| tables := <[new := t]> (delete old (tables db));
                indexes := List.map (fun i =>
                  if String.eqb (idx_table i) old
                  then {| idx_name := idx_name i; idx_table := new; idx_columns := idx_columns i |}
                  else i) (indexes db) |}
      end
  end.

(** [INSERT INTO dst SELECT * FROM src]: the rows of [src], in the order
    it is scanned, stored one by one in [dst], cell by cell; refused when the
    column counts differ. *)
Definition insert_select_all (dst src : string) (db : sqlite_db) : result sqlite_db :=
  match tables db !! dst, tables db !! src with
  | Some d, Some s =>
      if Nat.eqb (List.length (columns d)) (List.length (columns s)) then
        try rs := fold_result (insert_row (columns d)) (rows s) (rows d) in
        Ok (with_tables
              (insert dst {| columns := columns d; foreign_keys := foreign_keys d;
                             rows := rs |}) db)
      else Raise (SqlError "table has a different number of columns")
  | _, _ => Raise (SqlError "no such table")
  end.

(** [CREATE INDEX name ON table (cols)] *)
Definition create_index (name tbl : string) (cols : list string) (db : sqlite_db)
  : result sqlite_db :=
  match tables db !! tbl with
  | None => Raise (SqlError "no such table")
  | Some t =>
      if negb (forallb (fun c => existsb (String.eqb c) (List.map col_name (columns t))) cols)
      then Raise (SqlError "no such column")
      else if existsb (fun i => String.eqb (idx_name i) name) (indexes db)
      then Raise (SqlError "index already exists")
      else Ok {| tables := tables db;
                 indexes := indexes db ++
                   [{| idx_name := name; idx_table := tbl; idx_columns := cols |}] |}
  end.

(** ** The first pass of [load] *)

(** The local variables of [load]: the connection, [tables] (table name to
    the column names seen so far) and [forkeys]. *)
Record loader := {
  dbcon : sqlite_db;
  known : gmap string (list string);
  forkeys : list (string * string) }.

(** The columns of a record not yet known for its table.  Python iterates
    [set(col_names) - set(tables[table_name])] in an unspecified order; the
    embedding takes the order of first occurrence. *)
Fixpoint new_columns (known_cols col_names : list string) : list string :=
  match col_names with
  | [] => []
  | c :: rest =>
      if existsb (String.eqb c) known_cols then new_columns known_cols rest
      else c :: new_columns (known_cols ++ [c]) rest
  end.

(** The branch of [load] for a table name seen for the first time. *)
Definition new_table (name : string) (col_names : list string) (st : loader) : result loader :=
  try db := create_table name (List.map (column_def name) col_names) []
              (drop_table_if_exists name (dbcon st)) in
  Ok {| dbcon := db;
        known := <[name := col_names]> (known st);
        forkeys := forkeys st ++ new_table_forkeys name col_names |}.

(** One iteration of the loop over [new_cols]. *)
Definition new_column (name : string) (st : loader) (col : string) : result loader :=
  try db := add_column name (added_column col) (dbcon st) in
  Ok {| dbcon := db;
        known := <[name := default [] (known st !! name) ++ [col]]> (known st);
        forkeys := if endswith "_id" col then forkeys st ++ [(name, col)] else forkeys st |}.

(** The body of the loop over the table-row elements. *)
Definition load_record (st : loader) (r : xml_record) : result loader :=
  let name := rec_table r in
  let col_names := List.map fst (rec_fields r) in
  try st1 := match known st !! name with
             | None => new_table name col_names st
             | Some _ => Ok st
             end in
  try st2 := fold_result (new_column name)
               (new_columns (default [] (known st1 !! name)) col_names) st1 in
  try db := insert_record name (rec_fields r) (dbcon st2) in
  Ok {| dbcon := db; known := known st2; forkeys := forkeys st2 |}.

Definition empty_db : sqlite_db := {| tables := ∅; indexes := [] |}.

Definition first_pass (records : list xml_record) : result loader :=
  fold_result load_record records
    {| dbcon := empty_db; known := ∅; forkeys := [] |}.

(** ** The deferred foreign keys *)

(** [forkeys_tables]: for each table, in the order it first appears in
    [forkeys], its candidate columns whose target table exists. *)
Definition forkeys_tables (known : gmap string (list string)) (fks : list (string * string))
  : list (string * list string) :=
  fold_left (fun acc '(orig_table, orig_col) =>
    match known !! drop_last3 orig_col with
    | Some _ =>
        dict_set String.eqb orig_table
          (default [] (dict_get String.eqb orig_table acc) ++ [orig_col]) acc
    | None => acc
    end) fks [].

Definition todelete (name : string) : string := String.append name "_todelete".

(** The rebuild of one table:
<<
  DROP TABLE IF EXISTS t_todelete
  ALTER TABLE t RENAME TO t_todelete
  DROP TABLE IF EXISTS 't'
  CREATE TABLE 't'(columns of tables[t], FOREIGN KEY clauses)
  INSERT INTO t SELECT * FROM t_todelete
  DROP TABLE IF EXISTS t_todelete
>> *)
Definition rebuild_table (known : gmap string (list string)) (db : sqlite_db)
    (entry : string * list string) : result sqlite_db :=
  let '(name, forkeys_cols) := entry in
  let db1 := drop_table_if_exists (todelete name) db in
  try db2 := rename_table name (todelete name) db1 in
  try cols := match known !! name with
              | Some cols => Ok cols
              | None => Raise (KeyError name)
              end in
  let db3 := drop_table_if_exists name db2 in
  try db4 := create_table name (List.map (column_def name) cols) forkeys_cols db3 in
  try db5 := insert_select_all name (todelete name) db4 in
  Ok (drop_table_if_exists (todelete name) db5).

Definition index_name (tbl col : string) : string :=
  String.append tbl (String.append "_" (String.append col "_idx")).

(** [CREATE INDEX t_c_idx ON 't'('c')] for every candidate foreign key. *)
Definition create_forkey_index (db : sqlite_db) (fk : string * string) : result sqlite_db :=
  create_index (index_name (fst fk) (snd fk)) (fst fk) [snd fk] db.

(** The metadata table with its two rows. *)
Definition meta_table (namespace root_element : option string) : table :=
  {| columns := [ {| col_name := "plexos_meta_id"; col_type := INTEGER; col_pk := true |};
                  {| col_name := "name"; col_type := TEXT; col_pk := false |};
                  {| col_name := "value"; col_type := TEXT; col_pk := false |} ];
     foreign_keys := [];
     rows := [ [Some "1"; Some "namespace"; namespace];
               [Some "2"; Some "root_element"; root_element] ] |}.

Definition index_list : list (string * string) :=
  [("object", "name"); ("property", "name"); ("data", "uid")].

(** The hot-path indexes, each created when its table and column are known. *)
Definition create_hot_index (known : gmap string (list string)) (db : sqlite_db)
    (tc : string * string) : result sqlite_db :=
  match known !! fst tc with
  | Some cols =>
      if existsb (String.eqb (snd tc)) cols
      then create_index (index_name (fst tc) (snd tc)) (fst tc) [snd tc] db
      else Ok db
  | None => Ok db
  end.

(** [load], from the end of the element loop to the commit.  The two views
    it creates last are the queries of [Store]. *)
Definition finish_load (namespace root_element : option string) (st : loader)
  : result sqlite_db :=
  try db1 := fold_result (rebuild_table (known st))
               (forkeys_tables (known st) (forkeys st)) (dbcon st) in
  try db2 := fold_result create_forkey_index (forkeys st) db1 in
  let db3 := with_tables (insert META_TABLE (meta_table namespace root_element))
               (drop_table_if_exists META_TABLE db2) in
  try db4 := fold_result (create_hot_index (known st)) index_list db3 in
  create_index "object_class_id_and_name_idx" "object" ["class_id"; "name"] db4.

Definition load (namespace root_element : option string) (records : list xml_record)
  : result sqlite_db :=
  try st := first_pass records in
  finish_load namespace root_element st.

(** ** What the tables of the first pass hold *)

Definition column_names (t : table) : list string := List.map col_name (columns t).

(** A stored row of a keyed table holds its key as the numeral of a 64-bit
    integer. *)
Definition canonical (i : nat) (r : list (option string)) : Prop :=
  exists k, r !! i = Some (Some (str_of_Z k)) /\ int_of_text (str_of_Z k) = Some k.

(** A keyed table holds canonical rows in ascending key order. *)
Definition table_ok (t : table) : Prop :=
  forall i, pk_index (columns t) = Some i ->
    Forall (canonical i) (rows t)
    /\ StronglySorted Z.lt (List.map (key_of i) (rows t)).

(** The state of the first pass: [tables] lists the columns of each table
    of the connection, and every table is in order. *)
Definition first_pass_ok (st : loader) : Prop :=
  (forall name, known st !! name = column_names <$> (tables (dbcon st) !! name))
  /\ (forall name t, tables (dbcon st) !! name = Some t -> table_ok t).

(** The row a record makes under given columns, and the records of one table
    in the order of the stream. *)
Definition record_row (names : list string) (r : xml_record) : list (option string) :=
  List.map (cell_of (rec_fields r)) names.

Definition records_of (name : string) (records : list xml_record) : list xml_record :=
  List.filter (fun r => String.eqb (rec_table r) name) records.

(** The table [t] would be, did it hold the rows of the records [recs] as
    they come.  It is in order when the table has no key, or when the records
    bring their keys as plain numerals in ascending order. *)
Definition as_recorded (t : table) (recs : list xml_record) : table :=
  {| columns := columns t; foreign_keys := foreign_keys t;
     rows := List.map (record_row (column_names t)) recs |}.

(** The tables of the first pass after the records [processed]: every
    processed record has its table, the sub-elements of a record are columns
    of its table, and a table whose records come in order holds their rows as
    they come. *)
Definition first_pass_rows (st : loader) (processed : list xml_record) : Prop :=
  (forall r, In r processed -> is_Some (tables (dbcon st) !! rec_table r))
  /\ forall name t, tables (dbcon st) !! name = Some t ->
       (forall r k, In r (records_of name processed) -> In k (List.map fst (rec_fields r)) ->
          In k (column_names t))
       /\ (table_ok (as_recorded t (records_of name processed)) ->
           rows t = List.map (record_row (column_names t)) (records_of name processed)).

(** The table the rebuild makes of a table [t0] of the first pass. *)
Definition rebuilt (name : string) (fks : list string) (t0 t : table) : Prop :=
  columns t = List.map (column_def name) (column_names t0)
  /\ foreign_keys t = fks
  /\ fold_result (insert_row (columns t)) (rows t0) [] = Ok (rows t).

(** The connection during the loop of rebuilds, [done] being the entries
    already rebuilt: a table of the connection is a table of the first pass,
    rebuilt when its entry is done and as it was otherwise. *)
Definition rebuilding (before : sqlite_db) (done : list (string * list string))
    (db : sqlite_db) : Prop :=
  forall name t, tables db !! name = Some t ->
    exists t0, tables before !! name = Some t0
      /\ match dict_get String.eqb name done with
         | Some fks => rebuilt name fks t0 t
         | None => t = t0
         end.

(** The index the loader creates on a candidate foreign key. *)
Definition forkey_index (fk : string * string) : index :=
  {| idx_name := index_name (fst fk) (snd fk); idx_table := fst fk; idx_columns := [snd fk] |}.

End PlexosDatabase.
Export PlexosDatabase.

(* ================================================================== *)
(** * [save]: the serializer *)
(* ================================================================== *)

Module Serializer.

(** What [save] writes, as a tree: the root element with its namespace, and
    one [t_<table>] element per row with one sub-element per field.  The
    bytes (indentation, line ends, escaping) are those of [etree] and are
    not modelled. *)
Record xml_element := {
  e_tag : string;
  e_children : list (string * string) }.

Record document := {
  root : string;
  xmlns : string;
  body : list xml_element }.

(** [SELECT name FROM sqlite_master WHERE type='table'] *)
Definition table_names (db : sqlite_db) : list string :=
  List.map fst (map_to_list (tables db)).

(** [sorted(tables)] *)
Definition sorted (names : list string) : list string := order_by String.leb names.

(** The position of a column in a table. *)
Fixpoint column_index (cols : list column) (name : string) : option nat :=
  match cols with
  | [] => None
  | c :: cols' =>
      if String.eqb (col_name c) name then Some 0%nat
      else option_map S (column_index cols' name)
  end.

(** [SELECT name, value FROM 'plexos_meta'], or [None] for [sql.Error]. *)
Definition select_meta (db : sqlite_db) : option (list (option string * option string)) :=
  match tables db !! META_TABLE with
  | None => None
  | Some t =>
      match column_index (columns t) "name", column_index (columns t) "value" with
      | Some i, Some j =>
          Some (List.map (fun r => (mjoin (r !! i), mjoin (r !! j))) (rows t))
      | _, _ => None
      end
  end.

(** The dictionary [plexos_meta]: the fallback values when the table cannot
    be read, else one entry per row, a later row winning. *)
Definition plexos_meta (db : sqlite_db) : gmap string (option string) :=
  match select_meta db with
  | None =>
      <["root_element" := Some "MasterDataSet"]>
        (<["namespace" := Some "http://tempuri.org/MasterDataSet.xsd"]> ∅)
  | Some meta_rows =>
      fold_left (fun d '(k, v) =>
        match k with
        | Some key => <[key := v]> d
        | None => d
        end) meta_rows ∅
  end.

(** ['%s' % v]: [None] prints as the word None. *)
Definition percent_s (v : option string) : string := default "None" v.

(** The element of one row:
<<
  ele = etree.Element('t_' + table_name)
  for (sube, val) in zip(row_keys, row):
      if val is None:
          continue
      attr_ele = etree.SubElement(ele, sube)
      attr_ele.text = val
>> *)
Definition add_field (kids : list (string * string)) (kv : string * option string)
  : list (string * string) :=
  match snd kv with
  | None => kids
  | Some val => kids ++ [(fst kv, val)]
  end.

Definition row_element (table_name : string) (row_keys : list string)
    (row : list (option string)) : xml_element :=
  {| e_tag := String.append "t_" table_name;
     e_children := fold_left add_field (combine row_keys row) [] |}.

(** The body of the loop over the sorted table names. *)
Definition save_table (db : sqlite_db) (out : list xml_element) (table_name : string)
  : list xml_element :=
  if String.eqb table_name META_TABLE then out
  else match tables db !! table_name with
       | None => out
       | Some t =>
           fold_left (fun out row =>
             out ++ [row_element table_name (List.map col_name (columns t)) row])
             (rows t) out
       end.

(** [save]; a [KeyError] when the metadata lacks one of the two keys. *)
Definition save (db : sqlite_db) : result document :=
  match plexos_meta db !! "root_element", plexos_meta db !! "namespace" with
  | Some r, Some ns =>
      Ok {| root := percent_s r; xmlns := percent_s ns;
            body := fold_left (save_table db) (sorted (table_names db)) [] |}
  | None, _ => Raise (KeyError "root_element")
  | _, None => Raise (KeyError "namespace")
  end.

(** ** What the output is, read off the store

    The fields of a row that are set, in column order, each with its text;
    the elements of a table, one per row in row order; the value the
    metadata holds for a key (that of the last row naming it). *)
Definition present_fields (row_keys : list string) (row : list (option string))
  : list (string * string) :=
  List.flat_map (fun kv : string * option string =>
    match snd kv with
    | Some val => [(fst kv, val)]
    | None => []
    end) (combine row_keys row).

Definition table_elements (db : sqlite_db) (table_name : string) : list xml_element :=
  match tables db !! table_name with
  | Some t =>
      List.map (fun row =>
        {| e_tag := String.append "t_" table_name;
           e_children := present_fields (List.map col_name (columns t)) row |}) (rows t)
  | None => []
  end.

Fixpoint last_meta (meta_rows : list (option string * option string)) (key : string)
  : option (option string) :=
  match meta_rows with
  | [] => None
  | (k, v) :: rest =>
      match last_meta rest key with
      | Some x => Some x
      | None =>
          match k with
          | Some k' => if String.eqb k' key then Some v else None
          | None => None
          end
      end
  end.

End Serializer.
Export Serializer.

(* ================================================================== *)
(** * The invariants of the data model *)
(* ================================================================== *)

Module Invariants.

Fixpoint nodup_ids (l : list Z) : bool :=
  match l with
  | [] => true
  | x :: l' => negb (existsb (Z.eqb x) l') && nodup_ids l'
  end.

(** Every listed data id is the id of a data row. *)
Definition references_data (db : database) (ids : list Z) : bool :=
  forallb (fun i => existsb (Z.eqb i) (List.map data_id (data_t db))) ids.

(** A store as the loader leaves it for a file with the usual tables: the
    data table has its [uid] column, the band, tag, text and config tables
    exist, [property_id] and [membership_id] are keys, band, tag and text
    rows belong to data rows (their declared foreign key), and every input
    mask is a mapping from raw codes to display values. *)
Definition well_formed (c : COAD) : bool :=
  has_table c "data" && has_table c "band" && has_table c "tag"
  && has_table c "text" && has_table c "config" && has_data_uid c
  && nodup_ids (List.map property_id (property_t (work c)))
  && nodup_ids (List.map membership_id (membership_t (work c)))
  && references_data (work c) (List.map b_data_id (band_t (work c)))
  && references_data (work c) (List.map t_data_id (tag_t (work c)))
  && references_data (work c) (List.map x_data_id (text_t (work c)))
  && forallb (fun p => mask_is_mapping (input_mask p)) (property_t (work c)).

(** The native case of [set_property] for an object, a property name and a
    tag: the tag names an object, the class of that object is one of the
    parent classes owning properties of the object's class, the name is one
    of those properties, and the object is a member of the tag object. *)
Record native (c : COAD) (self : ObjectDict) (name tag : string)
    (tag_obj : ObjectDict) (prop : property_row) (member : membership_row) : Prop := {
  native_tag : get_by_hierarchy (work c) tag = Ok tag_obj;
  native_owner : exists tag_cls self_cls by_name,
      get_class (work c) tag_obj = Ok tag_cls
      /\ get_class (work c) self = Ok self_cls
      /\ dict_get String.eqb (class_name (c_meta tag_cls))
            (valid_properties_by_name self_cls) = Some by_name
      /\ dict_get String.eqb name by_name = Some (property_id prop);
  native_property :
      fetchone (List.filter (fun p => Z.eqb (property_id p) (property_id prop))
                  (property_t (work c))) = Some prop;
  native_member :
      fetchone (List.filter
                  (fun m => Z.eqb (child_object_id m) (object_id (o_meta self))
                            && Z.eqb (parent_object_id m) (object_id (o_meta tag_obj)))
                  (membership_t (work c))) = Some member }.

(** What resolution reads of a property row: everything but the two flags
    [set_property] may switch on. *)
Definition core (p : property_row) : Z * Z * string * option string :=
  (property_id p, p_collection_id p, p_name p, input_mask p).

(** Two databases with the same classes, objects, collections and
    memberships, and the same properties up to their flags. *)
Definition same_schema (db1 db2 : database) : Prop :=
  class_t db1 = class_t db2
  /\ object_t db1 = object_t db2
  /\ collection_t db1 = collection_t db2
  /\ membership_t db1 = membership_t db2
  /\ List.map core (property_t db1) = List.map core (property_t db2).

(** The rows the insertion loop of [set_property] appends for the stored
    values [vs], when the largest data id and uid so far are [last_id] and
    [last_uid] and [band] values went before. *)
Fixpoint inserted_data (last_id last_uid mid pid : Z) (vs : list string) : list data_row :=
  match vs with
  | [] => []
  | v :: vs' =>
      {| data_id := last_id + 1; uid := Some (last_uid + 1); d_membership_id := mid;
         d_property_id := pid; d_value := v |}
      :: inserted_data (last_id + 1) (last_uid + 1) mid pid vs'
  end.

Fixpoint inserted_bands (last_id band : Z) (vs : list string) : list band_row :=
  match vs with
  | [] => []
  | _ :: vs' =>
      (if Z.ltb 1 (band + 1) then [{| b_data_id := last_id + 1; band_id := band + 1 |}] else [])
      ++ inserted_bands (last_id + 1) (band + 1) vs'
  end.

(** The handle after such an insertion: rows appended to [data] and [band]
    on the connection, nothing else touched. *)
Definition add_rows (ds : list data_row) (bs : list band_row) (c : COAD) : COAD :=
  {| table_list := table_list c; has_data_uid := has_data_uid c;
     hierarchy_cache := hierarchy_cache c;
     work := with_band_t (fun t => t ++ bs) (with_data_t (fun t => t ++ ds) (work c));
     durable := durable c |}.

(** A dictionary with its values mapped. *)
Definition map_vals {K V W} (f : V -> W) (d : list (K * V)) : list (K * W) :=
  List.map (fun kv => (fst kv, f (snd kv))) d.

(** [valid_properties] with every property row reduced to its core. *)
Definition erase (vp : list (string * list (Z * property_row)))
  : list (string * list (Z * (Z * Z * string * option string))) :=
  map_vals (map_vals core) vp.

(** Every entry of [valid_properties] is a row of the property table under
    its own id. *)
Definition vp_sound (db : database) (vp : list (string * list (Z * property_row))) : Prop :=
  forall pn inner k p, In (pn, inner) vp -> In (k, p) inner ->
    In p (property_t db) /\ property_id p = k.

(** Every entry of [valid_properties_by_name] names a row of the property
    table: its name and its id. *)
Definition bn_sound (db : database) (bn : list (string * list (string * Z))) : Prop :=
  forall pn names n k, In (pn, names) bn -> In (n, k) names ->
    exists p, In p (property_t db) /\ property_id p = k /\ p_name p = n.

(** The handle [c1] is [c] with, at most, flags of property rows changed on
    the connection. *)
Definition flags_only (c c1 : COAD) : Prop :=
  table_list c1 = table_list c
  /\ has_data_uid c1 = has_data_uid c
  /\ hierarchy_cache c1 = hierarchy_cache c
  /\ durable c1 = durable c
  /\ same_schema (work c1) (work c)
  /\ data_t (work c1) = data_t (work c)
  /\ band_t (work c1) = band_t (work c)
  /\ tag_t (work c1) = tag_t (work c)
  /\ text_t (work c1) = text_t (work c)
  /\ config_t (work c1) = config_t (work c).

(** The rows of [property_view] for the data rows of [inserted_data]: no
    tag, no text, and the band row of [inserted_bands] if there is one. *)
Fixpoint inserted_view (prop : property_row) (member : membership_row)
    (last_id band : Z) (vs : list string) : list view_row :=
  match vs with
  | [] => []
  | v :: vs' =>
      {| v_data_id := last_id + 1; v_value := v; v_name := p_name prop;
         v_input_mask := input_mask prop;
         v_child_object_id := child_object_id member;
         v_parent_object_id := parent_object_id member;
         v_tag_object_id := None; v_text_value := None;
         v_band_id := if Z.ltb 1 (band + 1) then Some (band + 1) else None |}
      :: inserted_view prop member (last_id + 1) (band + 1) vs'
  end.

(** A view row after [UPDATE data SET value=v WHERE data_id=did]. *)
Definition revalue (v : string) (did : Z) (r : view_row) : view_row :=
  if Z.eqb (v_data_id r) did then
    {| v_data_id := v_data_id r; v_value := v; v_name := v_name r;
       v_input_mask := v_input_mask r; v_child_object_id := v_child_object_id r;
       v_parent_object_id := v_parent_object_id r; v_tag_object_id := v_tag_object_id r;
       v_text_value := v_text_value r; v_band_id := v_band_id r |}
  else r.

(** The handle after an UPDATE of one data value and a commit. *)
Definition updated (v : string) (did : Z) (c : COAD) : COAD :=
  {| table_list := table_list c; has_data_uid := has_data_uid c;
     hierarchy_cache := hierarchy_cache c;
     work := with_data_t (update_value v did) (work c);
     durable := with_data_t (update_value v did) (work c) |}.

(** The handle after the element-wise overwrite of [set_property]: one
    UPDATE and one commit per (stored value, data id) pair, in order. *)
Definition overwritten (pairs : list (string * Z)) (c : COAD) : COAD :=
  fold_left (fun c kd => updated (fst kd) (snd kd) c) pairs c.

(** The data rows of a membership and property, each with its band row (or
    NULL): what [set_property] sorts by band. *)
Definition banded_data (db : database) (mid pid : Z) : list (Z * option Z) :=
  List.flat_map (fun d =>
    List.map (fun b => (data_id d, b))
      (left_outer band_id
         (List.filter (fun b => Z.eqb (b_data_id b) (data_id d)) (band_t db))))
    (List.filter
       (fun d => Z.eqb (d_membership_id d) mid && Z.eqb (d_property_id d) pid)
       (data_t db)).

Definition by_key (a b : Z * option Z) : bool := null_first_le (snd a) (snd b).

Definition result_rel {A B} (R : A -> B -> Prop) (r1 : result A) (r2 : result B) : Prop :=
  match r1, r2 with
  | Ok a, Ok b => R a b
  | Raise e1, Raise e2 => e1 = e2
  | _, _ => False
  end.

End Invariants.
Export Invariants.

(* ================================================================== *)
(** * What a loaded store holds *)
(* ================================================================== *)

Module Loaded.

(** The type the loader gives a column, read off its name. *)
Definition type_by_name (col : string) : affinity :=
  if endswith "_id" col || String.eqb col "uid" then INTEGER else TEXT.

(** A column as the loader writes it for a table [name]: in a CREATE TABLE
    or in an ALTER TABLE ADD COLUMN. *)
Definition declared (name : string) (c : column) : Prop :=
  c = column_def name (col_name c) \/ c = added_column (col_name c).

(** The columns of the first pass after the records [processed]: no column
    twice, each declared by the loader, each the sub-element of a record of
    the table. *)
Definition first_pass_columns (st : loader) (processed : list xml_record) : Prop :=
  forall name t, tables (dbcon st) !! name = Some t ->
    List.NoDup (column_names t)
    /\ Forall (declared name) (columns t)
    /\ forall c, In c (column_names t) ->
         exists r, In r processed /\ rec_table r = name /\ In c (List.map fst (rec_fields r)).

(** The element [save] writes for a record stored under the columns
    [names]: the sub-elements the record has, in column order, an empty
    element with the empty text. *)
Definition record_element (name : string) (names : list string) (r : xml_record) : xml_element :=
  {| e_tag := String.append "t_" name;
     e_children := present_fields names (record_row names r) |}.

(** No rebuilt table lends its temporary name to [name]. *)
Definition not_temporary (st : loader) (name : string) : Prop :=
  forall entry, In entry (forkeys_tables (known st) (forkeys st)) -> name <> todelete (fst entry).

End Loaded.
Export Loaded.

(* ================================================================== *)
(** * What the mutations leave behind *)
(* ================================================================== *)

Module Effects.

(** [DELETE FROM t WHERE data_id=?], once for each of [ids]. *)
Definition without {A} (ids : list Z) (key : A -> Z) (t : list A) : list A :=
  List.filter (fun x => negb (existsb (Z.eqb (key x)) ids)) t.

(** The store without the data rows [ids] and without their text, tag and
    band rows. *)
Definition purged (ids : list Z) (db : database) : database :=
  {| class_t := class_t db; object_t := object_t db; collection_t := collection_t db;
     membership_t := membership_t db; property_t := property_t db;
     data_t := without ids data_id (data_t db);
     band_t := without ids b_data_id (band_t db);
     tag_t := without ids t_data_id (tag_t db);
     text_t := without ids x_data_id (text_t db);
     config_t := config_t db |}.

(** The data ids [delete_property] selects. *)
Definition owned_data (db : database) (oid : Z) (name : string) (tid : Z) : list Z :=
  List.map v_data_id (List.filter (owned_by oid name tid) (property_view db)).

(** A view row of the property [name] of the object [oid], whoever owns
    it. *)
Definition of_property (oid : Z) (name : string) (r : view_row) : bool :=
  Z.eqb (v_child_object_id r) oid && String.eqb (v_name r) name.

(** The data ids of the property that carry a tag of the object [tid]. *)
Definition tagged_data (db : database) (oid : Z) (name : string) (tid : Z) : list Z :=
  List.map v_data_id
    (List.filter (fun r => of_property oid name r && sql_eq_opt (v_tag_object_id r) tid)
       (property_view db)).

(** The data row [d] is a value of the property [name] of the object
    [oid]: its property row has that name and its membership that child. *)
Definition carries (db : database) (oid : Z) (name : string) (d : data_row) : Prop :=
  exists p m,
    In p (property_t db) /\ property_id p = d_property_id d /\ p_name p = name
    /\ In m (membership_t db) /\ membership_id m = d_membership_id d
    /\ child_object_id m = oid.

(** The handle after [tag_property] appended the Tag rows [new]. *)
Definition tagged_with (new : list tag_row) (c : COAD) : COAD :=
  {| table_list := table_list c; has_data_uid := has_data_uid c;
     hierarchy_cache := hierarchy_cache c;
     work := with_tag_t (fun t => t ++ new) (work c);
     durable := with_tag_t (fun t => t ++ new) (work c) |}.

(** [DELETE FROM tag WHERE data_id=? AND object_id=?], once for each of
    [ids] with the object [tid]. *)
Definition untag_rows (ids : list Z) (tid : Z) (t : list tag_row) : list tag_row :=
  List.filter (fun t => negb (existsb (Z.eqb (t_data_id t)) ids
                              && Z.eqb (t_object_id t) tid)) t.

End Effects.
Export Effects.

(* ================================================================== *)
(** * Objects by id, and the categories of a class *)
(* ================================================================== *)

Module Outcome.

(** The methods below raise exceptions that the ones above never do.  What
    a call ends in is an [exn], the [ValueError] of a conversion or of an
    unpacking, or one of the methods' own messages. *)
Inductive failure :=
| Exn (e : exn)
| ValueError
| CategoryExists (name cls : string)
| NoCollection (parent child : Z)
| MultipleCollections (names : list (option string)).

Inductive outcome (A : Type) :=
| Return (a : A)
| Fail (f : failure).
Arguments Return {A} a.
Arguments Fail {A} f.

Definition of_result {A} (r : result A) : outcome A :=
  match r with
  | Ok a => Return a
  | Raise e => Fail (Exn e)
  end.

(** The key the engine gives a row inserted without one into a table with
    an INTEGER PRIMARY KEY whose keys are [keys], in ascending order. *)
Definition next_rowid (keys : list Z) : outcome Z :=
  match last keys with
  | None => Return 1
  | Some k =>
      if Z.ltb k (2 ^ 63 - 1) then Return (k + 1)
      else Fail (Exn (SqlError "database or disk is full"))
  end.

End Outcome.
Export Outcome.

Module Lookups.

(** [s.split(sep, 1)]: the text before the first separator and the text
    after it, or the whole text alone. *)
Fixpoint split_once (sep : ascii) (s : string) : string * option string :=
  match s with
  | EmptyString => (EmptyString, None)
  | String ch rest =>
      if Ascii.eqb ch sep then (EmptyString, Some rest)
      else let '(a, b) := split_once sep rest in (String ch a, b)
  end.

(** [COAD.get_by_object_id]:
<<
  (cname, oname) = self.get_hierarchy_for_object_id(object_id).split('.',1)
  retobj = self[cname][oname]
>> *)
Definition get_by_object_id (oid : Z) (c : COAD) : outcome ObjectDict * COAD :=
  match get_hierarchy_for_object_id oid c with
  | (Raise e, c') => (Fail (Exn e), c')
  | (Ok hier, c') =>
      match split_once dot hier with
      | (_, None) => (Fail ValueError, c')
      | (cname, Some oname) =>
          (of_result (try cls := COAD_getitem (work c') cname in
                      ClassDict_getitem (work c') cls oname), c')
      end
  end.

(** The text has no dot in it. *)
Fixpoint dotless (s : string) : bool :=
  match s with
  | EmptyString => true
  | String ch rest => negb (Ascii.eqb ch dot) && dotless rest
  end.

End Lookups.
Export Lookups.

Module Categories.

(** A row of the category table.  The loader declares [category_id] and
    [class_id] INTEGER and the other two columns TEXT; a rank is therefore
    read back as text, or as [None] when the record had none. *)
Record category_row := {
  category_id : Z;
  cat_class_id : Z;
  cat_rank : option string;
  cat_name : option string }.

(** The category table on the connection and in the file, and whether the
    file has such a table at all. *)
Record catalogue := {
  has_category : bool;
  cat_work : list category_row;
  cat_durable : list category_row }.

Definition no_category_table {A} : outcome A :=
  Fail (Exn (SqlError "no such table: category")).

(** [WHERE class_id=?] with the class of [self]. *)
Definition in_class (self : ClassDict) (r : category_row) : bool :=
  Z.eqb (cat_class_id r) (class_id (c_meta self)).

(** [name=?], which no NULL satisfies. *)
Definition named (name : string) (r : category_row) : bool :=
  match cat_name r with
  | Some n => String.eqb n name
  | None => false
  end.

(** [SELECT * FROM category WHERE class_id=?] *)
Definition class_categories (self : ClassDict) (h : catalogue) : list category_row :=
  List.filter (in_class self) (cat_work h).

(** [ClassDict.get_category_id]:
<<
  cur.execute("SELECT category_id FROM category WHERE class_id=? AND name=?", ...)
  return str(cur.fetchone()[0])
>> *)
Definition get_category_id (self : ClassDict) (category : string) (h : catalogue)
  : outcome string :=
  if negb (has_category h) then no_category_table
  else
    match fetchone (List.filter (fun r => in_class self r && named category r) (cat_work h)) with
    | None => Fail (Exn TypeError)
    | Some r => Return (str_of_Z (category_id r))
    end.

Section PythonInt.

(** [int(s)] for a text [s], [None] when Python raises [ValueError].  The
    conversion reads more than the numerals [str] writes (blanks around the
    number, a plus sign, underscores between digits), so it stays a
    parameter; the theorems ask of it only that it reads back what [str]
    wrote. *)
Variable int : string -> option Z.

(** [int(c['rank'])] *)
Definition rank_of (r : category_row) : outcome Z :=
  match cat_rank r with
  | None => Fail (Exn TypeError)
  | Some s =>
      match int s with
      | Some k => Return k
      | None => Fail ValueError
      end
  end.

(** The keys [sorted] computes, one for each row from first to last. *)
Fixpoint keyed (rows : list category_row) : outcome (list (Z * category_row)) :=
  match rows with
  | [] => Return []
  | r :: rest =>
      match rank_of r with
      | Fail f => Fail f
      | Return k =>
          match keyed rest with
          | Fail f => Fail f
          | Return ks => Return ((k, r) :: ks)
          end
      end
  end.

Definition by_rank (a b : Z * category_row) : bool := Z.leb (fst a) (fst b).

(** [ClassDict.get_categories]:
<<
  cur.execute("SELECT * FROM category WHERE class_id=?", [self.meta['class_id']])
  ...
  categories = sorted(unsorted_cats, key=lambda c: int(c['rank']))
>> *)
Definition get_categories (self : ClassDict) (h : catalogue) : outcome (list category_row) :=
  if negb (has_category h) then no_category_table
  else
    match keyed (class_categories self h) with
    | Fail f => Fail f
    | Return ks => Return (List.map snd (order_by by_rank ks))
    end.

(** The loop of [add_category]:
<<
  lastrank = -1
  for row in cur.fetchall():
      cat = dict(zip([d[0] for d in cur.description], row))
      lastrank = max(int(cat['rank']), lastrank)
      if cat['name'] == 'name':
          raise Exception("Category %s already exists in %s"%(name, self.meta['name']))
>>
    The test compares the name of the row with the text [name], not with
    the argument. *)
Fixpoint last_rank (self : ClassDict) (name : string) (rows : list category_row)
    (lastrank : Z) : outcome Z :=
  match rows with
  | [] => Return lastrank
  | cat :: rest =>
      match rank_of cat with
      | Fail f => Fail f
      | Return k =>
          if named "name" cat
          then Fail (CategoryExists name (class_name (c_meta self)))
          else last_rank self name rest (Z.max k lastrank)
      end
  end.

(** The row [add_category] inserts. *)
Definition new_category (self : ClassDict) (name : string) (key lastrank : Z) : category_row :=
  {| category_id := key;
     cat_class_id := class_id (c_meta self);
     cat_rank := Some (str_of_Z (lastrank + 1));
     cat_name := Some name |}.

(** The catalogue after the row was inserted and the connection committed. *)
Definition with_category (row : category_row) (h : catalogue) : catalogue :=
  {| has_category := has_category h;
     cat_work := cat_work h ++ [row];
     cat_durable := cat_work h ++ [row] |}.

(** [ClassDict.add_category] *)
Definition add_category (self : ClassDict) (name : string) (h : catalogue)
  : outcome string * catalogue :=
  if negb (has_category h) then (no_category_table, h)
  else
    match last_rank self name (class_categories self h) (-1) with
    | Fail f => (Fail f, h)
    | Return lastrank =>
        match next_rowid (List.map category_id (cat_work h)) with
        | Fail f => (Fail f, h)
        | Return key =>
            let h' := with_category (new_category self name key lastrank) h in
            (get_category_id self name h', h')
        end
    end.

End PythonInt.

(** The largest of the ranks [ks] and of -1. *)
Definition top_rank (ks : list Z) : Z := fold_left (fun acc k => Z.max k acc) ks (-1).

(** Every row has a rank that [int] reads, and [ks] are the ranks. *)
Definition ranked (int : string -> option Z) (rows : list category_row) (ks : list Z) : Prop :=
  Forall2 (fun r k => rank_of int r = Return k) rows ks.

End Categories.
Export Categories.

(* ================================================================== *)
(** * Memberships: the children of an object *)
(* ================================================================== *)

Module Family.

(** The collection and membership tables with the columns the methods of
    this part read and write; all of them but the name of a collection are
    declared INTEGER by the loader. *)
Record named_collection := {
  nc_collection_id : Z;
  nc_parent_class_id : Z;
  nc_child_class_id : Z;
  nc_name : option string }.

Record member := {
  m_membership_id : Z;
  m_parent_class_id : Z;
  m_parent_object_id : Z;
  m_collection_id : Z;
  m_child_class_id : Z;
  m_child_object_id : Z }.

(** The tables behind [set_children] and [get_children].  Only the
    membership table is written: [fam_membership] is what the connection
    sees and [fam_saved] what has been committed. *)
Record family := {
  fam_class : list class_row;
  fam_object : list object_row;
  fam_property : list property_row;
  fam_collection : list named_collection;
  fam_membership : list member;
  fam_saved : list member }.

(** The same tables as the lookups of [Coad] read them, which use the
    class, object, collection and property tables and fewer columns. *)
Definition store_of (f : family) : database :=
  {| class_t := fam_class f;
     object_t := fam_object f;
     collection_t := List.map (fun c =>
       {| collection_id := nc_collection_id c;
          parent_class_id := nc_parent_class_id c;
          child_class_id := nc_child_class_id c |}) (fam_collection f);
     membership_t := List.map (fun m =>
       {| membership_id := m_membership_id m;
          parent_object_id := m_parent_object_id m;
          child_object_id := m_child_object_id m |}) (fam_membership f);
     property_t := fam_property f;
     data_t := []; band_t := []; tag_t := []; text_t := []; config_t := [] |}.

(** [row[1] == name], where either side may be [None]. *)
Definition same_name (a b : option string) : bool :=
  match a, b with
  | Some x, Some y => String.eqb x y
  | None, None => true
  | _, _ => false
  end.

(** [ObjectDict.get_collection_id]:
<<
  cmd = '''SELECT collection_id, name FROM collection WHERE parent_class_id=?
           AND child_class_id=?'''
  cur.execute(cmd, [self.meta['class_id'], child_class_id])
  rows = cur.fetchall()
  if len(rows) == 0:
      raise Exception(msg%(self.meta['class_id'], child_class_id))
  elif len(rows) > 1:
      namelist = []
      for row in rows:
          if row[1] == name:
              return row[0]
          namelist.append(row[1])
      raise Exception("Multiple collections available ...")
  return rows[0][0]
>> *)
Definition get_collection_id (f : family) (self : ObjectDict) (child : Z)
    (name : option string) : outcome Z :=
  let rows := List.filter
    (fun c => Z.eqb (nc_parent_class_id c) (o_class_id (o_meta self))
              && Z.eqb (nc_child_class_id c) child) (fam_collection f) in
  match rows with
  | [] => Fail (NoCollection (o_class_id (o_meta self)) child)
  | [row] => Return (nc_collection_id row)
  | _ =>
      match List.find (fun row => same_name (nc_name row) name) rows with
      | Some row => Return (nc_collection_id row)
      | None => Fail (MultipleCollections (List.map nc_name rows))
      end
  end.

(** The first loop of [set_children], over a list of objects:
<<
  class_id = obj.get_class().meta['class_id']
  if class_id not in children_by_class.keys():
      children_by_class[class_id] = [obj]
  else:
      children_by_class[class_id].append(obj)
>>
    A single [ObjectDict] passed for the list is grouped the way the list of
    that one object is. *)
Definition add_child (acc : list (Z * list ObjectDict)) (cid : Z) (obj : ObjectDict)
  : list (Z * list ObjectDict) :=
  match dict_get Z.eqb cid acc with
  | None => dict_set Z.eqb cid [obj] acc
  | Some l => dict_set Z.eqb cid (l ++ [obj]) acc
  end.

Fixpoint children_by_class (db : database) (children : list ObjectDict)
    (acc : list (Z * list ObjectDict)) : result (list (Z * list ObjectDict)) :=
  match children with
  | [] => Ok acc
  | obj :: rest =>
      try cls := get_class db obj in
      children_by_class db rest (add_child acc (class_id (c_meta cls)) obj)
  end.

(** [DELETE FROM membership WHERE parent_object_id=? AND child_class_id=?] *)
Definition delete_class (self : ObjectDict) (cid : Z) (t : list member) : list member :=
  List.filter (fun m => negb (Z.eqb (m_parent_object_id m) (object_id (o_meta self))
                              && Z.eqb (m_child_class_id m) cid)) t.

(** [DELETE FROM membership WHERE parent_object_id=? AND child_object_id=?] *)
Definition delete_child (self : ObjectDict) (oid : Z) (t : list member) : list member :=
  List.filter (fun m => negb (Z.eqb (m_parent_object_id m) (object_id (o_meta self))
                              && Z.eqb (m_child_object_id m) oid)) t.

(** The row inserted for a child. *)
Definition membership_of (self : ObjectDict) (cid col key : Z) (obj : ObjectDict) : member :=
  {| m_membership_id := key;
     m_parent_class_id := o_class_id (o_meta self);
     m_parent_object_id := object_id (o_meta self);
     m_collection_id := col;
     m_child_class_id := cid;
     m_child_object_id := object_id (o_meta obj) |}.

(** The loop over the objects of one class: each is deleted as a child of
    [self], then inserted.  The table comes back with the outcome, so that
    what a failing call leaves on the connection is visible. *)
Fixpoint insert_children (self : ObjectDict) (cid col : Z) (objs : list ObjectDict)
    (t : list member) : outcome unit * list member :=
  match objs with
  | [] => (Return tt, t)
  | obj :: rest =>
      let t1 := delete_child self (object_id (o_meta obj)) t in
      match next_rowid (List.map m_membership_id t1) with
      | Fail e => (Fail e, t1)
      | Return key =>
          insert_children self cid col rest (t1 ++ [membership_of self cid col key obj])
      end
  end.

(** The loop over [children_by_class.items()]. *)
Fixpoint set_classes (f : family) (self : ObjectDict) (replace : bool)
    (name : option string) (groups : list (Z * list ObjectDict)) (t : list member)
  : outcome unit * list member :=
  match groups with
  | [] => (Return tt, t)
  | (cid, objs) :: rest =>
      let t1 := if replace then delete_class self cid t else t in
      match get_collection_id f self cid name with
      | Fail e => (Fail e, t1)
      | Return col =>
          match insert_children self cid col objs t1 with
          | (Fail e, t2) => (Fail e, t2)
          | (Return _, t2) => set_classes f self replace name rest t2
          end
      end
  end.

Definition on_connection (t : list member) (f : family) : family :=
  {| fam_class := fam_class f; fam_object := fam_object f; fam_property := fam_property f;
     fam_collection := fam_collection f; fam_membership := t; fam_saved := fam_saved f |}.

Definition committed (t : list member) (f : family) : family :=
  {| fam_class := fam_class f; fam_object := fam_object f; fam_property := fam_property f;
     fam_collection := fam_collection f; fam_membership := t; fam_saved := t |}.

(** [ObjectDict.set_children] *)
Definition set_children (self : ObjectDict) (children : list ObjectDict) (replace : bool)
    (name : option string) (f : family) : outcome unit * family :=
  match children_by_class (store_of f) children [] with
  | Raise e => (Fail (Exn e), f)
  | Ok groups =>
      match set_classes f self replace name groups (fam_membership f) with
      | (Fail e, t) => (Fail e, on_connection t f)
      | (Return _, t) => (Return tt, committed t f)
      end
  end.

(** The rows of [get_children]:
<<
  SELECT c.name AS class_name,o.name AS object_name
  FROM membership
  INNER JOIN class c ON c.class_id=child_class_id
  INNER JOIN object o ON o.object_id=child_object_id
  WHERE parent_object_id=?
>>
    and, when a class name is given, [and c.name=?]. *)
Definition child_rows (f : family) (self : ObjectDict) (cname : option string)
  : list (string * string) :=
  let rows :=
    List.flat_map (fun m =>
      List.flat_map (fun c =>
        List.map (fun o => (class_name c, o_name o))
          (List.filter (fun o => Z.eqb (object_id o) (m_child_object_id m)) (fam_object f)))
        (List.filter (fun c => Z.eqb (class_id c) (m_child_class_id m)) (fam_class f)))
      (List.filter (fun m => Z.eqb (m_parent_object_id m) (object_id (o_meta self)))
         (fam_membership f)) in
  match cname with
  | None => rows
  | Some n => List.filter (fun r => String.eqb (fst r) n) rows
  end.

(** [ObjectDict.get_children]: each row is looked up by its two names,
    [self.coad[row[0]][row[1]]]. *)
Definition get_children (f : family) (self : ObjectDict) (cname : option string)
  : result (list ObjectDict) :=
  map_result (fun r =>
      try cls := COAD_getitem (store_of f) (fst r) in
      ClassDict_getitem (store_of f) cls (snd r))
    (child_rows f self cname).

(** The ids of the objects passed, and of the objects of every group. *)
Definition object_ids (objs : list ObjectDict) : list Z :=
  List.map (fun o => object_id (o_meta o)) objs.

Definition group_ids (groups : list (Z * list ObjectDict)) : list Z :=
  List.flat_map (fun g => object_ids (snd g)) groups.

(** The membership row [m] is one that [set_children] leaves alone: it has
    another parent, or its child is none of [ids] and, when the call
    replaces, its child class none of [cids]. *)
Definition untouched (self : ObjectDict) (replace : bool) (cids ids : list Z) (m : member)
  : bool :=
  negb (Z.eqb (m_parent_object_id m) (object_id (o_meta self))
        && ((replace && existsb (Z.eqb (m_child_class_id m)) cids)
            || existsb (Z.eqb (m_child_object_id m)) ids)).

End Family.
Export Family.

(* ================================================================== *)
(** * A small store used by the examples *)
(* ================================================================== *)

Module Fixture.

(** The mask [0;"Off";1;"On"], quotes included. *)
Definition q : string := String dquote EmptyString.

Definition on_off_mask : string :=
  String.concat EmptyString ["0;"; q; "Off"; q; ";1;"; q; "On"; q].

Definition demo_db : database :=
  {| class_t := [ {| class_id := 1; class_name := "System" |};
                  {| class_id := 2; class_name := "Generator" |};
                  {| class_id := 3; class_name := "Scenario" |} ];
     object_t := [ {| object_id := 1; o_class_id := 1; o_name := "System" |};
                   {| object_id := 2; o_class_id := 2; o_name := "G1" |};
                   {| object_id := 3; o_class_id := 3; o_name := "S1" |} ];
     collection_t := [ {| collection_id := 1; parent_class_id := 1; child_class_id := 2 |};
                       {| collection_id := 2; parent_class_id := 1; child_class_id := 3 |} ];
     membership_t := [ {| membership_id := 1; parent_object_id := 1; child_object_id := 2 |};
                       {| membership_id := 2; parent_object_id := 1; child_object_id := 3 |} ];
     property_t := [ {| property_id := 1; p_collection_id := 1; p_name := "Max Capacity";
                        input_mask := Some EmptyString;
                        is_dynamic := "false"; is_enabled := "true" |};
                     {| property_id := 2; p_collection_id := 1; p_name := "Status";
                        input_mask := Some on_off_mask;
                        is_dynamic := "false"; is_enabled := "true" |};
                     {| property_id := 3; p_collection_id := 1; p_name := "Rating";
                        input_mask := None;
                        is_dynamic := "false"; is_enabled := "false" |} ];
     data_t := [ {| data_id := 1; uid := Some 101; d_membership_id := 1;
                    d_property_id := 2; d_value := "0" |};
                 {| data_id := 2; uid := Some 102; d_membership_id := 1;
                    d_property_id := 3; d_value := "5" |};
                 {| data_id := 3; uid := Some 103; d_membership_id := 1;
                    d_property_id := 3; d_value := "7" |} ];
     band_t := [ {| b_data_id := 3; band_id := 2 |} ];
     tag_t := [ {| t_data_id := 3; t_object_id := 3 |} ];
     text_t := [];
     config_t := [ {| element := "Dynamic"; c_value := "0" |} ] |}.

Definition demo : COAD :=
  {| table_list := ["class"; "object"; "collection"; "membership"; "property";
                    "data"; "band"; "tag"; "text"; "config"];
     has_data_uid := true;
     hierarchy_cache := ∅;
     work := demo_db;
     durable := demo_db |}.

Definition G1 : ObjectDict := {| o_meta := {| object_id := 2; o_class_id := 2; o_name := "G1" |} |}.

Definition System_obj : ObjectDict :=
  {| o_meta := {| object_id := 1; o_class_id := 1; o_name := "System" |} |}.

Definition Max_Capacity : property_row :=
  {| property_id := 1; p_collection_id := 1; p_name := "Max Capacity";
     input_mask := Some EmptyString; is_dynamic := "false"; is_enabled := "true" |}.

Definition Status : property_row :=
  {| property_id := 2; p_collection_id := 1; p_name := "Status";
     input_mask := Some on_off_mask; is_dynamic := "false"; is_enabled := "true" |}.

Definition Rating : property_row :=
  {| property_id := 3; p_collection_id := 1; p_name := "Rating";
     input_mask := None; is_dynamic := "false"; is_enabled := "false" |}.

Definition G1_in_System : membership_row :=
  {| membership_id := 1; parent_object_id := 1; child_object_id := 2 |}.

(** A store for a file that had no data records: no data, band, tag or
    text table. *)
Definition bare_db : database :=
  {| class_t := class_t demo_db; object_t := object_t demo_db;
     collection_t := collection_t demo_db; membership_t := membership_t demo_db;
     property_t := property_t demo_db;
     data_t := []; band_t := []; tag_t := []; text_t := [];
     config_t := config_t demo_db |}.

Definition bare : COAD :=
  {| table_list := ["class"; "object"; "collection"; "membership"; "property"; "config"];
     has_data_uid := false;
     hierarchy_cache := ∅;
     work := bare_db;
     durable := bare_db |}.

(** A record stream whose first object comes without its id: the table is
    created without the column, which the second object adds. *)
Definition late_key_records : list xml_record :=
  [ {| rec_table := "class";
       rec_fields := [("class_id", Some "1"); ("name", Some "System")] |};
    {| rec_table := "object";
       rec_fields := [("name", Some "A"); ("class_id", Some "1")] |};
    {| rec_table := "object";
       rec_fields := [("name", Some "B"); ("class_id", Some "1"); ("object_id", Some "5")] |};
    {| rec_table := "object";
       rec_fields := [("name", Some "C"); ("class_id", Some "1"); ("object_id", Some "3")] |} ].

(** A small record stream: two classes, two objects, one of them without a
    category and with an empty description. *)
Definition demo_records : list xml_record :=
  [ {| rec_table := "class";
       rec_fields := [("class_id", Some "1"); ("name", Some "System")] |};
    {| rec_table := "object";
       rec_fields := [("object_id", Some "1"); ("class_id", Some "1");
                      ("name", Some "System"); ("description", None)] |};
    {| rec_table := "class";
       rec_fields := [("class_id", Some "2"); ("name", Some "Generator");
                      ("lang_id", Some "7")] |};
    {| rec_table := "object";
       rec_fields := [("object_id", Some "2"); ("class_id", Some "2");
                      ("name", Some "G1"); ("category_id", Some "5")] |} ].

Definition demo_namespace : option string := Some "http://tempuri.org/MasterDataSet.xsd".

Definition demo_root : option string := Some "MasterDataSet".

(** The store [load] makes of that stream. *)
Definition demo_store : sqlite_db :=
  match load demo_namespace demo_root demo_records with
  | Ok db => db
  | Raise _ => empty_db
  end.

(** The state of the first pass over that stream. *)
Definition demo_pass : loader :=
  match first_pass demo_records with
  | Ok st => st
  | Raise _ => {| dbcon := empty_db; known := ∅; forkeys := [] |}
  end.

(** The first pass and the whole of [load] over the stream whose first
    object has no id. *)
Definition late_key_pass : loader :=
  match first_pass late_key_records with
  | Ok st => st
  | Raise _ => {| dbcon := empty_db; known := ∅; forkeys := [] |}
  end.

Definition late_key_store : sqlite_db :=
  match load demo_namespace demo_root late_key_records with
  | Ok db => db
  | Raise _ => empty_db
  end.

(** What [save] writes for it. *)
Definition demo_doc : document :=
  {| root := "MasterDataSet";
     xmlns := "http://tempuri.org/MasterDataSet.xsd";
     body :=
       [ {| e_tag := "t_class"; e_children := [("class_id", "1"); ("name", "System")] |};
         {| e_tag := "t_class";
            e_children := [("class_id", "2"); ("name", "Generator"); ("lang_id", "7")] |};
         {| e_tag := "t_object";
            e_children := [("object_id", "1"); ("class_id", "1"); ("name", "System");
                           ("description", EmptyString)] |};
         {| e_tag := "t_object";
            e_children := [("object_id", "2"); ("class_id", "2"); ("name", "G1");
                           ("category_id", "5")] |} ] |}.

(** A store with categories: the classes System (1), Generator (2) and
    Fuel (3). *)
Definition Generator_cls : ClassDict :=
  {| c_meta := {| class_id := 2; class_name := "Generator" |};
     valid_properties := []; valid_properties_by_name := [] |}.

Definition Fuel_cls : ClassDict :=
  {| c_meta := {| class_id := 3; class_name := "Fuel" |};
     valid_properties := []; valid_properties_by_name := [] |}.

Definition category_rows : list category_row :=
  [ {| category_id := 1; cat_class_id := 1; cat_rank := Some "0"; cat_name := Some "-" |};
    {| category_id := 2; cat_class_id := 2; cat_rank := Some "3"; cat_name := Some "Thermal" |};
    {| category_id := 3; cat_class_id := 2; cat_rank := Some "1"; cat_name := Some "Hydro" |};
    {| category_id := 7; cat_class_id := 3; cat_rank := Some "12"; cat_name := Some "-" |} ].

Definition catalog : catalogue :=
  {| has_category := true; cat_work := category_rows; cat_durable := category_rows |}.

(** Decimal numerals with an optional minus sign, read as [int] reads
    them. *)
Definition int_decimal (s : string) : option Z :=
  Z.of_int <$> NilZero.int_of_string s.

(** A store with memberships: the objects System (1), the generators G1
    (2) and G2 (3) and the fuels Coal (4) and Gas (5); a generator has two
    collections of fuels. *)
Definition kin : family :=
  {| fam_class := [ {| class_id := 1; class_name := "System" |};
                    {| class_id := 2; class_name := "Generator" |};
                    {| class_id := 3; class_name := "Fuel" |} ];
     fam_object := [ {| object_id := 1; o_class_id := 1; o_name := "System" |};
                     {| object_id := 2; o_class_id := 2; o_name := "G1" |};
                     {| object_id := 3; o_class_id := 2; o_name := "G2" |};
                     {| object_id := 4; o_class_id := 3; o_name := "Coal" |};
                     {| object_id := 5; o_class_id := 3; o_name := "Gas" |} ];
     fam_property := [];
     fam_collection :=
       [ {| nc_collection_id := 1; nc_parent_class_id := 1; nc_child_class_id := 2;
            nc_name := Some "Generators" |};
         {| nc_collection_id := 2; nc_parent_class_id := 1; nc_child_class_id := 3;
            nc_name := Some "Fuels" |};
         {| nc_collection_id := 3; nc_parent_class_id := 2; nc_child_class_id := 3;
            nc_name := Some "Fuels" |};
         {| nc_collection_id := 4; nc_parent_class_id := 2; nc_child_class_id := 3;
            nc_name := Some "Start Fuels" |} ];
     fam_membership :=
       [ {| m_membership_id := 1; m_parent_class_id := 1; m_parent_object_id := 1;
            m_collection_id := 1; m_child_class_id := 2; m_child_object_id := 2 |};
         {| m_membership_id := 2; m_parent_class_id := 1; m_parent_object_id := 1;
            m_collection_id := 1; m_child_class_id := 2; m_child_object_id := 3 |};
         {| m_membership_id := 3; m_parent_class_id := 1; m_parent_object_id := 1;
            m_collection_id := 2; m_child_class_id := 3; m_child_object_id := 4 |};
         {| m_membership_id := 9; m_parent_class_id := 2; m_parent_object_id := 2;
            m_collection_id := 3; m_child_class_id := 3; m_child_object_id := 4 |} ];
     fam_saved :=
       [ {| m_membership_id := 1; m_parent_class_id := 1; m_parent_object_id := 1;
            m_collection_id := 1; m_child_class_id := 2; m_child_object_id := 2 |};
         {| m_membership_id := 2; m_parent_class_id := 1; m_parent_object_id := 1;
            m_collection_id := 1; m_child_class_id := 2; m_child_object_id := 3 |};
         {| m_membership_id := 3; m_parent_class_id := 1; m_parent_object_id := 1;
            m_collection_id := 2; m_child_class_id := 3; m_child_object_id := 4 |};
         {| m_membership_id := 9; m_parent_class_id := 2; m_parent_object_id := 2;
            m_collection_id := 3; m_child_class_id := 3; m_child_object_id := 4 |} ] |}.

Definition G2 : ObjectDict := {| o_meta := {| object_id := 3; o_class_id := 2; o_name := "G2" |} |}.

Definition Coal : ObjectDict := {| o_meta := {| object_id := 4; o_class_id := 3; o_name := "Coal" |} |}.

Definition Gas : ObjectDict := {| o_meta := {| object_id := 5; o_class_id := 3; o_name := "Gas" |} |}.

End Fixture.

(* ================================================================== *)
(** * Facts about the Python primitives *)
(* ================================================================== *)

Section OrderByFacts.
Context {A : Type} (le : A -> A -> bool).

Lemma insert_by_perm (x : A) (l : list A) : Permutation (insert_by le x l) (x :: l).
Proof.
  induction l as [|y l IH]; simpl; [reflexivity|].
  destruct (le x y); [reflexivity|].
  rewrite IH. apply perm_swap.
Qed.

Lemma order_by_perm (l : list A) : Permutation (order_by le l) l.
Proof.
  induction l as [|x l IH]; simpl; [reflexivity|].
  rewrite insert_by_perm. now apply perm_skip.
Qed.

Lemma order_by_length (l : list A) : List.length (order_by le l) = List.length l.
Proof. apply Permutation_length, order_by_perm. Qed.

Lemma order_by_nil (l : list A) : order_by le l = [] -> l = [].
Proof.
  intros H. apply Permutation_nil. rewrite <- H. apply order_by_perm.
Qed.

(** A list already in order is left as it is. *)
Lemma order_by_sorted_id (l : list A) :
  StronglySorted (fun a b => le a b = true) l -> order_by le l = l.
Proof.
  induction 1 as [|x l Hs IH Hx]; simpl; [reflexivity|].
  rewrite IH. destruct Hx as [|y l' Hy _]; simpl; [reflexivity|].
  now rewrite Hy.
Qed.

Hypothesis le_total : forall a b, le a b = true \/ le b a = true.
Hypothesis le_trans : forall a b c, le a b = true -> le b c = true -> le a c = true.

Lemma insert_by_sorted (x : A) (l : list A) :
  StronglySorted (fun a b => le a b = true) l ->
  StronglySorted (fun a b => le a b = true) (insert_by le x l).
Proof.
  induction 1 as [|y l Hs IH Hy]; simpl.
  - repeat constructor.
  - destruct (le x y) eqn:Hxy.
    + constructor; [now constructor|].
      constructor; [exact Hxy|].
      eapply Forall_impl; [exact Hy|]. intros z Hz. simpl in *. eauto.
    + constructor; [exact IH|].
      eapply Permutation_Forall; [symmetry; apply insert_by_perm|].
      constructor; [|exact Hy].
      destruct (le_total x y) as [H|H]; congruence.
Qed.

Lemma order_by_sorted (l : list A) :
  StronglySorted (fun a b => le a b = true) (order_by le l).
Proof.
  induction l as [|x l IH]; simpl; [constructor|]. now apply insert_by_sorted.
Qed.

End OrderByFacts.

Lemma null_first_total (a b : option Z) :
  null_first_le a b = true \/ null_first_le b a = true.
Proof. destruct a, b; simpl; auto. destruct (Z.leb_spec z z0); [auto|right; apply Z.leb_le; lia]. Qed.

Lemma null_first_trans (a b c : option Z) :
  null_first_le a b = true -> null_first_le b c = true -> null_first_le a c = true.
Proof.
  destruct a, b, c; simpl; try congruence.
  rewrite !Z.leb_le. lia.
Qed.

Section DictFacts.
Context {K V : Type} (keyb : K -> K -> bool).
Hypothesis keyb_eq : forall a b, keyb a b = true <-> a = b.

Lemma dict_get_In (k : K) (v : V) (d : list (K * V)) :
  dict_get keyb k d = Some v -> In (k, v) d.
Proof.
  induction d as [|[k' v'] d IH]; simpl; [discriminate|].
  destruct (keyb k k') eqn:E.
  - intros [= <-]. apply keyb_eq in E. subst. now left.
  - intros H. right. auto.
Qed.

Lemma dict_set_In (k : K) (v : V) (d : list (K * V)) (x : K * V) :
  In x (dict_set keyb k v d) -> x = (k, v) \/ In x d.
Proof.
  induction d as [|[k' v'] d IH]; simpl.
  - intros [<-|[]]. now left.
  - destruct (keyb k k'); simpl.
    + intros [<-|H]; auto.
    + intros [<-|H]; auto. destruct (IH H); auto.
Qed.

Lemma dict_get_set_same (k : K) (v : V) (d : list (K * V)) :
  dict_get keyb k (dict_set keyb k v d) = Some v.
Proof.
  assert (Hk : keyb k k = true) by now apply keyb_eq.
  induction d as [|[k' v'] d IH]; simpl.
  - now rewrite Hk.
  - destruct (keyb k k') eqn:E; simpl; [now rewrite Hk|]. now rewrite E.
Qed.

Lemma dict_get_set_other (k k0 : K) (v : V) (d : list (K * V)) :
  keyb k0 k = false ->
  dict_get keyb k0 (dict_set keyb k v d) = dict_get keyb k0 d.
Proof.
  intros Hne.
  induction d as [|[k' v'] d IH]; simpl.
  - now rewrite Hne.
  - destruct (keyb k k') eqn:E; simpl.
    + apply keyb_eq in E. subst. now rewrite Hne.
    + now rewrite IH.
Qed.

End DictFacts.

Lemma String_eqb_iff (a b : string) : String.eqb a b = true <-> a = b.
Proof. apply String.eqb_eq. Qed.

Lemma Z_eqb_iff (a b : Z) : Z.eqb a b = true <-> a = b.
Proof. apply Z.eqb_eq. Qed.

Lemma existsb_Zeqb_In (x : Z) (l : list Z) : existsb (Z.eqb x) l = true <-> In x l.
Proof.
  rewrite existsb_exists. split.
  - intros (y & Hy & E). apply Z.eqb_eq in E. now subst.
  - intros H. exists x. split; [exact H|apply Z.eqb_refl].
Qed.

Lemma existsb_Seqb_In (x : string) (l : list string) :
  existsb (String.eqb x) l = true <-> In x l.
Proof.
  rewrite existsb_exists. split.
  - intros (y & Hy & E). apply String.eqb_eq in E. now subst.
  - intros H. exists x. split; [exact H|apply String.eqb_refl].
Qed.

Lemma nodup_ids_NoDup (l : list Z) : nodup_ids l = true -> List.NoDup l.
Proof.
  induction l as [|x l IH]; simpl; [constructor|].
  rewrite andb_true_iff, negb_true_iff. intros [Hx Hl].
  apply List.NoDup_cons_iff. split; [|auto].
  intros Hin. apply existsb_Zeqb_In in Hin. congruence.
Qed.

Lemma nodup_names_NoDup (l : list string) : nodup_names l = true -> List.NoDup l.
Proof.
  induction l as [|x l IH]; simpl; [constructor|].
  rewrite andb_true_iff, negb_true_iff. intros [Hx Hl].
  apply List.NoDup_cons_iff. split; [|auto].
  intros Hin. apply existsb_Seqb_In in Hin. congruence.
Qed.

(** A key column: filtering on a key value of a row yields that row alone. *)
Lemma filter_key {A : Type} (key : A -> Z) (l : list A) (x : A) :
  List.NoDup (List.map key l) -> In x l ->
  List.filter (fun y => Z.eqb (key y) (key x)) l = [x].
Proof.
  induction l as [|y l IH]; simpl; [tauto|].
  intros Hnd Hin. apply List.NoDup_cons_iff in Hnd as [Hy Hnd].
  destruct Hin as [->|Hin].
  - rewrite Z.eqb_refl. f_equal.
    clear IH. induction l as [|z l IHl]; simpl; [reflexivity|].
    destruct (Z.eqb_spec (key z) (key x)) as [E|E].
    + exfalso. apply Hy. simpl. now left.
    + apply IHl.
      * intros H. apply Hy. now right.
      * now apply List.NoDup_cons_iff in Hnd.
  - destruct (Z.eqb_spec (key y) (key x)) as [E|E].
    + exfalso. apply Hy. rewrite E. now apply in_map.
    + now apply IH.
Qed.

(* ================================================================== *)
(** * Input masks: the dictionary and the scan agree with the pairs *)
(* ================================================================== *)

(** Induction two tokens at a time, the way both loops consume the mask. *)
Lemma pair_ind (P : list string -> Prop) :
  P [] -> (forall k, P [k]) -> (forall k v rest, P rest -> P (k :: v :: rest)) ->
  forall l, P l.
Proof.
  intros H0 H1 H2.
  fix IH 1. intros [|k [|v rest]]; [exact H0|apply H1|apply H2, IH].
Qed.

Lemma dict_get_app_last (k0 k v : string) (l : list (string * string)) :
  dict_get String.eqb k0 (l ++ [(k, v)]) =
  match dict_get String.eqb k0 l with
  | Some x => Some x
  | None => if String.eqb k0 k then Some v else None
  end.
Proof.
  induction l as [|[k' v'] l IH]; simpl; [reflexivity|].
  destruct (String.eqb k0 k'); [reflexivity|exact IH].
Qed.

Lemma build_valdict_spec (tokens : list string) :
  Nat.even (List.length tokens) = true ->
  forall d0 : gmap string string, exists d,
    build_valdict tokens d0 = Ok d
    /\ forall k0, d !! k0 =
         match dict_get String.eqb k0 (rev (mask_pairs tokens)) with
         | Some x => Some x
         | None => d0 !! k0
         end.
Proof.
  induction tokens as [|k|k v rest IH] using pair_ind; intros Hev d0.
  - exists d0. split; [reflexivity|]. intros k0. reflexivity.
  - discriminate.
  - destruct (IH Hev (<[k := strip dquote v]> d0)) as (d & Hd & Hl).
    exists d. split; [exact Hd|]. intros k0. rewrite Hl.
    change (mask_pairs (k :: v :: rest)) with ((k, strip dquote v) :: mask_pairs rest).
    simpl rev. rewrite dict_get_app_last.
    destruct (dict_get String.eqb k0 (rev (mask_pairs rest))); [reflexivity|].
    destruct (String.eqb_spec k0 k) as [->|Hne].
    + apply lookup_insert_eq.
    + apply lookup_insert_ne. congruence.
Qed.

(** A paired mask always parses, and the dictionary translates the way the
    pairs say. *)
Lemma valdict_of_spec (mask : option string) :
  mask_paired mask = true ->
  exists d, valdict_of mask = Ok d /\ forall v, valmap d v = display_of mask v.
Proof.
  unfold mask_paired, valdict_of, display_of, pairs_of, valmap.
  destruct mask as [m|].
  - destruct (truthy (Some m)).
    + intros Hev. destruct (build_valdict_spec _ Hev ∅) as (d & Hd & Hl).
      exists d. split; [exact Hd|]. intros v. rewrite Hl.
      destruct (dict_get String.eqb v (rev (mask_pairs (split semicolon m)))); reflexivity.
    + intros _. exists ∅. split; [reflexivity|]. intros v. reflexivity.
  - intros _. exists ∅. split; [reflexivity|]. intros v. reflexivity.
Qed.

(** The scan of [get_mask_value] over whole pairs: the code of the first
    pair showing the value, or the error listing every display value. *)
Lemma mask_scan_spec (value : string) (tokens : list string) :
  Nat.even (List.length tokens) = true ->
  forall vv,
    mask_scan value tokens vv =
    match List.find (fun kv => String.eqb (snd kv) value) (mask_pairs tokens) with
    | Some kv => Ok (fst kv)
    | None => Raise (ValueNotInMask value (vv ++ List.map snd (mask_pairs tokens)))
    end.
Proof.
  induction tokens as [|k|k v rest IH] using pair_ind; intros Hev vv.
  - simpl. now rewrite app_nil_r.
  - discriminate.
  - change (mask_pairs (k :: v :: rest)) with ((k, strip dquote v) :: mask_pairs rest).
    simpl. destruct (String.eqb (strip dquote v) value); [reflexivity|].
    rewrite (IH Hev). rewrite <- app_assoc. reflexivity.
Qed.

Lemma find_snd_In (value : string) (ps : list (string * string)) (kv : string * string) :
  List.find (fun kv => String.eqb (snd kv) value) ps = Some kv ->
  In kv ps /\ snd kv = value.
Proof.
  intros H. apply find_some in H as [Hin E]. apply String.eqb_eq in E. auto.
Qed.

Lemma find_snd_None (value : string) (ps : list (string * string)) :
  List.find (fun kv => String.eqb (snd kv) value) ps = None <-> ~ In value (List.map snd ps).
Proof.
  split.
  - intros H Hin. apply in_map_iff in Hin as (kv & E & Hin).
    apply (find_none _ _ H) in Hin. simpl in Hin. rewrite E, String.eqb_refl in Hin. discriminate.
  - intros H. destruct (List.find _ ps) as [kv|] eqn:E; [|reflexivity].
    apply find_snd_In in E as [Hin <-]. exfalso. apply H. now apply in_map.
Qed.

(** With distinct codes a pair is found under its code, first or last. *)
Lemma dict_get_rev_NoDup (k v : string) (ps : list (string * string)) :
  List.NoDup (List.map fst ps) -> In (k, v) ps ->
  dict_get String.eqb k (rev ps) = Some v.
Proof.
  induction ps as [|[k' v'] ps IH]; simpl; [tauto|].
  intros Hnd Hin. apply List.NoDup_cons_iff in Hnd as [Hk Hnd].
  rewrite dict_get_app_last.
  destruct Hin as [[= -> ->]|Hin].
  - destruct (dict_get String.eqb k (rev ps)) as [x|] eqn:E.
    + exfalso. apply Hk. apply (dict_get_In _ String_eqb_iff) in E.
      apply in_rev in E. now apply (in_map fst) in E.
    + now rewrite String.eqb_refl.
  - now rewrite (IH Hnd Hin).
Qed.

(** The round trip of a display value through a mask that is a mapping. *)
Lemma mask_roundtrip (mask : option string) (value : string) :
  mask_is_mapping mask = true ->
  truthy mask = true ->
  (In value (List.map snd (pairs_of mask)) ->
     exists k, get_mask_value value mask = Ok k
               /\ In (k, value) (pairs_of mask)
               /\ display_of mask k = value)
  /\ (~ In value (List.map snd (pairs_of mask)) ->
        get_mask_value value mask
        = Raise (ValueNotInMask value (List.map snd (pairs_of mask)))).
Proof.
  unfold mask_is_mapping. rewrite andb_true_iff. intros [Hp Hnd] Ht.
  apply nodup_names_NoDup in Hnd.
  unfold get_mask_value, display_of.
  unfold pairs_of, mask_paired in *. destruct mask as [m|]; [|discriminate].
  rewrite Ht in *. rewrite (mask_scan_spec value _ Hp). simpl.
  split.
  - intros Hin.
    destruct (List.find _ (mask_pairs (split semicolon m))) as [[k v]|] eqn:E.
    + apply find_snd_In in E as [Hkv Hv]. simpl in Hv. subst v.
      exists k. split; [reflexivity|]. split; [exact Hkv|].
      now rewrite (dict_get_rev_NoDup k value _ Hnd Hkv).
    + apply find_snd_None in E. tauto.
  - intros Hnot. apply find_snd_None in Hnot. now rewrite Hnot.
Qed.

(** Without a mask the value is stored and read as it is. *)
Lemma no_mask_roundtrip (mask : option string) (value : string) :
  truthy mask = false ->
  get_mask_value value mask = Ok value /\ display_of mask value = value.
Proof.
  intros Ht. unfold get_mask_value, display_of, pairs_of.
  destruct mask as [m|]; [rewrite Ht|]; auto.
Qed.

(* ================================================================== *)
(** * Reading properties *)
(* ================================================================== *)

Lemma by_band_total (a b : view_row) : by_band a b = true \/ by_band b a = true.
Proof. apply null_first_total. Qed.

Lemma by_band_trans (a b c : view_row) :
  by_band a b = true -> by_band b c = true -> by_band a c = true.
Proof. apply null_first_trans. Qed.

Lemma property_rows_perm (c : COAD) (oid : Z) (name : string) (tid : Z) :
  Permutation (property_rows c oid name tid)
    (List.filter (owned_by oid name tid) (property_view (work c))).
Proof.
  unfold property_rows. destruct (has_data_uid c); [apply order_by_perm|reflexivity].
Qed.

Lemma property_rows_nil (c : COAD) (oid : Z) (name : string) (tid : Z) :
  property_rows c oid name tid = [] <->
  List.filter (owned_by oid name tid) (property_view (work c)) = [].
Proof.
  split; intros H.
  - apply Permutation_nil. rewrite <- H. apply property_rows_perm.
  - apply Permutation_nil. rewrite <- H. symmetry. apply property_rows_perm.
Qed.

Lemma property_rows_single (c : COAD) (oid : Z) (name : string) (tid : Z) (r : view_row) :
  List.filter (owned_by oid name tid) (property_view (work c)) = [r] ->
  property_rows c oid name tid = [r].
Proof.
  intros H. unfold property_rows. rewrite H. now destruct (has_data_uid c).
Qed.



(** C10.  On a store whose file gave no [data] table, [get_property] returns
    [None] and [get_properties] the empty map, for every object, property
    name and tag (resolved or not), and the handle is left as it was. *)
Theorem no_data_table_reads_nothing
    (c : COAD) (self : ObjectDict) (name : string) (tag : tag_arg) :
  has_table c "data" = false ->
  get_property c self name tag = Ok None
  /\ get_properties self c = (Ok ∅, c).
Proof.
  intros H. unfold get_property, get_properties. now rewrite H.
Qed.

Lemma no_data_table_reads_nothing_witness :
  has_table Fixture.bare "data" = false
  /\ get_property Fixture.bare Fixture.G1 "Status" (TagName "No.Such") = Ok None
  /\ get_properties Fixture.G1 Fixture.bare = (Ok ∅, Fixture.bare).
Proof.
  split; [reflexivity|].
  exact (no_data_table_reads_nothing Fixture.bare Fixture.G1 "Status" (TagName "No.Such") eq_refl).
Defined.

(* ================================================================== *)
(** * Configuration, tagging and commits *)
(* ================================================================== *)

(** The guard of [tag_property] compares the integer object id with the
    string ['1']: it is false for every object. *)
Lemma tag_property_guard_never_fires (o : ObjectDict) :
  py_eq (meta_object_id o) (PyStr "1") = false.
Proof. reflexivity. Qed.

(** The guard of [untag_property] compares with the integer 1. *)
Lemma untag_property_guard (o : ObjectDict) :
  py_eq (meta_object_id o) (PyInt 1) = Z.eqb (object_id (o_meta o)) 1.
Proof. reflexivity. Qed.

(** C5, at the input where the code departs from it: tagging the [Status]
    value of generator [G1] with [System.System] (object id 1) raises
    nothing, and a Tag row for the System object is inserted and committed. *)
Theorem tag_property_accepts_System :
  fst (tag_property Fixture.G1 "Status" "System.System" Fixture.demo) = Ok tt
  /\ tag_t (work (snd (tag_property Fixture.G1 "Status" "System.System" Fixture.demo)))
     = tag_t (work Fixture.demo) ++ [{| t_data_id := 1; t_object_id := 1 |}]
  /\ durable (snd (tag_property Fixture.G1 "Status" "System.System" Fixture.demo))
     = work (snd (tag_property Fixture.G1 "Status" "System.System" Fixture.demo)).
Proof. repeat split. Qed.

(** The part of C5 about other objects: tagging with a scenario inserts one
    Tag row per matching data row not yet tagged with it. *)
Example tag_property_scenario :
  fst (tag_property Fixture.G1 "Rating" "Scenario.S1" Fixture.demo) = Ok tt
  /\ tag_t (work (snd (tag_property Fixture.G1 "Rating" "Scenario.S1" Fixture.demo)))
     = [ {| t_data_id := 3; t_object_id := 3 |}; {| t_data_id := 2; t_object_id := 3 |} ].
Proof. repeat split. Qed.

(** C6, at the input where the code departs from it: for a key the config
    table does not hold, [get_config] raises, while [set_config] returns the
    value and leaves the store exactly as it was. *)
Theorem set_config_unknown_key_is_silent :
  fst (get_config "Nope" Fixture.demo) = Raise (NoSuchConfig "Nope")
  /\ set_config "Nope" "1" Fixture.demo = (Ok "1", Fixture.demo).
Proof. repeat split. Qed.

Lemma update_config_absent (key value : string) (t : list config_row) :
  ~ In key (List.map element t) -> update_config key value t = t.
Proof.
  induction t as [|r t IH]; simpl; [reflexivity|].
  intros H. destruct (String.eqb_spec (element r) key) as [E|E].
  - exfalso. apply H. now left.
  - f_equal. apply IH. tauto.
Qed.

(** What [set_config] does, whatever the key. *)
Lemma set_config_eval (c : COAD) (key value : string) :
  has_table c "config" = true ->
  set_config key value c
  = (Ok value,
     {| table_list := table_list c; has_data_uid := has_data_uid c;
        hierarchy_cache := hierarchy_cache c;
        work := with_config_t (update_config key value) (work c);
        durable := with_config_t (update_config key value) (work c) |}).
Proof.
  intros Ht. unfold set_config, bind, require_table. rewrite Ht. reflexivity.
Qed.

(** [set_config] on an unknown key, in general: no error, no change to the
    config table. *)
Lemma set_config_absent (c : COAD) (key value : string) :
  has_table c "config" = true ->
  ~ In key (List.map element (config_t (work c))) ->
  fst (set_config key value c) = Ok value
  /\ config_t (work (snd (set_config key value c))) = config_t (work c).
Proof.
  intros Ht Hk. rewrite (set_config_eval _ _ _ Ht). cbn.
  split; [reflexivity|]. now apply update_config_absent.
Qed.

Lemma fetchone_updated_config (key value : string) (t : list config_row) :
  In key (List.map element t) ->
  fetchone (List.filter (fun r => String.eqb (element r) key) (update_config key value t))
  = Some {| element := key; c_value := value |}.
Proof.
  induction t as [|r t IH]; simpl; [tauto|].
  intros Hk. destruct (String.eqb_spec (element r) key) as [E|E]; simpl.
  - rewrite E, String.eqb_refl. reflexivity.
  - destruct (String.eqb_spec (element r) key); [congruence|].
    apply IH. destruct Hk; [congruence|assumption].
Qed.

(** X1.  [set_config] on a key the config table holds returns the value,
    commits, and [get_config] then returns that value. *)
Lemma set_get_config (c : COAD) (key value : string) :
  has_table c "config" = true ->
  In key (List.map element (config_t (work c))) ->
  fst (set_config key value c) = Ok value
  /\ fst (get_config key (snd (set_config key value c))) = Ok value
  /\ durable (snd (set_config key value c)) = work (snd (set_config key value c)).
Proof.
  intros Ht Hk. rewrite (set_config_eval _ _ _ Ht). cbn [fst snd durable work].
  split; [reflexivity|]. split; [|reflexivity].
  unfold get_config, bind, require_table, query, has_table.
  cbn [table_list].
  unfold has_table in Ht. rewrite Ht. simpl.
  rewrite (fetchone_updated_config _ _ _ Hk). reflexivity.
Qed.

(** C9, at the input where the code departs from it: removing the scenario
    tag from the [Rating] values of [G1] deletes the Tag row on the
    connection and returns without a commit; the durable store still has it. *)
Theorem untag_property_leaves_changes_pending :
  fst (untag_property Fixture.G1 "Rating" "Scenario.S1" Fixture.demo) = Ok tt
  /\ tag_t (work (snd (untag_property Fixture.G1 "Rating" "Scenario.S1" Fixture.demo))) = []
  /\ tag_t (durable (snd (untag_property Fixture.G1 "Rating" "Scenario.S1" Fixture.demo)))
     = [ {| t_data_id := 3; t_object_id := 3 |} ].
Proof. repeat split. Qed.

(** The same slip in [set_property]: the branch that inserts new data for a
    native property returns without a commit. *)
Example set_property_insert_leaves_changes_pending :
  fst (set_property Fixture.G1 "Max Capacity" (VScalar "10") "System.System" None Fixture.demo)
  = Ok tt
  /\ List.length (data_t (work (snd (set_property Fixture.G1 "Max Capacity" (VScalar "10")
                                       "System.System" None Fixture.demo)))) = 4%nat
  /\ List.length (data_t (durable (snd (set_property Fixture.G1 "Max Capacity" (VScalar "10")
                                          "System.System" None Fixture.demo)))) = 3%nat.
Proof. repeat split. Qed.

(** X2.  [delete_property] leaves nothing pending when it returns
    normally: the durable store is the one the connection sees. *)
Lemma delete_property_commits (c c' : COAD) (self : ObjectDict) (name : string) (tag : tag_arg) :
  delete_property self name tag c = (Ok tt, c') -> durable c' = work c'.
Proof.
  unfold delete_property, bind, lift, require_table, query.
  destruct (resolve_tag (work c) tag); [|discriminate].
  destruct (has_table c "data"); [|discriminate].
  match goal with |- context [for_each ?l ?b c] => destruct (for_each l b c) as [[[]|e] c1] end;
    [|discriminate].
  unfold commit. intros [= <-]. reflexivity.
Qed.

(** X3.  [tag_property] leaves nothing pending when it returns normally. *)
Lemma tag_property_commits (c c' : COAD) (self : ObjectDict) (name tag : string) :
  tag_property self name tag c = (Ok tt, c') -> durable c' = work c'.
Proof.
  unfold tag_property, bind, lift, require_table, query, execute, commit.
  destruct (get_by_hierarchy (work c) tag) as [o|]; [|discriminate].
  rewrite tag_property_guard_never_fires.
  destruct (has_table c "data"); [|discriminate].
  destruct (has_table c "tag"); [|discriminate].
  unfold has_table. simpl.
  intros [= <-]. reflexivity.
Qed.

(* ================================================================== *)
(** * [ClassDict]: what [valid_properties_by_name] holds *)
(* ================================================================== *)

Lemma fold_result_inv {A S} (f : S -> A -> result S) (P : S -> Prop) (l : list A) :
  (forall s a s', In a l -> P s -> f s a = Ok s' -> P s') ->
  forall s s', P s -> fold_result f l s = Ok s' -> P s'.
Proof.
  induction l as [|a l IH]; simpl; intros Hstep s s' Hs.
  - now intros [= <-].
  - destruct (f s a) as [s1|e] eqn:E; simpl; [|discriminate].
    apply IH; [|eapply Hstep; eauto].
    intros s0 a0 s0' Hin. apply Hstep. now right.
Qed.

Lemma add_valid_property_sound (db : database) (pn : string) vp (p : property_row) vp' :
  In p (property_t db) -> vp_sound db vp ->
  add_valid_property pn vp p = Ok vp' -> vp_sound db vp'.
Proof.
  intros Hp Hvp. unfold add_valid_property.
  set (vp1 := match dict_get String.eqb pn vp with
              | None => dict_set String.eqb pn [] vp
              | Some _ => vp
              end).
  assert (H1 : vp_sound db vp1).
  { unfold vp1. destruct (dict_get String.eqb pn vp); [exact Hvp|].
    intros pn0 inner k q Hin Hq. apply dict_set_In in Hin as [[= ? ?]|Hin]; [subst; destruct Hq|].
    eapply Hvp; eauto. }
  destruct (dict_get String.eqb (str_of_Z (property_id p)) vp1); [discriminate|].
  intros [= <-]. intros pn0 inner k q Hin Hq.
  apply dict_set_In in Hin as [[= ? ?]|Hin]; [subst|eapply H1; eauto].
  apply dict_set_In in Hq as [[= ? ?]|Hq]; [subst; auto|].
  match type of Hq with context [dict_get String.eqb ?x vp1] =>
    destruct (dict_get String.eqb x vp1) as [inner0|] eqn:E end; simpl in Hq; [|destruct Hq].
  apply (dict_get_In _ String_eqb_iff) in E. eapply H1; eauto.
Qed.

Lemma add_collection_sound (db : database) vp (coll : collection_row) vp' :
  vp_sound db vp -> add_collection db vp coll = Ok vp' -> vp_sound db vp'.
Proof.
  intros Hvp. unfold add_collection.
  destruct (subscript _) as [parent|]; simpl; [|discriminate].
  apply fold_result_inv; [|exact Hvp].
  intros s a s' Hin Hs. apply add_valid_property_sound; [|exact Hs].
  apply filter_In in Hin. tauto.
Qed.

Lemma add_name_sound (db : database) (pn : string) bn (kv : Z * property_row) bn' :
  In (snd kv) (property_t db) -> property_id (snd kv) = fst kv ->
  bn_sound db bn -> add_name pn bn kv = Ok bn' -> bn_sound db bn'.
Proof.
  intros Hp Hk Hbn. unfold add_name.
  destruct (dict_get String.eqb (p_name (snd kv)) bn); [discriminate|].
  intros [= <-]. intros pn0 names n k Hin Hn.
  apply dict_set_In in Hin as [[= ? ?]|Hin]; [subst|eapply Hbn; eauto].
  apply dict_set_In in Hn as [[= ? ?]|Hn]; [subst; eauto|].
  match type of Hn with context [dict_get String.eqb ?x bn] =>
    destruct (dict_get String.eqb x bn) as [names0|] eqn:E end; simpl in Hn; [|destruct Hn].
  apply (dict_get_In _ String_eqb_iff) in E. eapply Hbn; eauto.
Qed.

Lemma add_names_sound (db : database) bn (ppv : string * list (Z * property_row)) bn' :
  (forall k p, In (k, p) (snd ppv) -> In p (property_t db) /\ property_id p = k) ->
  bn_sound db bn -> add_names bn ppv = Ok bn' -> bn_sound db bn'.
Proof.
  intros Hpv Hbn. unfold add_names.
  apply fold_result_inv.
  - intros s [k p] s' Hin Hs. destruct (Hpv k p Hin). now apply add_name_sound.
  - intros pn0 names n k Hin Hn.
    apply dict_set_In in Hin as [[= ? ?]|Hin]; [subst; destruct Hn|]. eapply Hbn; eauto.
Qed.

Lemma ClassDict_init_sound (db : database) (meta : class_row) (cls : ClassDict) :
  ClassDict_init db meta = Ok cls -> bn_sound db (valid_properties_by_name cls).
Proof.
  unfold ClassDict_init.
  destruct (fold_result (add_collection db) _ []) as [vp|] eqn:Evp; simpl; [|discriminate].
  destruct (fold_result add_names vp []) as [bn|] eqn:Ebn; simpl; [|discriminate].
  intros [= <-]. simpl.
  assert (Hvp : vp_sound db vp).
  { revert Evp. apply fold_result_inv.
    - intros s a s' _. apply add_collection_sound.
    - intros pn inner k p []. }
  revert Ebn. apply fold_result_inv.
  - intros s [pn inner] s' Hin Hs. apply add_names_sound; [|exact Hs].
    intros k p Hkp. eapply Hvp; eauto.
  - intros pn names n k [].
Qed.

Lemma get_class_sound (db : database) (self : ObjectDict) (cls : ClassDict) :
  get_class db self = Ok cls -> bn_sound db (valid_properties_by_name cls).
Proof.
  unfold get_class, get_by_class_id, COAD_getitem.
  destruct (subscript _) as [row|]; simpl; [|discriminate].
  destruct (fetchone _) as [row'|]; [|discriminate].
  apply ClassDict_init_sound.
Qed.

(** In the native case the property row has the name that was asked for. *)
Lemma native_name (c : COAD) (self : ObjectDict) (name tag : string)
    (tag_obj : ObjectDict) (prop : property_row) (member : membership_row) :
  nodup_ids (List.map property_id (property_t (work c))) = true ->
  native c self name tag tag_obj prop member ->
  In prop (property_t (work c)) /\ p_name prop = name.
Proof.
  intros Hnd [_ (tc & sc & bn & _ & Hsc & Hbn & Hname) Hprop _].
  apply (dict_get_In _ String_eqb_iff) in Hbn, Hname.
  destruct (get_class_sound _ _ _ Hsc _ _ _ _ Hbn Hname) as (p & Hp & Hid & Hn).
  assert (Hin : In prop (property_t (work c))).
  { unfold fetchone in Hprop. apply head_Some_elem_of, list_elem_of_In, filter_In in Hprop.
    tauto. }
  split; [exact Hin|].
  apply nodup_ids_NoDup in Hnd.
  pose proof (filter_key property_id _ p Hnd Hp) as Hf.
  rewrite Hid in Hf. rewrite Hf in Hprop. simpl in Hprop. congruence.
Qed.

(* ================================================================== *)
(** * Resolution does not read the property flags *)
(* ================================================================== *)

Lemma fold_result_rel {A B S T} (R : S -> T -> Prop) (Q : A -> B -> Prop)
    (f : S -> A -> result S) (g : T -> B -> result T) :
  (forall s t a b, R s t -> Q a b -> result_rel R (f s a) (g t b)) ->
  forall l1 l2, Forall2 Q l1 l2 ->
  forall s t, R s t -> result_rel R (fold_result f l1 s) (fold_result g l2 t).
Proof.
  intros Hstep l1 l2 HQ. induction HQ as [|a b l1 l2 Hab _ IH]; intros s t Hst; simpl.
  - exact Hst.
  - specialize (Hstep s t a b Hst Hab).
    destruct (f s a), (g t b); simpl in *; try contradiction; auto.
Qed.

Lemma dict_get_map_vals {V W} (f : V -> W) (k : string) (d : list (string * V)) :
  dict_get String.eqb k (map_vals f d) = option_map f (dict_get String.eqb k d).
Proof.
  induction d as [|[k' v] d IH]; simpl; [reflexivity|].
  destruct (String.eqb k k'); [reflexivity|exact IH].
Qed.

Lemma dict_set_map_vals {K V W} (keyb : K -> K -> bool) (f : V -> W) (k : K) (v : V)
    (d : list (K * V)) :
  dict_set keyb k (f v) (map_vals f d) = map_vals f (dict_set keyb k v d).
Proof.
  induction d as [|[k' v'] d IH]; simpl; [reflexivity|].
  destruct (keyb k k'); simpl; [reflexivity|]. now rewrite IH.
Qed.

Lemma dict_get_erase_some {V W} (f : V -> W) (k : string) (d1 d2 : list (string * V)) :
  map_vals f d1 = map_vals f d2 ->
  option_map f (dict_get String.eqb k d1) = option_map f (dict_get String.eqb k d2).
Proof. intros E. now rewrite <- !dict_get_map_vals, E. Qed.

Lemma add_valid_property_erase (pn : string) vp1 vp2 (p1 p2 : property_row) :
  erase vp1 = erase vp2 -> core p1 = core p2 ->
  result_rel (fun a b => erase a = erase b)
    (add_valid_property pn vp1 p1) (add_valid_property pn vp2 p2).
Proof.
  intros E Ep. unfold add_valid_property.
  assert (Eid : property_id p1 = property_id p2) by (unfold core in Ep; congruence).
  set (a1 := match dict_get String.eqb pn vp1 with
             | None => dict_set String.eqb pn [] vp1 | Some _ => vp1 end).
  set (a2 := match dict_get String.eqb pn vp2 with
             | None => dict_set String.eqb pn [] vp2 | Some _ => vp2 end).
  assert (Ea : erase a1 = erase a2).
  { unfold a1, a2. pose proof (dict_get_erase_some (map_vals core) pn _ _ E) as H.
    destruct (dict_get String.eqb pn vp1), (dict_get String.eqb pn vp2);
      simpl in H; try discriminate; [exact E|].
    unfold erase.
    rewrite <- !(dict_set_map_vals String.eqb (map_vals core) pn []).
    simpl. unfold erase in E. now rewrite E. }
  pose proof (dict_get_erase_some (map_vals core) (str_of_Z (property_id p1)) _ _ Ea) as H1.
  rewrite <- Eid.
  pose proof (dict_get_erase_some (map_vals core) pn _ _ Ea) as H2.
  destruct (dict_get String.eqb (str_of_Z (property_id p1)) a1),
           (dict_get String.eqb (str_of_Z (property_id p1)) a2);
    simpl in H1; try discriminate; simpl; [reflexivity|].
  unfold erase.
  rewrite <- !(dict_set_map_vals String.eqb (map_vals core) pn).
  rewrite <- !(dict_set_map_vals Z.eqb core).
  rewrite Ep. fold (erase a1) (erase a2). rewrite Ea. do 2 f_equal.
  destruct (dict_get String.eqb pn a1), (dict_get String.eqb pn a2);
    simpl in H2; try discriminate; simpl; congruence.
Qed.

Lemma filter_core (P : Z * Z * string * option string -> bool) (l1 l2 : list property_row) :
  List.map core l1 = List.map core l2 ->
  Forall2 (fun p q => core p = core q)
    (List.filter (fun p => P (core p)) l1) (List.filter (fun p => P (core p)) l2).
Proof.
  revert l2. induction l1 as [|p l1 IH]; intros [|q l2]; simpl; try discriminate.
  - constructor.
  - intros H.
    assert (Epq : core p = core q) by congruence.
    assert (E : List.map core l1 = List.map core l2) by congruence.
    rewrite Epq. destruct (P (core q)); auto.
Qed.

Lemma add_collection_erase (db1 db2 : database) vp1 vp2 (coll : collection_row) :
  same_schema db1 db2 -> erase vp1 = erase vp2 ->
  result_rel (fun a b => erase a = erase b)
    (add_collection db1 vp1 coll) (add_collection db2 vp2 coll).
Proof.
  intros (Ec & _ & _ & _ & Ep) E. unfold add_collection. rewrite Ec.
  destruct (subscript _) as [parent|e]; simpl; [|reflexivity].
  apply fold_result_rel with (Q := fun p q => core p = core q); [| |exact E].
  - intros s t a b. apply add_valid_property_erase.
  - apply (filter_core (fun cp => Z.eqb (snd (fst (fst cp))) (collection_id coll)) _ _ Ep).
Qed.

Lemma erase_Forall2 vp1 vp2 :
  erase vp1 = erase vp2 ->
  Forall2 (fun x y : string * list (Z * property_row) =>
             fst x = fst y
             /\ Forall2 (fun a b : Z * property_row => fst a = fst b /\ core (snd a) = core (snd b))
                  (snd x) (snd y)) vp1 vp2.
Proof.
  revert vp2. induction vp1 as [|[pn i1] vp1 IH]; intros [|[pn2 i2] vp2]; simpl;
    try discriminate; [constructor|].
  intros H.
  assert (Epn : pn = pn2) by congruence.
  assert (Ei : map_vals core i1 = map_vals core i2) by congruence.
  assert (E : erase vp1 = erase vp2) by (unfold erase, map_vals in *; congruence).
  constructor; [|auto]. simpl. split; [exact Epn|].
  clear -Ei. revert i2 Ei. induction i1 as [|[k p] i1 IH]; intros [|[k2 p2] i2]; simpl;
    try discriminate; [constructor|].
  intros H.
  assert (Ek : k = k2) by congruence.
  assert (Ep : core p = core p2) by congruence.
  assert (E : map_vals core i1 = map_vals core i2) by (unfold map_vals in *; congruence).
  constructor; auto.
Qed.

Lemma add_name_erase (pn : string) bn (a b : Z * property_row) :
  fst a = fst b /\ core (snd a) = core (snd b) ->
  result_rel eq (add_name pn bn a) (add_name pn bn b).
Proof.
  intros [Ek Ec]. unfold add_name.
  assert (En : p_name (snd a) = p_name (snd b)) by (unfold core in Ec; congruence).
  rewrite En, Ek. destruct (dict_get String.eqb (p_name (snd b)) bn); reflexivity.
Qed.

Lemma add_names_erase bn (x y : string * list (Z * property_row)) :
  fst x = fst y
  /\ Forall2 (fun a b : Z * property_row => fst a = fst b /\ core (snd a) = core (snd b))
       (snd x) (snd y) ->
  result_rel eq (add_names bn x) (add_names bn y).
Proof.
  intros [Ek Hf]. unfold add_names. rewrite Ek.
  eapply fold_result_rel; [|exact Hf|reflexivity].
  intros s t a b -> Hab. now apply add_name_erase.
Qed.

Lemma Forall2_same {A} (l : list A) : Forall2 eq l l.
Proof. induction l; constructor; auto. Qed.

(** [ClassDict_init] on two databases of the same schema: the same error, or
    class dictionaries with the same meta row and the same names. *)
Lemma ClassDict_init_same_schema (db1 db2 : database) (meta : class_row) :
  same_schema db1 db2 ->
  result_rel (fun a b => c_meta a = c_meta b
                         /\ valid_properties_by_name a = valid_properties_by_name b)
    (ClassDict_init db1 meta) (ClassDict_init db2 meta).
Proof.
  intros Hs. unfold ClassDict_init.
  pose proof Hs as (_ & _ & Ecoll & _).
  rewrite Ecoll.
  assert (Hvp : result_rel (fun a b => erase a = erase b)
            (fold_result (add_collection db1)
               (List.filter (fun c => Z.eqb (child_class_id c) (class_id meta)) (collection_t db2)) [])
            (fold_result (add_collection db2)
               (List.filter (fun c => Z.eqb (child_class_id c) (class_id meta)) (collection_t db2)) [])).
  { apply fold_result_rel with (Q := eq); [|apply Forall2_same|reflexivity].
    intros s t a b Hst <-. now apply add_collection_erase. }
  destruct (fold_result (add_collection db1) _ []) as [vp1|e1],
           (fold_result (add_collection db2) _ []) as [vp2|e2];
    simpl in *; try contradiction; [|exact Hvp].
  assert (Hbn : result_rel eq (fold_result add_names vp1 []) (fold_result add_names vp2 [])).
  { eapply fold_result_rel; [|apply erase_Forall2; exact Hvp|reflexivity].
    intros s t a b -> Hab. now apply add_names_erase. }
  destruct (fold_result add_names vp1 []) as [bn1|e1'],
           (fold_result add_names vp2 []) as [bn2|e2'];
    simpl in *; try contradiction; [|exact Hbn].
  subst. auto.
Qed.

Lemma same_schema_refl (db : database) : same_schema db db.
Proof. repeat split. Qed.

Lemma same_schema_sym (db1 db2 : database) : same_schema db1 db2 -> same_schema db2 db1.
Proof. intros (? & ? & ? & ? & ?). repeat split; congruence. Qed.

Lemma get_class_same_schema (db1 db2 : database) (o : ObjectDict) :
  same_schema db1 db2 ->
  result_rel (fun a b => c_meta a = c_meta b
                         /\ valid_properties_by_name a = valid_properties_by_name b)
    (get_class db1 o) (get_class db2 o).
Proof.
  intros Hs. unfold get_class, get_by_class_id, COAD_getitem.
  pose proof Hs as (Ec & _). rewrite Ec.
  destruct (subscript _) as [row|e]; simpl; [|reflexivity].
  destruct (fetchone _) as [row'|]; [|reflexivity].
  now apply ClassDict_init_same_schema.
Qed.

Lemma COAD_getitem_same_schema (db1 db2 : database) (key : string) :
  same_schema db1 db2 ->
  result_rel (fun a b => c_meta a = c_meta b
                         /\ valid_properties_by_name a = valid_properties_by_name b)
    (COAD_getitem db1 key) (COAD_getitem db2 key).
Proof.
  intros Hs. unfold COAD_getitem. pose proof Hs as (Ec & _). rewrite Ec.
  destruct (fetchone _) as [row'|]; [|reflexivity].
  now apply ClassDict_init_same_schema.
Qed.

Lemma ClassDict_getitem_same_schema (db1 db2 : database) (cls1 cls2 : ClassDict) (key : string) :
  same_schema db1 db2 -> c_meta cls1 = c_meta cls2 ->
  ClassDict_getitem db1 cls1 key = ClassDict_getitem db2 cls2 key.
Proof.
  intros Hs Em. unfold ClassDict_getitem, ObjectDict_init.
  pose proof Hs as (_ & Eo & _). rewrite Eo, Em.
  destruct (fetchone _) as [row|]; [|reflexivity].
  pose proof (get_class_same_schema db1 db2 {| o_meta := row |} Hs) as H.
  destruct (get_class db1 _), (get_class db2 _); simpl in *; try contradiction; congruence.
Qed.

(** Resolving a tag gives the same object on two databases of the same
    schema. *)
Lemma get_by_hierarchy_same_schema (db1 db2 : database) (identifier : string) :
  same_schema db1 db2 ->
  get_by_hierarchy db1 identifier = get_by_hierarchy db2 identifier.
Proof.
  intros Hs. unfold get_by_hierarchy.
  destruct (split dot identifier) as [|cname rest]; [reflexivity|].
  pose proof (COAD_getitem_same_schema db1 db2 cname Hs) as H.
  destruct (COAD_getitem db1 cname) as [cls1|e1], (COAD_getitem db2 cname) as [cls2|e2];
    simpl in *; try contradiction; [|congruence].
  destruct H as [Em _].
  destruct rest as [|oname rest']; [reflexivity|].
  rewrite (ClassDict_getitem_same_schema db1 db2 cls1 cls2 oname Hs Em).
  reflexivity.
Qed.

(* ================================================================== *)
(** * The view depends on a data row's own fan-out only *)
(* ================================================================== *)

Lemma flat_map_filter_core {B} (F : property_row -> list B)
    (P : Z * Z * string * option string -> bool) (l1 l2 : list property_row) :
  List.map core l1 = List.map core l2 ->
  (forall p q, core p = core q -> F p = F q) ->
  List.flat_map F (List.filter (fun p => P (core p)) l1)
  = List.flat_map F (List.filter (fun p => P (core p)) l2).
Proof.
  intros E HF. pose proof (filter_core P l1 l2 E) as H.
  induction H as [|p q f1 f2 Hpq _ IH]; simpl; [reflexivity|].
  now rewrite (HF p q Hpq), IH.
Qed.

Lemma view_of_data_ext (db db' : database) (d : data_row) :
  List.map core (property_t db') = List.map core (property_t db) ->
  membership_t db' = membership_t db ->
  List.filter (fun t => Z.eqb (t_data_id t) (data_id d)) (tag_t db')
  = List.filter (fun t => Z.eqb (t_data_id t) (data_id d)) (tag_t db) ->
  List.filter (fun x => Z.eqb (x_data_id x) (data_id d)) (text_t db')
  = List.filter (fun x => Z.eqb (x_data_id x) (data_id d)) (text_t db) ->
  List.filter (fun b => Z.eqb (b_data_id b) (data_id d)) (band_t db')
  = List.filter (fun b => Z.eqb (b_data_id b) (data_id d)) (band_t db) ->
  view_of_data db' d = view_of_data db d.
Proof.
  intros Ep Em Et Ex Eb. unfold view_of_data. rewrite Em, Et, Ex, Eb.
  apply (flat_map_filter_core _ (fun cp => Z.eqb (fst (fst (fst cp))) (d_property_id d)) _ _ Ep).
  intros p q E. unfold core in E.
  assert (p_name p = p_name q) as -> by congruence.
  assert (input_mask p = input_mask q) as -> by congruence.
  reflexivity.
Qed.

Lemma filter_none {A} (P : A -> bool) (l : list A) :
  (forall x, In x l -> P x = false) -> List.filter P l = [].
Proof.
  induction l as [|x l IH]; simpl; [reflexivity|]. intros H.
  rewrite (H x (or_introl eq_refl)). apply IH. intros y Hy. apply H. now right.
Qed.

Lemma filter_app_none {A} (P : A -> bool) (l extra : list A) :
  (forall x, In x extra -> P x = false) -> List.filter P (l ++ extra) = List.filter P l.
Proof.
  intros H. rewrite List.filter_app, (filter_none P extra H). apply app_nil_r.
Qed.

(* ================================================================== *)
(** * [set_property], step by step *)
(* ================================================================== *)

Lemma flags_only_refl (c : COAD) : flags_only c c.
Proof. repeat split. Qed.

Lemma set_is_dynamic_core (v : string) (pid : Z) (t : list property_row) :
  List.map core (set_is_dynamic v pid t) = List.map core t.
Proof.
  unfold set_is_dynamic. rewrite List.map_map. apply map_ext. intros p.
  now destruct (Z.eqb (property_id p) pid).
Qed.

Lemma set_is_enabled_core (v : string) (pid : Z) (t : list property_row) :
  List.map core (set_is_enabled v pid t) = List.map core t.
Proof.
  unfold set_is_enabled. rewrite List.map_map. apply map_ext. intros p.
  now destruct (Z.eqb (property_id p) pid).
Qed.

(** Marking a property dynamic and enabled never fails and changes flags
    only. *)
Lemma mark_property_spec (lit : string) (p : property_row) (pid : Z) (c : COAD) :
  exists c1, mark_property lit p pid c = (Ok tt, c1) /\ flags_only c c1.
Proof.
  unfold mark_property, bind, when_, execute, ret.
  destruct (negb (String.eqb (is_dynamic p) "true")),
           (negb (String.eqb (is_enabled p) "true"));
    eexists; (split; [reflexivity|]); unfold flags_only, same_schema; simpl;
    rewrite ?set_is_enabled_core, ?set_is_dynamic_core; repeat split.
Qed.

Lemma add_rows_add_rows (d1 d2 : list data_row) (b1 b2 : list band_row) (c : COAD) :
  add_rows d2 b2 (add_rows d1 b1 c) = add_rows (d1 ++ d2) (b1 ++ b2) c.
Proof.
  unfold add_rows, with_band_t, with_data_t. simpl. now rewrite !app_assoc.
Qed.

Lemma require_table_ok (name : string) (c : COAD) :
  has_table c name = true -> require_table name c = (Ok tt, c).
Proof. intros H. unfold require_table. now rewrite H. Qed.

Lemma insert_step_eval (m : membership_row) (pid L U b : Z) (v : string) (c : COAD) :
  has_table c "band" = true ->
  insert_step (Some m) pid (fun _ => ret tt) (Some L, Some U, b) v c
  = (Ok (Some (L + 1), Some (U + 1), b + 1),
     add_rows
       [{| data_id := L + 1; uid := Some (U + 1); d_membership_id := membership_id m;
           d_property_id := pid; d_value := v |}]
       (if Z.ltb 1 (b + 1) then [{| b_data_id := L + 1; band_id := b + 1 |}] else [])
       c).
Proof.
  intros Hb. unfold insert_step, bind, incr, ret, when_, execute. cbn [subscript].
  destruct (Z.ltb 1 (b + 1)).
  - match goal with |- context [require_table "band" ?x] =>
      rewrite (require_table_ok "band" x Hb) end.
    reflexivity.
  - unfold add_rows, with_band_t, with_data_t. cbn. now rewrite app_nil_r.
Qed.

Lemma for_fold_cons {A S} (x : A) (l : list A) (s : S) (body : S -> A -> M S) (c : COAD) :
  for_fold (x :: l) s body c
  = match body s x c with
    | (Ok s', c') => for_fold l s' body c'
    | (Raise e, c') => (Raise e, c')
    end.
Proof. reflexivity. Qed.

Lemma for_each_cons {A} (x : A) (l : list A) (body : A -> M unit) (c : COAD) :
  for_each (x :: l) body c
  = match body x c with
    | (Ok _, c') => for_each l body c'
    | (Raise e, c') => (Raise e, c')
    end.
Proof. reflexivity. Qed.

(** The insertion loop in closed form. *)
Lemma insert_loop_eval (m : membership_row) (pid : Z) (vs : list string) :
  forall (L U b : Z) (c : COAD),
  has_table c "band" = true ->
  exists s,
    for_fold vs (Some L, Some U, b) (insert_step (Some m) pid (fun _ => ret tt)) c
    = (Ok s, add_rows (inserted_data L U (membership_id m) pid vs) (inserted_bands L b vs) c).
Proof.
  induction vs as [|v vs IH]; intros L U b c Hb.
  - exists (Some L, Some U, b). simpl. unfold ret, add_rows, with_band_t, with_data_t.
    rewrite !app_nil_r. destruct c as [tl hu hc [] du]; reflexivity.
  - rewrite for_fold_cons, (insert_step_eval m pid L U b v c Hb).
    destruct (IH (L + 1) (U + 1) (b + 1)
                (add_rows
                   [{| data_id := L + 1; uid := Some (U + 1);
                       d_membership_id := membership_id m;
                       d_property_id := pid; d_value := v |}]
                   (if Z.ltb 1 (b + 1) then [{| b_data_id := L + 1; band_id := b + 1 |}] else [])
                   c) Hb) as (s & Hs).
    exists s. rewrite Hs, add_rows_add_rows. reflexivity.
Qed.

Lemma insert_values_eval (m : membership_row) (pid L U : Z) (vs : list string) (c : COAD) :
  has_table c "band" = true ->
  insert_values (Some m) pid (fun _ => ret tt) (Some L, Some U) vs c
  = (Ok tt, add_rows (inserted_data L U (membership_id m) pid vs) (inserted_bands L 0 vs) c).
Proof.
  intros Hb. unfold insert_values, bind.
  destruct (insert_loop_eval m pid vs L U 0 c Hb) as (s & ->). reflexivity.
Qed.

(** Without a largest id or uid (an empty data table) the first increment
    is a [TypeError]. *)
Lemma insert_values_no_max (m : option membership_row) (pid : Z) (after : Z -> M unit)
    (ids : option Z * option Z) (v : string) (vs : list string) (c : COAD) :
  fst ids = None \/ snd ids = None ->
  insert_values m pid after ids (v :: vs) c = (Raise TypeError, c).
Proof.
  destruct ids as [[L|] [U|]]; simpl; intros [H|H]; try discriminate; reflexivity.
Qed.

Lemma map_result_length {A B} (f : A -> result B) (l : list A) (l' : list B) :
  map_result f l = Ok l' -> List.length l' = List.length l.
Proof.
  revert l'. induction l as [|x l IH]; simpl; intros l'.
  - now intros [= <-].
  - destruct (f x); simpl; [|discriminate].
    destruct (map_result f l); simpl; [|discriminate].
    intros [= <-]. simpl. f_equal. now apply IH.
Qed.

Lemma map_result_Forall2 {A B} (f : A -> result B) (l : list A) (l' : list B) :
  map_result f l = Ok l' -> Forall2 (fun x y => f x = Ok y) l l'.
Proof.
  revert l'. induction l as [|x l IH]; simpl; intros l'.
  - intros [= <-]. constructor.
  - destruct (f x) eqn:E; simpl; [|discriminate].
    destruct (map_result f l); simpl; [|discriminate].
    intros [= <-]. constructor; auto.
Qed.

(** In the native case [set_property] comes down to the three branches on
    the number of existing data rows. *)
Lemma set_property_native_eval (c : COAD) (self : ObjectDict) (name tag : string)
    (tag_obj : ObjectDict) (prop : property_row) (member : membership_row) (value : pvalue) :
  native c self name tag tag_obj prop member ->
  has_table c "data" = true ->
  has_table c "band" = true ->
  set_property self name value tag None c
  = match native_rows c (membership_id member) (property_id prop) with
    | [] =>
        (let* ids := select_max_ids in
         let* m_values := (fun c =>
           (map_result (fun x => get_mask_value x (input_mask prop)) (as_list value), c)) in
         let* _ := mark_property "true" prop (property_id prop) in
         insert_values (Some member) (property_id prop) (fun _ => ret tt) ids m_values) c
    | [data] =>
        match value with
        | VList _ => (Raise ListForSingle, c)
        | VScalar v =>
            (let* m_value := (fun c => (get_mask_value v (input_mask prop), c)) in
             let* _ := execute (with_data_t (update_value m_value data)) in
             commit) c
        end
    | all_data =>
        match value with
        | VScalar _ => (Raise SingleForList, c)
        | VList l =>
            if negb (Nat.eqb (List.length l) (List.length all_data))
            then (Raise (LengthMismatch (List.length l) (List.length all_data)), c)
            else
              for_each (combine l all_data) (fun '(raw_val, data) =>
                let* m_value := (fun c => (get_mask_value raw_val (input_mask prop), c)) in
                let* _ := execute (with_data_t (update_value m_value data)) in
                commit) c
        end
    end.
Proof.
  intros [Htag (tc & sc & bn & Htc & Hsc & Hbn & Hname) Hprop Hmem] Hdata Hband.
  unfold set_property, bind, lift. rewrite Htag, Htc, Hsc, Hbn.
  unfold set_property_native. rewrite Hname.
  unfold bind, select_property, select_membership, query. rewrite Hprop, Hmem.
  unfold select_native_rows, bind. rewrite (require_table_ok "data" c Hdata).
  rewrite Hband, andb_false_r.
  destruct (native_rows c (membership_id member) (property_id prop)) as [|d [|d' rest]].
  - unfold select_max_ids, bind. rewrite (require_table_ok "data" c Hdata), Hprop.
    reflexivity.
  - destruct value; reflexivity.
  - destruct value; [reflexivity|].
    destruct (negb _); reflexivity.
Qed.

(* ================================================================== *)
(** * Reading back what the insertion wrote *)
(* ================================================================== *)

Lemma sql_max_acc (l : list Z) (acc : option Z) (m : Z) :
  fold_left (fun acc z => match acc with
                          | None => Some z
                          | Some a => Some (Z.max a z)
                          end) l acc = Some m ->
  (forall a, acc = Some a -> a <= m) /\ (forall x, In x l -> x <= m).
Proof.
  revert acc. induction l as [|z l IH]; simpl; intros acc H.
  - split; [intros a ->; injection H; lia|tauto].
  - apply IH in H as [Ha Hl]. split.
    + intros a ->. specialize (Ha _ eq_refl). lia.
    + intros x [<-|Hx]; [|auto].
      destruct acc as [a|]; specialize (Ha _ eq_refl); lia.
Qed.

Lemma sql_max_ub (l : list Z) (m : Z) : sql_max l = Some m -> forall x, In x l -> x <= m.
Proof. intros H. now apply sql_max_acc in H. Qed.

Lemma references_data_le (db : database) (ids : list Z) (L : Z) :
  references_data db ids = true ->
  sql_max (List.map data_id (data_t db)) = Some L ->
  forall i, In i ids -> i <= L.
Proof.
  intros Hr Hmax i Hi. unfold references_data in Hr.
  rewrite forallb_forall in Hr. specialize (Hr i Hi).
  apply existsb_Zeqb_In in Hr. eapply sql_max_ub; eauto.
Qed.

Lemma left_outer_nonempty {A B} (f : A -> B) (l : list A) : exists x, In x (left_outer f l).
Proof. destruct l as [|a l]; simpl; eauto. Qed.

(** A data row of a known property and membership shows in the view. *)
Lemma view_of_data_has_row (db : database) (d : data_row) (p : property_row)
    (m : membership_row) :
  In p (property_t db) -> property_id p = d_property_id d ->
  In m (membership_t db) -> membership_id m = d_membership_id d ->
  exists r, In r (view_of_data db d)
            /\ v_name r = p_name p
            /\ v_child_object_id r = child_object_id m
            /\ v_parent_object_id r = parent_object_id m.
Proof.
  intros Hp Ep Hm Em. unfold view_of_data.
  destruct (left_outer_nonempty t_object_id
              (List.filter (fun t => Z.eqb (t_data_id t) (data_id d)) (tag_t db))) as (t & Ht).
  destruct (left_outer_nonempty x_value
              (List.filter (fun x => Z.eqb (x_data_id x) (data_id d)) (text_t db))) as (x & Hx).
  destruct (left_outer_nonempty band_id
              (List.filter (fun b => Z.eqb (b_data_id b) (data_id d)) (band_t db))) as (b & Hb).
  eexists. split.
  - apply in_flat_map. exists p. split.
    { apply filter_In. split; [exact Hp|]. now apply Z.eqb_eq. }
    apply in_flat_map. exists m. split.
    { apply filter_In. split; [exact Hm|]. now apply Z.eqb_eq. }
    apply in_flat_map. exists t. split; [exact Ht|].
    apply in_flat_map. exists x. split; [exact Hx|].
    apply in_map_iff. exists b. split; [reflexivity|exact Hb].
  - simpl. auto.
Qed.

Lemma native_member_facts (c : COAD) (self : ObjectDict) (name tag : string)
    (tag_obj : ObjectDict) (prop : property_row) (member : membership_row) :
  native c self name tag tag_obj prop member ->
  In member (membership_t (work c))
  /\ child_object_id member = object_id (o_meta self)
  /\ parent_object_id member = object_id (o_meta tag_obj).
Proof.
  intros [_ _ _ Hmem]. unfold fetchone in Hmem.
  apply head_Some_elem_of, list_elem_of_In, filter_In in Hmem as [Hin Hb].
  apply andb_true_iff in Hb as [H1 H2]. apply Z.eqb_eq in H1, H2. auto.
Qed.

(** No row for [get_property] means no data row for [set_property]. *)
Lemma zero_rows_native (c : COAD) (self : ObjectDict) (name tag : string)
    (tag_obj : ObjectDict) (prop : property_row) (member : membership_row) :
  well_formed c = true ->
  native c self name tag tag_obj prop member ->
  property_rows c (object_id (o_meta self)) name (object_id (o_meta tag_obj)) = [] ->
  native_rows c (membership_id member) (property_id prop) = [].
Proof.
  intros Hwf Hn Hzero.
  assert (Hnd : nodup_ids (List.map property_id (property_t (work c))) = true).
  { unfold well_formed in Hwf. repeat (apply andb_true_iff in Hwf as [Hwf ?]). assumption. }
  destruct (native_name c self name tag tag_obj prop member Hnd Hn) as [Hp Hname].
  destruct (native_member_facts c self name tag tag_obj prop member Hn) as (Hm & Hc & Hpa).
  apply property_rows_nil in Hzero.
  assert (Hf : List.filter
                 (fun d => Z.eqb (d_membership_id d) (membership_id member)
                           && Z.eqb (d_property_id d) (property_id prop))
                 (data_t (work c)) = []).
  { apply filter_none. intros d Hd.
    destruct (Z.eqb_spec (d_membership_id d) (membership_id member)) as [Em|]; [|reflexivity].
    destruct (Z.eqb_spec (d_property_id d) (property_id prop)) as [Ep|]; [|reflexivity].
    exfalso.
    destruct (view_of_data_has_row (work c) d prop member Hp (eq_sym Ep) Hm (eq_sym Em))
      as (r & Hr & Hrn & Hrc & Hrp).
    assert (Hin : In r (List.filter
                          (owned_by (object_id (o_meta self)) name (object_id (o_meta tag_obj)))
                          (property_view (work c)))).
    { apply filter_In. split.
      - unfold property_view. apply in_flat_map. eauto.
      - unfold owned_by. rewrite Hrn, Hrc, Hrp, Hname, Hc, Hpa.
        now rewrite !Z.eqb_refl, String.eqb_refl. }
    rewrite Hzero in Hin. exact Hin. }
  unfold native_rows. rewrite Hf. now destruct (has_data_uid c).
Qed.

Lemma inserted_bands_ids (vs : list string) :
  forall (L b : Z) (r : band_row), In r (inserted_bands L b vs) -> L < b_data_id r.
Proof.
  induction vs as [|v vs IH]; simpl; intros L b r; [tauto|].
  rewrite in_app_iff. intros [H|H].
  - destruct (Z.ltb 1 (b + 1)); [|destruct H]. destruct H as [<-|[]]. simpl. lia.
  - apply IH in H. lia.
Qed.

(** The view rows of the inserted data rows. *)
Lemma view_of_inserted (prop : property_row) (member : membership_row) (vs : list string) :
  forall (L U b : Z) (db : database) (pre : list band_row),
  List.filter (fun p => Z.eqb (property_id p) (property_id prop)) (property_t db) = [prop] ->
  List.filter (fun m => Z.eqb (membership_id m) (membership_id member)) (membership_t db)
  = [member] ->
  (forall t, In t (tag_t db) -> t_data_id t <= L) ->
  (forall x, In x (text_t db) -> x_data_id x <= L) ->
  (forall r, In r pre -> b_data_id r <= L) ->
  band_t db = pre ++ inserted_bands L b vs ->
  List.flat_map (view_of_data db)
    (inserted_data L U (membership_id member) (property_id prop) vs)
  = inserted_view prop member L b vs.
Proof.
  induction vs as [|v vs IH]; intros L U b db pre Hp Hm Ht Hx Hpre Hb; [reflexivity|].
  simpl inserted_data. simpl inserted_view. simpl flat_map.
  rewrite (IH (L + 1) (U + 1) (b + 1) db
             (pre ++ (if Z.ltb 1 (b + 1)
                      then [{| b_data_id := L + 1; band_id := b + 1 |}] else []))); auto.
  - unfold view_of_data at 1. cbn [data_id d_property_id d_membership_id d_value].
    rewrite Hp, Hm.
    rewrite (filter_none _ (tag_t db)), (filter_none _ (text_t db)).
    + rewrite Hb. simpl inserted_bands. rewrite !List.filter_app.
      rewrite (filter_none _ pre), (filter_none _ (inserted_bands (L + 1) (b + 1) vs)).
      * destruct (Z.ltb 1 (b + 1)); simpl; rewrite ?Z.eqb_refl; reflexivity.
      * intros r Hr. apply inserted_bands_ids in Hr. apply Z.eqb_neq. lia.
      * intros r Hr. apply Hpre in Hr. apply Z.eqb_neq. lia.
    + intros x Hin. apply Hx in Hin. apply Z.eqb_neq. lia.
    + intros t Hin. apply Ht in Hin. apply Z.eqb_neq. lia.
  - intros t Hin. apply Ht in Hin. lia.
  - intros x Hin. apply Hx in Hin. lia.
  - intros r Hr. apply in_app_iff in Hr as [Hr|Hr]; [apply Hpre in Hr; lia|].
    destruct (Z.ltb 1 (b + 1)); [|destruct Hr]. destruct Hr as [<-|[]]. simpl. lia.
  - rewrite Hb. simpl. now rewrite app_assoc.
Qed.

Lemma inserted_view_bands (prop : property_row) (member : membership_row) (vs : list string) :
  forall (L b : Z), 1 <= b ->
  Forall (fun r => exists n, v_band_id r = Some n /\ b + 1 <= n)
    (inserted_view prop member L b vs).
Proof.
  induction vs as [|v vs IH]; intros L b Hb; simpl; constructor.
  - simpl. destruct (Z.ltb_spec 1 (b + 1)); [|lia]. eexists. split; [reflexivity|lia].
  - eapply Forall_impl; [apply IH; lia|]. simpl. intros r (n & -> & Hn).
    eexists. split; [reflexivity|lia].
Qed.

(** The inserted rows come out of the view already in band order. *)
Lemma inserted_view_sorted (prop : property_row) (member : membership_row) (vs : list string) :
  forall (L b : Z), 0 <= b ->
  StronglySorted (fun r1 r2 => by_band r1 r2 = true) (inserted_view prop member L b vs).
Proof.
  induction vs as [|v vs IH]; intros L b Hb; simpl; constructor.
  - apply IH. lia.
  - eapply Forall_impl; [apply (inserted_view_bands prop member vs (L + 1) (b + 1)); lia|].
    simpl. intros r (n & Hn & Hle). unfold by_band. simpl. rewrite Hn.
    destruct (Z.ltb 1 (b + 1)); simpl; [apply Z.leb_le; lia|reflexivity].
Qed.

Lemma inserted_view_values (prop : property_row) (member : membership_row) (vs : list string) :
  forall (L b : Z), List.map v_value (inserted_view prop member L b vs) = vs.
Proof. induction vs as [|v vs IH]; intros L b; simpl; [reflexivity|]. now rewrite IH. Qed.

Lemma inserted_view_owned (prop : property_row) (member : membership_row) (vs : list string)
    (oid tid : Z) (name : string) :
  p_name prop = name -> child_object_id member = oid -> parent_object_id member = tid ->
  forall (L b : Z),
  List.filter (owned_by oid name tid) (inserted_view prop member L b vs)
  = inserted_view prop member L b vs.
Proof.
  intros <- <- <-. induction vs as [|v vs IH]; intros L b; simpl; [reflexivity|].
  unfold owned_by at 1. simpl. rewrite !Z.eqb_refl, String.eqb_refl. simpl. now rewrite IH.
Qed.

(** What [get_mask_value] stores reads back as the value given. *)
Lemma get_mask_value_display (mask : option string) (v k : string) :
  mask_is_mapping mask = true ->
  get_mask_value v mask = Ok k -> display_of mask k = v.
Proof.
  intros Hm Hget. destruct (truthy mask) eqn:Ht.
  - destruct (mask_roundtrip mask v Hm Ht) as [Hin Hnot].
    destruct (List.in_dec string_dec v (List.map snd (pairs_of mask))) as [H|H].
    + destruct (Hin H) as (k' & Hk' & _ & Hd). congruence.
    + rewrite (Hnot H) in Hget. discriminate.
  - destruct (no_mask_roundtrip mask v Ht) as [H1 H2]. congruence.
Qed.

Lemma well_formed_facts (c : COAD) :
  well_formed c = true ->
  has_table c "data" = true /\ has_table c "band" = true /\ has_table c "tag" = true
  /\ has_table c "text" = true /\ has_table c "config" = true /\ has_data_uid c = true
  /\ List.NoDup (List.map property_id (property_t (work c)))
  /\ List.NoDup (List.map membership_id (membership_t (work c)))
  /\ references_data (work c) (List.map b_data_id (band_t (work c))) = true
  /\ references_data (work c) (List.map t_data_id (tag_t (work c))) = true
  /\ references_data (work c) (List.map x_data_id (text_t (work c))) = true
  /\ (forall p, In p (property_t (work c)) -> mask_is_mapping (input_mask p) = true).
Proof.
  unfold well_formed. rewrite !andb_true_iff.
  intros [[[[[[[[[[[H1 H2] H3] H4] H5] H6] H7] H8] H9] H10] H11] H12].
  repeat split; auto using nodup_ids_NoDup.
  now apply forallb_forall.
Qed.

Lemma flat_map_ext_in {A B} (f g : A -> list B) (l : list A) :
  (forall x, In x l -> f x = g x) -> List.flat_map f l = List.flat_map g l.
Proof.
  induction l as [|x l IH]; simpl; intros H; [reflexivity|].
  rewrite (H x (or_introl eq_refl)), IH; [reflexivity|]. intros y Hy. apply H. now right.
Qed.

(** The view after an insertion does not depend on the property flags. *)
Lemma property_view_flags (c c1 : COAD) (ds : list data_row) (bs : list band_row) :
  flags_only c c1 ->
  property_view (work (add_rows ds bs c1)) = property_view (work (add_rows ds bs c)).
Proof.
  intros (_ & _ & _ & _ & (_ & _ & _ & Em & Ep) & Ed & Eb & Et & Ex & _).
  unfold property_view. cbn [add_rows work with_band_t with_data_t data_t].
  rewrite Ed. apply flat_map_ext_in. intros d _.
  apply view_of_data_ext; simpl; congruence.
Qed.

(** The view after an insertion into a well-formed store with no row for
    the property: the old rows as they were, then the inserted ones. *)
Lemma property_view_inserted (c : COAD) (prop : property_row) (member : membership_row)
    (L U : Z) (vs : list string) :
  well_formed c = true ->
  In prop (property_t (work c)) -> In member (membership_t (work c)) ->
  sql_max (List.map data_id (data_t (work c))) = Some L ->
  property_view
    (work (add_rows (inserted_data L U (membership_id member) (property_id prop) vs)
             (inserted_bands L 0 vs) c))
  = property_view (work c) ++ inserted_view prop member L 0 vs.
Proof.
  intros Hwf Hp Hm Hmax.
  destruct (well_formed_facts c Hwf)
    as (_ & _ & _ & _ & _ & _ & Hpk & Hmk & Hrb & Hrt & Hrx & _).
  unfold property_view. cbn [add_rows work with_band_t with_data_t data_t].
  rewrite flat_map_app. f_equal.
  - apply flat_map_ext_in. intros d Hd.
    apply view_of_data_ext; simpl; try reflexivity.
    apply filter_app_none. intros r Hr. apply inserted_bands_ids in Hr.
    apply Z.eqb_neq. pose proof (sql_max_ub _ _ Hmax (data_id d) (in_map _ _ _ Hd)). lia.
  - apply (view_of_inserted prop member vs L U 0 _ (band_t (work c))); simpl.
    + apply (filter_key property_id _ prop Hpk Hp).
    + apply (filter_key membership_id _ member Hmk Hm).
    + intros t Ht. apply (references_data_le _ _ _ Hrt Hmax). now apply in_map.
    + intros x Hx. apply (references_data_le _ _ _ Hrx Hmax). now apply in_map.
    + intros r Hr. apply (references_data_le _ _ _ Hrb Hmax). now apply in_map.
    + reflexivity.
Qed.

(** What the native branch without existing rows does when it returns
    normally: flags of the property, then the inserted rows. *)
Lemma native_insert_state (c c' : COAD) (self : ObjectDict) (name tag : string)
    (tag_obj : ObjectDict) (prop : property_row) (member : membership_row)
    (value : pvalue) (v : string) (vs : list string) :
  well_formed c = true ->
  native c self name tag tag_obj prop member ->
  property_rows c (object_id (o_meta self)) name (object_id (o_meta tag_obj)) = [] ->
  as_list value = v :: vs ->
  set_property self name value tag None c = (Ok tt, c') ->
  exists ks c1 L U,
    map_result (fun x => get_mask_value x (input_mask prop)) (as_list value) = Ok ks
    /\ flags_only c c1
    /\ sql_max (List.map data_id (data_t (work c))) = Some L
    /\ c' = add_rows (inserted_data L U (membership_id member) (property_id prop) ks)
              (inserted_bands L 0 ks) c1.
Proof.
  intros Hwf Hn Hzero Hval Hset.
  destruct (well_formed_facts c Hwf) as (Hdata & Hband & _ & _ & _ & Huid & _).
  rewrite (set_property_native_eval c self name tag tag_obj prop member value Hn Hdata Hband)
    in Hset.
  rewrite (zero_rows_native c self name tag tag_obj prop member Hwf Hn Hzero) in Hset.
  unfold bind, select_max_ids at 1 in Hset.
  unfold bind in Hset. rewrite (require_table_ok "data" c Hdata), Huid in Hset.
  destruct (map_result _ (as_list value)) as [ks|e] eqn:Eks; [|discriminate].
  destruct (mark_property_spec "true" prop (property_id prop) c) as (c1 & Hmark & Hflags).
  rewrite Hmark in Hset.
  pose proof (map_result_length _ _ _ Eks) as Hlen. rewrite Hval in Hlen.
  destruct ks as [|k ks]; [discriminate|].
  destruct (sql_max (List.map data_id (data_t (work c)))) as [L|] eqn:EL;
    [|now rewrite insert_values_no_max in Hset by (now left)].
  destruct (sql_max (omap uid (data_t (work c)))) as [U|] eqn:EU;
    [|now rewrite insert_values_no_max in Hset by (now right)].
  assert (Hband1 : has_table c1 "band" = true).
  { destruct Hflags as (Etl & _). unfold has_table in *. now rewrite Etl. }
  rewrite (insert_values_eval member (property_id prop) L U (k :: ks) c1 Hband1) in Hset.
  injection Hset as <-.
  exists (k :: ks), c1, L, U. auto.
Qed.

(** Reading the property back after that insertion. *)
Lemma native_insert_readback (c c' : COAD) (self : ObjectDict) (name tag : string)
    (tag_obj : ObjectDict) (prop : property_row) (member : membership_row)
    (value : pvalue) (v : string) (vs : list string) :
  well_formed c = true ->
  native c self name tag tag_obj prop member ->
  property_rows c (object_id (o_meta self)) name (object_id (o_meta tag_obj)) = [] ->
  as_list value = v :: vs ->
  set_property self name value tag None c = (Ok tt, c') ->
  get_property c' self name (TagName tag)
  = Ok (Some (match vs with [] => VScalar v | _ => VList (v :: vs) end)).
Proof.
  intros Hwf Hn Hzero Hval Hset.
  destruct (native_insert_state c c' self name tag tag_obj prop member value v vs
              Hwf Hn Hzero Hval Hset) as (ks & c1 & L & U & Eks & Hflags & EL & ->).
  destruct (well_formed_facts c Hwf)
    as (Hdata & _ & _ & _ & _ & Huid & Hpk & _ & _ & _ & _ & Hmasks).
  assert (Hnd : nodup_ids (List.map property_id (property_t (work c))) = true).
  { unfold well_formed in Hwf. repeat (apply andb_true_iff in Hwf as [Hwf ?]). assumption. }
  destruct (native_name c self name tag tag_obj prop member Hnd Hn) as [Hp Hname].
  destruct (native_member_facts c self name tag tag_obj prop member Hn) as (Hm & Hc & Hpa).
  pose proof Hflags as (Etl & Ehu & _ & _ & Hsch & _).
  unfold get_property.
  assert (Hd' : has_table (add_rows (inserted_data L U (membership_id member) (property_id prop) ks)
                             (inserted_bands L 0 ks) c1) "data" = true).
  { unfold has_table in *. cbn [add_rows table_list]. now rewrite Etl. }
  rewrite Hd'. cbn [negb resolve_tag].
  assert (Htag : get_by_hierarchy
                   (work (add_rows (inserted_data L U (membership_id member) (property_id prop) ks)
                            (inserted_bands L 0 ks) c1)) tag = Ok tag_obj).
  { destruct Hn as [Htag _ _ _]. rewrite <- Htag.
    apply get_by_hierarchy_same_schema.
    destruct Hsch as (? & ? & ? & ? & ?). repeat split; assumption. }
  rewrite Htag. cbn [rbind].
  assert (Hrows : property_rows
                    (add_rows (inserted_data L U (membership_id member) (property_id prop) ks)
                       (inserted_bands L 0 ks) c1)
                    (object_id (o_meta self)) name (object_id (o_meta tag_obj))
                  = inserted_view prop member L 0 ks).
  { unfold property_rows. cbn [add_rows has_data_uid]. rewrite Ehu, Huid.
    fold (add_rows (inserted_data L U (membership_id member) (property_id prop) ks)
            (inserted_bands L 0 ks) c1).
    rewrite (property_view_flags c c1 _ _ Hflags).
    rewrite (property_view_inserted c prop member L U ks Hwf Hp Hm EL).
    rewrite List.filter_app.
    apply property_rows_nil in Hzero. rewrite Hzero. cbn [app].
    rewrite (inserted_view_owned prop member ks _ _ name Hname Hc Hpa).
    apply order_by_sorted_id, inserted_view_sorted. lia. }
  rewrite Hrows.
  pose proof (map_result_Forall2 _ _ _ Eks) as HF. rewrite Hval in HF.
  pose proof (Hmasks prop Hp) as Hmap.
  assert (Hpaired : mask_paired (input_mask prop) = true).
  { unfold mask_is_mapping in Hmap. now apply andb_true_iff in Hmap as [? _]. }
  destruct (valdict_of_spec _ Hpaired) as (d & Hd & Hdisp).
  assert (Hvals : List.map (fun r => valmap d (v_value r)) (inserted_view prop member L 0 ks)
                  = v :: vs).
  { rewrite <- (List.map_map v_value (valmap d)), inserted_view_values.
    clear -HF Hdisp Hmap. induction HF as [|x y l l' Hxy _ IH]; simpl; [reflexivity|].
    rewrite Hdisp, (get_mask_value_display _ _ _ Hmap Hxy). now f_equal. }
  inversion HF as [|x y l l' Hxy Hrest]; subst.
  cbn [inserted_view v_input_mask]. rewrite Hd. cbn [rbind].
  change (?r :: inserted_view prop member (L + 1) (0 + 1) l')
    with (inserted_view prop member L 0 (y :: l')) in Hvals |- *.
  fold (inserted_view prop member L 0 (y :: l')).
  rewrite Hvals. destruct vs; reflexivity.
Qed.

Ltac eqb_lia :=
  repeat match goal with
  | |- context [Z.eqb ?a ?b] =>
      first [ replace (Z.eqb a b) with true by (symmetry; apply Z.eqb_eq; lia)
            | replace (Z.eqb a b) with false by (symmetry; apply Z.eqb_neq; lia) ]
  end.

Lemma effective_bands_inserted (c1 : COAD) (L U mid pid : Z) (ks : list string) (did : Z)
    (new : list band_row) :
  (forall b, In b (band_t (work c1)) -> b_data_id b <= L) ->
  L < did ->
  List.filter (fun b => Z.eqb (b_data_id b) did) (inserted_bands L 0 ks) = new ->
  effective_bands (work (add_rows (inserted_data L U mid pid ks) (inserted_bands L 0 ks) c1)) did
  = List.map (fun b => match b with None => 1 | Some n => n end) (left_outer band_id new).
Proof.
  intros Hold Hlt <-. unfold effective_bands. simpl.
  rewrite List.filter_app, (filter_none _ (band_t (work c1))); [reflexivity|].
  intros b Hb. apply Hold in Hb. apply Z.eqb_neq. lia.
Qed.


Lemma native_demo (name : string) (prop : property_row) :
  In (name, prop) [("Max Capacity", Fixture.Max_Capacity); ("Status", Fixture.Status);
                   ("Rating", Fixture.Rating)] ->
  native Fixture.demo Fixture.G1 name "System.System" Fixture.System_obj prop
    Fixture.G1_in_System.
Proof.
  intros [[= <- <-]|[[= <- <-]|[[= <- <-]|[]]]];
    (constructor; [reflexivity| |reflexivity|reflexivity]);
    eexists _, _, _; (split; [reflexivity|]); (split; [reflexivity|]);
    (split; [reflexivity|]); reflexivity.
Defined.


(* ================================================================== *)
(** * Overwriting existing rows *)
(* ================================================================== *)

Lemma map_flat_map_push {A B C} (f : B -> C) (g : A -> list B) (l : list A) :
  List.map f (List.flat_map g l) = List.flat_map (fun x => List.map f (g x)) l.
Proof.
  induction l as [|x l IH]; simpl; [reflexivity|]. now rewrite List.map_app, IH.
Qed.

Lemma flat_map_map_pull {A B C} (f : A -> B) (g : B -> list C) (l : list A) :
  List.flat_map g (List.map f l) = List.flat_map (fun x => g (f x)) l.
Proof. induction l as [|x l IH]; simpl; [reflexivity|]. now rewrite IH. Qed.

Lemma view_of_data_updated (db : database) (v : string) (did : Z) (d : data_row) :
  view_of_data (with_data_t (update_value v did) db)
    (if Z.eqb (data_id d) did then
       {| data_id := data_id d; uid := uid d; d_membership_id := d_membership_id d;
          d_property_id := d_property_id d; d_value := v |}
     else d)
  = List.map (revalue v did) (view_of_data db d).
Proof.
  unfold view_of_data.
  rewrite map_flat_map_push.
  destruct (Z.eqb (data_id d) did) eqn:E; simpl;
    apply flat_map_ext; intros p; rewrite map_flat_map_push;
    apply flat_map_ext; intros m; rewrite map_flat_map_push;
    apply flat_map_ext; intros t; rewrite map_flat_map_push;
    apply flat_map_ext; intros x; rewrite List.map_map;
    apply map_ext; intros b; unfold revalue; simpl; rewrite E; reflexivity.
Qed.

Lemma property_view_updated (db : database) (v : string) (did : Z) :
  property_view (with_data_t (update_value v did) db)
  = List.map (revalue v did) (property_view db).
Proof.
  unfold property_view. cbn [with_data_t data_t]. unfold update_value at 2.
  rewrite flat_map_map_pull, map_flat_map_push.
  apply flat_map_ext. intros d. apply view_of_data_updated.
Qed.

Lemma filter_map_commute {A} (P : A -> bool) (f : A -> A) (l : list A) :
  (forall x, P (f x) = P x) ->
  List.filter P (List.map f l) = List.map f (List.filter P l).
Proof.
  intros H. induction l as [|x l IH]; simpl; [reflexivity|].
  rewrite H. destruct (P x); simpl; now rewrite IH.
Qed.

Lemma insert_by_map {A} (le : A -> A -> bool) (f : A -> A) (x : A) (l : list A) :
  (forall a b, le (f a) (f b) = le a b) ->
  insert_by le (f x) (List.map f l) = List.map f (insert_by le x l).
Proof.
  intros H. induction l as [|y l IH]; simpl; [reflexivity|].
  rewrite H. destruct (le x y); simpl; [reflexivity|]. now rewrite IH.
Qed.

Lemma order_by_map {A} (le : A -> A -> bool) (f : A -> A) (l : list A) :
  (forall a b, le (f a) (f b) = le a b) ->
  order_by le (List.map f l) = List.map f (order_by le l).
Proof.
  intros H. induction l as [|x l IH]; simpl; [reflexivity|].
  now rewrite IH, insert_by_map.
Qed.

Lemma revalue_owned (v : string) (did oid tid : Z) (name : string) (r : view_row) :
  owned_by oid name tid (revalue v did r) = owned_by oid name tid r.
Proof. unfold revalue. now destruct (Z.eqb (v_data_id r) did). Qed.

Lemma revalue_band (v : string) (did : Z) (a b : view_row) :
  by_band (revalue v did a) (revalue v did b) = by_band a b.
Proof.
  unfold revalue, by_band.
  now destruct (Z.eqb (v_data_id a) did), (Z.eqb (v_data_id b) did).
Qed.

(** After an overwrite [get_property] sees the same rows, the value of the
    overwritten data row apart. *)
Lemma property_rows_updated (c : COAD) (v : string) (did oid tid : Z) (name : string) :
  property_rows (updated v did c) oid name tid
  = List.map (revalue v did) (property_rows c oid name tid).
Proof.
  unfold property_rows. cbn [updated work has_data_uid].
  rewrite property_view_updated.
  rewrite (filter_map_commute _ _ _ (revalue_owned v did oid tid name)).
  destruct (has_data_uid c); [|reflexivity].
  apply order_by_map, revalue_band.
Qed.

Lemma updated_same_schema (c : COAD) (v : string) (did : Z) :
  same_schema (work (updated v did c)) (work c).
Proof. repeat split. Qed.

Lemma native_rows_In (c : COAD) (mid pid did : Z) :
  In did (native_rows c mid pid) ->
  exists d, In d (data_t (work c))
            /\ data_id d = did /\ d_membership_id d = mid /\ d_property_id d = pid.
Proof.
  unfold native_rows. intros H.
  assert (Hd : exists d, In d (List.filter
                 (fun d => Z.eqb (d_membership_id d) mid && Z.eqb (d_property_id d) pid)
                 (data_t (work c))) /\ data_id d = did).
  { destruct (has_data_uid c).
    - apply in_map_iff in H as ([i b] & <- & Hin).
      eapply Permutation_in in Hin; [|apply order_by_perm].
      apply in_flat_map in Hin as (d & Hd & Hin).
      apply in_map_iff in Hin as (b' & [= <- _] & _). eauto.
    - eapply Permutation_in in H; [|apply order_by_perm].
      apply in_map_iff in H as (d & <- & Hd). eauto. }
  destruct Hd as (d & Hd & <-). apply filter_In in Hd as [Hin Hb].
  apply andb_true_iff in Hb as [H1 H2]. apply Z.eqb_eq in H1, H2. eauto.
Qed.

Lemma view_of_data_row_fields (db : database) (d : data_row) (r : view_row) :
  In r (view_of_data db d) ->
  v_data_id r = data_id d
  /\ exists p, In p (property_t db) /\ property_id p = d_property_id d
               /\ v_input_mask r = input_mask p /\ v_name r = p_name p.
Proof.
  unfold view_of_data. intros H.
  apply in_flat_map in H as (p & Hp & H). apply filter_In in Hp as [Hp Ep].
  apply in_flat_map in H as (m & _ & H).
  apply in_flat_map in H as (t & _ & H).
  apply in_flat_map in H as (x & _ & H).
  apply in_map_iff in H as (b & <- & _). simpl.
  split; [reflexivity|]. exists p. apply Z.eqb_eq in Ep. auto.
Qed.

(** When [get_property] sees one row and [set_property] one data row, it is
    the same row, of the native property. *)
Lemma one_row_is_native (c : COAD) (self : ObjectDict) (name tag : string)
    (tag_obj : ObjectDict) (prop : property_row) (member : membership_row)
    (did : Z) (r : view_row) :
  well_formed c = true ->
  native c self name tag tag_obj prop member ->
  In did (native_rows c (membership_id member) (property_id prop)) ->
  property_rows c (object_id (o_meta self)) name (object_id (o_meta tag_obj)) = [r] ->
  v_data_id r = did /\ v_input_mask r = input_mask prop.
Proof.
  intros Hwf Hn Hdid Hrows.
  destruct (well_formed_facts c Hwf) as (_ & _ & _ & _ & _ & _ & Hpk & _).
  assert (Hnd : nodup_ids (List.map property_id (property_t (work c))) = true).
  { unfold well_formed in Hwf. repeat (apply andb_true_iff in Hwf as [Hwf ?]). assumption. }
  destruct (native_name c self name tag tag_obj prop member Hnd Hn) as [Hp Hname].
  destruct (native_member_facts c self name tag tag_obj prop member Hn) as (Hm & Hc & Hpa).
  destruct (native_rows_In c _ _ _ Hdid) as (d & Hd & Eid & Em & Ep).
  destruct (view_of_data_has_row (work c) d prop member Hp (eq_sym Ep) Hm (eq_sym Em))
    as (r0 & Hr0 & Hrn & Hrc & Hrp).
  assert (Hin : In r0 (property_rows c (object_id (o_meta self)) name
                         (object_id (o_meta tag_obj)))).
  { eapply Permutation_in; [symmetry; apply property_rows_perm|].
    apply filter_In. split.
    - unfold property_view. apply in_flat_map. eauto.
    - unfold owned_by. rewrite Hrn, Hrc, Hrp, Hname, Hc, Hpa.
      now rewrite !Z.eqb_refl, String.eqb_refl. }
  rewrite Hrows in Hin. destruct Hin as [<-|[]].
  destruct (view_of_data_row_fields _ _ _ Hr0) as (Erid & p & Hp' & Epid & Emask & _).
  split; [congruence|].
  rewrite Emask. f_equal.
  pose proof (filter_key property_id _ p Hpk Hp') as F1.
  pose proof (filter_key property_id _ prop Hpk Hp) as F2.
  rewrite Epid, Ep in F1. rewrite F1 in F2. congruence.
Qed.

(** The branch for one existing row, evaluated. *)
Lemma set_scalar_one_row (c : COAD) (self : ObjectDict) (name tag : string)
    (tag_obj : ObjectDict) (prop : property_row) (member : membership_row)
    (did : Z) (v : string) :
  well_formed c = true ->
  native c self name tag tag_obj prop member ->
  native_rows c (membership_id member) (property_id prop) = [did] ->
  set_property self name (VScalar v) tag None c
  = match get_mask_value v (input_mask prop) with
    | Ok k => (Ok tt, updated k did c)
    | Raise e => (Raise e, c)
    end.
Proof.
  intros Hwf Hn Hrows.
  destruct (well_formed_facts c Hwf) as (Hdata & Hband & _).
  rewrite (set_property_native_eval c self name tag tag_obj prop member _ Hn Hdata Hband), Hrows.
  unfold bind. destruct (get_mask_value v (input_mask prop)); reflexivity.
Qed.

(** Reading back after the overwrite of the one row. *)
Lemma get_after_update (c : COAD) (self : ObjectDict) (name tag : string)
    (tag_obj : ObjectDict) (prop : property_row) (member : membership_row)
    (did : Z) (r : view_row) (v k : string) :
  well_formed c = true ->
  native c self name tag tag_obj prop member ->
  native_rows c (membership_id member) (property_id prop) = [did] ->
  property_rows c (object_id (o_meta self)) name (object_id (o_meta tag_obj)) = [r] ->
  get_mask_value v (input_mask prop) = Ok k ->
  get_property (updated k did c) self name (TagName tag) = Ok (Some (VScalar v)).
Proof.
  intros Hwf Hn Hnr Hrows Hk.
  destruct (well_formed_facts c Hwf)
    as (Hdata & _ & _ & _ & _ & _ & _ & _ & _ & _ & _ & Hmasks).
  assert (Hnd : nodup_ids (List.map property_id (property_t (work c))) = true).
  { unfold well_formed in Hwf. repeat (apply andb_true_iff in Hwf as [Hwf ?]). assumption. }
  destruct (native_name c self name tag tag_obj prop member Hnd Hn) as [Hp _].
  destruct (one_row_is_native c self name tag tag_obj prop member did r Hwf Hn
              ltac:(rewrite Hnr; now left) Hrows) as [Erid Emask].
  pose proof (Hmasks prop Hp) as Hmap.
  assert (Hpaired : mask_paired (input_mask prop) = true).
  { unfold mask_is_mapping in Hmap. now apply andb_true_iff in Hmap as [? _]. }
  destruct (valdict_of_spec _ Hpaired) as (d & Hd & Hdisp).
  unfold get_property.
  change (has_table (updated k did c) "data") with (has_table c "data"). rewrite Hdata.
  cbn [negb resolve_tag].
  rewrite (get_by_hierarchy_same_schema _ _ tag (updated_same_schema c k did)).
  destruct Hn as [Htag _ _ _]. rewrite Htag. cbn [rbind].
  rewrite property_rows_updated, Hrows. cbn [List.map].
  unfold revalue at 1. rewrite Erid, Z.eqb_refl. cbn [v_input_mask].
  rewrite Emask, Hd. cbn [rbind List.map].
  unfold revalue. rewrite Erid, Z.eqb_refl. cbn [v_value].
  now rewrite Hdisp, (get_mask_value_display _ _ _ Hmap Hk).
Qed.

(* ================================================================== *)
(** * The claims about masks and arity *)
(* ================================================================== *)



Lemma for_each_overwrite (mask : option string) (l : list string) (ks : list string) :
  Forall2 (fun v k => get_mask_value v mask = Ok k) l ks ->
  forall (rows : list Z) (c : COAD),
  for_each (combine l rows) (fun '(raw_val, data) =>
    let* m_value := (fun c => (get_mask_value raw_val mask, c)) in
    let* _ := execute (with_data_t (update_value m_value data)) in
    commit) c
  = (Ok tt, overwritten (combine ks rows) c).
Proof.
  induction 1 as [|v k l ks Hvk _ IH]; intros rows c; [reflexivity|].
  destruct rows as [|did rows]; [reflexivity|].
  cbn [combine]. rewrite for_each_cons. unfold bind at 1. rewrite Hvk.
  unfold bind, execute, commit. cbn [overwritten fold_left fst snd].
  fold (updated k did c). apply IH.
Qed.

Lemma overwritten_data (pairs : list (string * Z)) :
  forall c : COAD,
  data_t (work (overwritten pairs c))
  = fold_left (fun t kd => update_value (fst kd) (snd kd) t) pairs (data_t (work c))
  /\ property_t (work (overwritten pairs c)) = property_t (work c)
  /\ band_t (work (overwritten pairs c)) = band_t (work c)
  /\ tag_t (work (overwritten pairs c)) = tag_t (work c)
  /\ text_t (work (overwritten pairs c)) = text_t (work c)
  /\ (pairs <> [] -> durable (overwritten pairs c) = work (overwritten pairs c)).
Proof.
  induction pairs as [|[k did] pairs IH]; intros c.
  - repeat split. intros H. now destruct H.
  - cbn [overwritten fold_left fst snd]. fold (overwritten pairs (updated k did c)).
    destruct (IH (updated k did c)) as (Hd & Hp & Hb & Ht & Hx & Hdur).
    repeat split; try assumption.
    intros _. destruct pairs as [|kd pairs]; [reflexivity|]. apply Hdur. discriminate.
Qed.

Lemma by_key_total (a b : Z * option Z) : by_key a b = true \/ by_key b a = true.
Proof. apply null_first_total. Qed.

Lemma by_key_trans (a b c : Z * option Z) :
  by_key a b = true -> by_key b c = true -> by_key a c = true.
Proof. apply null_first_trans. Qed.



(* ================================================================== *)
(** * The serializer *)
(* ================================================================== *)

Lemma ascii_compare_refl (a : ascii) : Ascii.compare a a = Eq.
Proof. unfold Ascii.compare. apply N.compare_refl. Qed.

Lemma ascii_compare_lt_trans (a b c : ascii) :
  Ascii.compare a b = Lt -> Ascii.compare b c = Lt -> Ascii.compare a c = Lt.
Proof.
  unfold Ascii.compare. rewrite !N.compare_lt_iff. lia.
Qed.

(** The order of [sorted] on strings is transitive. *)
Lemma string_compare_trans (s1 : string) :
  forall s2 s3,
  String.compare s1 s2 <> Gt -> String.compare s2 s3 <> Gt -> String.compare s1 s3 <> Gt.
Proof.
  induction s1 as [|a s1 IH]; intros [|b s2] [|c s3]; simpl; try congruence.
  destruct (Ascii.compare a b) eqn:Eab; try congruence;
    destruct (Ascii.compare b c) eqn:Ebc; try congruence.
  - apply Ascii.compare_eq_iff in Eab, Ebc. subst. rewrite ascii_compare_refl. apply IH.
  - apply Ascii.compare_eq_iff in Eab. subst. rewrite Ebc. congruence.
  - apply Ascii.compare_eq_iff in Ebc. subst. rewrite Eab. congruence.
  - rewrite (ascii_compare_lt_trans a b c Eab Ebc). congruence.
Qed.

Lemma string_leb_trans (s1 s2 s3 : string) :
  String.leb s1 s2 = true -> String.leb s2 s3 = true -> String.leb s1 s3 = true.
Proof.
  unfold String.leb. intros H1 H2.
  pose proof (string_compare_trans s1 s2 s3) as H.
  destruct (String.compare s1 s2), (String.compare s2 s3), (String.compare s1 s3);
    try reflexivity; try discriminate; exfalso; apply H; congruence.
Qed.

Lemma sorted_is_sorted (names : list string) :
  StronglySorted (fun a b => String.leb a b = true) (sorted names).
Proof. apply order_by_sorted; [apply String.leb_total|apply string_leb_trans]. Qed.

Lemma filter_StronglySorted {A} (R : A -> A -> Prop) (P : A -> bool) (l : list A) :
  StronglySorted R l -> StronglySorted R (List.filter P l).
Proof.
  induction 1 as [|x l Hs IH Hx]; simpl; [constructor|].
  destruct (P x); [|exact IH]. constructor; [exact IH|].
  apply List.Forall_forall. intros y Hy. apply filter_In in Hy as [Hy _].
  eapply List.Forall_forall in Hx; eauto.
Qed.

Lemma table_names_In (db : sqlite_db) (n : string) :
  In n (table_names db) <-> is_Some (tables db !! n).
Proof.
  unfold table_names. rewrite in_map_iff. split.
  - intros ([k t] & <- & Hin). apply list_elem_of_In, elem_of_map_to_list in Hin.
    simpl. eauto.
  - intros [t Ht]. exists (n, t). split; [reflexivity|].
    now apply list_elem_of_In, elem_of_map_to_list.
Qed.

Lemma table_names_NoDup (db : sqlite_db) : List.NoDup (table_names db).
Proof. apply NoDup_ListNoDup. apply (NoDup_fst_map_to_list (tables db)). Qed.

Lemma add_fields_spec (kvs : list (string * option string)) :
  forall acc,
  fold_left add_field kvs acc
  = acc ++ List.flat_map (fun kv : string * option string =>
             match snd kv with
             | Some val => [(fst kv, val)]
             | None => []
             end) kvs.
Proof.
  induction kvs as [|[k v] kvs IH]; intros acc; simpl; [now rewrite app_nil_r|].
  rewrite IH. unfold add_field. simpl. destruct v; simpl; [|reflexivity].
  now rewrite <- app_assoc.
Qed.

Lemma row_element_spec (table_name : string) (row_keys : list string)
    (row : list (option string)) :
  row_element table_name row_keys row
  = {| e_tag := String.append "t_" table_name;
       e_children := present_fields row_keys row |}.
Proof. unfold row_element, present_fields. now rewrite add_fields_spec. Qed.

Lemma save_rows_spec {A} (f : A -> xml_element) (l : list A) :
  forall out, fold_left (fun out row => out ++ [f row]) l out = out ++ List.map f l.
Proof.
  induction l as [|x l IH]; intros out; simpl; [now rewrite app_nil_r|].
  rewrite IH. now rewrite <- app_assoc.
Qed.

Lemma save_table_spec (db : sqlite_db) (out : list xml_element) (n : string) :
  save_table db out n
  = out ++ (if String.eqb n META_TABLE then [] else table_elements db n).
Proof.
  unfold save_table, table_elements.
  destruct (String.eqb n META_TABLE); [now rewrite app_nil_r|].
  destruct (tables db !! n) as [t|]; [|now rewrite app_nil_r].
  rewrite save_rows_spec. f_equal. apply map_ext. intros row. apply row_element_spec.
Qed.

Lemma save_tables_spec (db : sqlite_db) (names : list string) :
  forall out,
  fold_left (save_table db) names out
  = out ++ List.flat_map (table_elements db)
             (List.filter (fun n => negb (String.eqb n META_TABLE)) names).
Proof.
  induction names as [|n names IH]; intros out; simpl; [now rewrite app_nil_r|].
  rewrite IH, save_table_spec.
  destruct (String.eqb n META_TABLE); simpl; now rewrite <- ?app_assoc, ?app_nil_r.
Qed.

(** A field is written exactly when its cell is set; an empty string is
    set. *)
Lemma present_fields_In (row_keys : list string) (row : list (option string))
    (k v : string) :
  In (k, v) (present_fields row_keys row) <-> In (k, Some v) (combine row_keys row).
Proof.
  unfold present_fields. rewrite in_flat_map. split.
  - intros ([k' [v'|]] & Hin & H); simpl in H; [|destruct H].
    destruct H as [[= <- <-]|[]]. exact Hin.
  - intros H. exists (k, Some v). split; [exact H|]. now left.
Qed.

(** The written field names are the set columns, in column order. *)
Lemma present_fields_names (row_keys : list string) (row : list (option string)) :
  List.map fst (present_fields row_keys row)
  = List.map fst (List.filter (fun kv : string * option string =>
                                 match snd kv with Some _ => true | None => false end)
                    (combine row_keys row)).
Proof.
  unfold present_fields.
  induction (combine row_keys row) as [|[k [v|]] l IH]; simpl; [reflexivity| |exact IH].
  now rewrite IH.
Qed.

Lemma plexos_meta_fold (meta_rows : list (option string * option string)) (key : string) :
  forall d : gmap string (option string),
  fold_left (fun d '(k, v) =>
    match k with
    | Some key => <[key := v]> d
    | None => d
    end) meta_rows d !! key
  = match last_meta meta_rows key with
    | Some x => Some x
    | None => d !! key
    end.
Proof.
  induction meta_rows as [|[k v] rest IH]; intros d; simpl; [reflexivity|].
  rewrite IH. destruct (last_meta rest key); [reflexivity|].
  destruct k as [k'|]; [|reflexivity].
  destruct (String.eqb_spec k' key) as [->|Hne].
  - apply lookup_insert_eq.
  - now apply lookup_insert_ne.
Qed.

(** C8.  What [save] writes, when it returns: the tables other than the
    metadata table in ascending string order of their names, each exactly
    once; for each table one [t_<name>] element per row, in row order, whose
    sub-elements are the columns in declaration order, a column left out
    exactly when its cell is unset (an empty string is written); and as
    root element and namespace the values the metadata table holds. *)
Theorem save_layout (db : sqlite_db) (doc : document) :
  save db = Ok doc ->
  let names := List.filter (fun n => negb (String.eqb n META_TABLE))
                 (sorted (table_names db)) in
  StronglySorted (fun a b => String.leb a b = true) names
  /\ List.NoDup names
  /\ (forall n, In n names <-> n <> META_TABLE /\ is_Some (tables db !! n))
  /\ body doc = List.flat_map (table_elements db) names
  /\ (forall n t, tables db !! n = Some t ->
        table_elements db n
        = List.map (fun row =>
            {| e_tag := String.append "t_" n;
               e_children := present_fields (List.map col_name (columns t)) row |}) (rows t))
  /\ (forall row_keys row k v,
        In (k, v) (present_fields row_keys row) <-> In (k, Some v) (combine row_keys row))
  /\ (forall row_keys row,
        List.map fst (present_fields row_keys row)
        = List.map fst (List.filter (fun kv : string * option string =>
                                       match snd kv with Some _ => true | None => false end)
                          (combine row_keys row)))
  /\ (forall meta_rows, select_meta db = Some meta_rows ->
        exists r ns,
          last_meta meta_rows "root_element" = Some r
          /\ last_meta meta_rows "namespace" = Some ns
          /\ root doc = percent_s r /\ xmlns doc = percent_s ns).
Proof.
  intros Hsave names.
  assert (Hperm : Permutation (sorted (table_names db)) (table_names db))
    by apply order_by_perm.
  split; [apply filter_StronglySorted, sorted_is_sorted|].
  split.
  { apply List.NoDup_filter. eapply Permutation_NoDup; [symmetry; exact Hperm|].
    apply table_names_NoDup. }
  split.
  { intros n. unfold names. rewrite filter_In, negb_true_iff.
    rewrite <- table_names_In. split.
    - intros [Hin Hne]. split; [intros ->; now rewrite String.eqb_refl in Hne|].
      eapply Permutation_in; eauto.
    - intros [Hne Hin]. split; [eapply Permutation_in; [symmetry|]; eauto|].
      now apply String.eqb_neq. }
  unfold save in Hsave.
  destruct (plexos_meta db !! "root_element") as [r|] eqn:Er; [|discriminate].
  destruct (plexos_meta db !! "namespace") as [ns|] eqn:Ens; [|discriminate].
  injection Hsave as <-. cbn [body root xmlns].
  split; [now rewrite save_tables_spec|].
  split; [intros n t Ht; unfold table_elements; now rewrite Ht|].
  split; [apply present_fields_In|].
  split; [apply present_fields_names|].
  intros meta_rows Hmeta. unfold plexos_meta in Er, Ens. rewrite Hmeta in Er, Ens.
  rewrite plexos_meta_fold in Er, Ens. rewrite lookup_empty in Er, Ens.
  destruct (last_meta meta_rows "root_element") as [r'|]; [|discriminate].
  destruct (last_meta meta_rows "namespace") as [ns'|]; [|discriminate].
  exists r', ns'. repeat split; congruence.
Qed.

Lemma save_layout_witness :
  load Fixture.demo_namespace Fixture.demo_root Fixture.demo_records = Ok Fixture.demo_store
  /\ save Fixture.demo_store = Ok Fixture.demo_doc
  /\ List.map e_tag (body Fixture.demo_doc) = ["t_class"; "t_class"; "t_object"; "t_object"].
Proof.
  split; [vm_compute; reflexivity|].
  assert (Hsave : save Fixture.demo_store = Ok Fixture.demo_doc) by (vm_compute; reflexivity).
  split; [exact Hsave|].
  destruct (save_layout Fixture.demo_store Fixture.demo_doc Hsave) as (_ & _ & _ & Hbody & _).
  reflexivity.
Defined.

(* ================================================================== *)
(** * The loader: keys, the first pass and the rebuild *)
(* ================================================================== *)

Lemma to_int_not_nil (k : Z) :
  Z.to_int k <> Decimal.Pos Decimal.Nil /\ Z.to_int k <> Decimal.Neg Decimal.Nil.
Proof.
  split; intros H; pose proof (DecimalZ.of_to k) as E; rewrite H in E;
    simpl in E; subst k; discriminate H.
Qed.

(** [int(str(k)) = k] for a 64-bit [k]. *)
Lemma int_of_text_str_of_Z (k : Z) :
  - 2 ^ 63 <= k < 2 ^ 63 -> int_of_text (str_of_Z k) = Some k.
Proof.
  intros Hk. unfold int_of_text, str_of_Z.
  destruct (to_int_not_nil k) as [H1 H2].
  rewrite (NilZero.isi _ H1 H2), DecimalZ.of_to. cbv zeta.
  replace (Z.leb (- 2 ^ 63) k) with true by (symmetry; apply Z.leb_le; lia).
  replace (Z.ltb k (2 ^ 63)) with true by (symmetry; apply Z.ltb_lt; lia).
  reflexivity.
Qed.

Lemma int_of_text_range (s : string) (k : Z) :
  int_of_text s = Some k -> - 2 ^ 63 <= k < 2 ^ 63.
Proof.
  unfold int_of_text. destruct (NilZero.int_of_string s) as [d|]; [|discriminate].
  cbv zeta. destruct (Z.leb_spec (- 2 ^ 63) (Z.of_int d)); [|discriminate].
  destruct (Z.ltb_spec (Z.of_int d) (2 ^ 63)); [|discriminate].
  simpl. intros [= <-]. lia.
Qed.

Lemma canonical_key (i : nat) (r : list (option string)) (k : Z) :
  r !! i = Some (Some (str_of_Z k)) -> int_of_text (str_of_Z k) = Some k -> key_of i r = k.
Proof. intros Hr Hk. unfold key_of. now rewrite Hr, Hk. Qed.

Lemma canonical_range (i : nat) (r : list (option string)) :
  canonical i r -> - 2 ^ 63 <= key_of i r < 2 ^ 63.
Proof.
  intros (k & Hr & Hk). rewrite (canonical_key i r k Hr Hk).
  eapply int_of_text_range; eauto.
Qed.

Lemma canonical_set (i : nat) (r : list (option string)) (k : Z) :
  (i < List.length r)%nat -> - 2 ^ 63 <= k < 2 ^ 63 ->
  canonical i (<[i := Some (str_of_Z k)]> r) /\ key_of i (<[i := Some (str_of_Z k)]> r) = k.
Proof.
  intros Hi Hk. pose proof (int_of_text_str_of_Z k Hk) as E.
  assert (Hl : <[i := Some (str_of_Z k)]> r !! i = Some (Some (str_of_Z k)))
    by now apply list_lookup_insert_eq.
  split; [now exists k|]. now apply canonical_key.
Qed.

(** Storing a canonical row again leaves it as it is. *)
Lemma canonical_id (i : nat) (r : list (option string)) :
  canonical i r ->
  mjoin (r !! i) = Some (str_of_Z (key_of i r))
  /\ int_of_text (str_of_Z (key_of i r)) = Some (key_of i r)
  /\ <[i := Some (str_of_Z (key_of i r))]> r = r.
Proof.
  intros (k & Hr & Hk). rewrite (canonical_key i r k Hr Hk).
  split; [now rewrite Hr|]. split; [exact Hk|]. now apply list_insert_id.
Qed.

Lemma pk_index_lt (cols : list column) (i : nat) :
  pk_index cols = Some i -> (i < List.length cols)%nat.
Proof.
  revert i. induction cols as [|c cols IH]; simpl; intros i; [discriminate|].
  destruct (col_pk c); [intros [= <-]; lia|].
  destruct (pk_index cols) as [j|]; simpl; [|discriminate].
  intros [= <-]. specialize (IH j eq_refl). lia.
Qed.

Lemma pk_index_app (cols : list column) (c : column) :
  col_pk c = false -> pk_index (cols ++ [c]) = pk_index cols.
Proof.
  intros Hc. induction cols as [|c' cols IH]; simpl; [now rewrite Hc|].
  destruct (col_pk c'); [reflexivity|]. now rewrite IH.
Qed.

(** ** Ascending keys *)

Lemma insert_by_key (i : nat) (x : list (option string)) (rs : list (list (option string))) :
  List.map (key_of i) (insert_by (key_le i) x rs)
  = insert_by Z.leb (key_of i x) (List.map (key_of i) rs).
Proof.
  induction rs as [|y rs IH]; simpl; [reflexivity|].
  unfold key_le at 1. destruct (Z.leb (key_of i x) (key_of i y)); simpl; [reflexivity|].
  now rewrite IH.
Qed.

Lemma insert_ascending (k : Z) (ks : list Z) :
  StronglySorted Z.lt ks -> ~ In k ks -> StronglySorted Z.lt (insert_by Z.leb k ks).
Proof.
  induction 1 as [|y ks Hs IH Hy]; simpl; intros Hin.
  - repeat constructor.
  - destruct (Z.leb_spec k y) as [Hle|Hlt].
    + assert (k < y) by (assert (y <> k) by tauto; lia).
      constructor; [now constructor|]. constructor; [assumption|].
      eapply Forall_impl; [exact Hy|]. simpl. intros; lia.
    + constructor; [apply IH; tauto|].
      eapply Permutation_Forall; [symmetry; apply insert_by_perm|].
      constructor; [lia|exact Hy].
Qed.

Lemma insert_last (i : nat) (x : list (option string)) (rs : list (list (option string))) :
  Forall (fun y => key_of i y < key_of i x) rs -> insert_by (key_le i) x rs = rs ++ [x].
Proof.
  induction 1 as [|y rs Hy _ IH]; simpl; [reflexivity|].
  unfold key_le at 1. destruct (Z.leb_spec (key_of i x) (key_of i y)); [lia|].
  now rewrite IH.
Qed.

Lemma ascending_snoc (ks : list Z) (k : Z) :
  StronglySorted Z.lt ks -> Forall (fun y => y < k) ks -> StronglySorted Z.lt (ks ++ [k]).
Proof.
  induction 1 as [|y ks Hs IH Hy]; simpl; intros Hk.
  - repeat constructor.
  - apply Forall_cons_1 in Hk as [Hyk Hk]. constructor; [now apply IH|].
    apply Forall_app. split; [exact Hy|]. now repeat constructor.
Qed.

Lemma ascending_last (ks : list Z) (k : Z) :
  StronglySorted Z.lt ks -> last ks = Some k -> Forall (fun y => y <= k) ks.
Proof.
  induction 1 as [|y ks Hs IH Hy]; [constructor|].
  destruct ks as [|z ks]; simpl.
  - intros [= <-]. repeat constructor. lia.
  - intros Hl. specialize (IH Hl). constructor; [|exact IH].
    apply Forall_cons_1 in Hy as [Hyz _]. apply Forall_cons_1 in IH as [Hzk _]. lia.
Qed.

Lemma ascending_app (l1 l2 : list Z) :
  StronglySorted Z.lt (l1 ++ l2) ->
  StronglySorted Z.lt l1 /\ StronglySorted Z.lt l2
  /\ forall a b, In a l1 -> In b l2 -> a < b.
Proof.
  induction l1 as [|x l1 IH]; simpl; intros H.
  - split; [constructor|]. split; [exact H|]. intros a b [].
  - apply StronglySorted_inv in H as [Hs Hx]. destruct (IH Hs) as (H1 & H2 & H3).
    apply Forall_app in Hx as [Hx1 Hx2].
    split; [now constructor|]. split; [exact H2|].
    intros a b [<-|Ha] Hb; [|now apply H3].
    rewrite Forall_forall in Hx2. apply Hx2. now apply list_elem_of_In.
Qed.

Lemma last_In {A} (l : list A) (x : A) : last l = Some x -> In x l.
Proof.
  induction l as [|y l IH]; [discriminate|].
  destruct l as [|z l]; [intros [= <-]; now left|]. intros H. right. now apply IH.
Qed.

Lemma last_map {A B} (f : A -> B) (l : list A) :
  last (List.map f l) = option_map f (last l).
Proof.
  induction l as [|y l IH]; [reflexivity|].
  destruct l as [|z l]; [reflexivity|]. exact IH.
Qed.

(** ** One row stored *)

Lemma insert_row_plain (cols : list column) (rs : list (list (option string)))
    (r : list (option string)) :
  pk_index cols = None -> insert_row cols rs r = Ok (rs ++ [r]).
Proof. intros H. unfold insert_row. now rewrite H. Qed.

(** A keyed table stays in order when a row is stored in it. *)
Lemma insert_row_ok (cols : list column) (i : nat) (rs rs' : list (list (option string)))
    (r : list (option string)) :
  pk_index cols = Some i -> (i < List.length r)%nat ->
  Forall (canonical i) rs -> StronglySorted Z.lt (List.map (key_of i) rs) ->
  insert_row cols rs r = Ok rs' ->
  Forall (canonical i) rs' /\ StronglySorted Z.lt (List.map (key_of i) rs').
Proof.
  intros Hpk Hi Hc Hs. unfold insert_row. rewrite Hpk.
  destruct (mjoin (r !! i)) as [s|].
  - destruct (int_of_text s) as [k|] eqn:Ek; [|discriminate].
    destruct (existsb (Z.eqb k) (List.map (key_of i) rs)) eqn:Eex; [discriminate|].
    intros [= <-].
    destruct (canonical_set i r k Hi (int_of_text_range _ _ Ek)) as [Hck Hkey].
    split.
    + eapply Permutation_Forall; [symmetry; apply insert_by_perm|]. now constructor.
    + rewrite insert_by_key, Hkey. apply insert_ascending; [exact Hs|].
      intros Hin. apply existsb_Zeqb_In in Hin. congruence.
  - unfold next_key. destruct (last rs) as [r0|] eqn:El; simpl.
    + destruct (Z.ltb_spec (key_of i r0) (2 ^ 63 - 1)) as [Hlt|]; simpl; [|discriminate].
      intros [= <-].
      assert (Hr0 : canonical i r0).
      { rewrite Forall_forall in Hc. apply Hc, list_elem_of_In. now apply last_In. }
      apply canonical_range in Hr0.
      destruct (canonical_set i r (key_of i r0 + 1) Hi ltac:(lia)) as [Hck Hkey].
      split; [apply Forall_app; split; [exact Hc|now repeat constructor]|].
      rewrite List.map_app. simpl. rewrite Hkey. apply ascending_snoc; [exact Hs|].
      eapply Forall_impl; [apply (ascending_last _ (key_of i r0) Hs)|].
      * rewrite last_map, El. reflexivity.
      * simpl. intros; lia.
    + intros [= <-]. apply last_None in El. subst rs.
      destruct (canonical_set i r 1 Hi ltac:(lia)) as [Hck Hkey].
      split; [now repeat constructor|]. simpl. repeat constructor.
Qed.

(** ** The copy of the rebuild *)

Lemma copy_plain (cols : list column) (l acc : list (list (option string))) :
  pk_index cols = None -> fold_result (insert_row cols) l acc = Ok (acc ++ l).
Proof.
  intros Hpk. revert acc. induction l as [|r l IH]; intros acc; simpl.
  - now rewrite app_nil_r.
  - rewrite insert_row_plain by exact Hpk. simpl. rewrite IH. now rewrite <- app_assoc.
Qed.

(** Rows in ascending key order are copied as they are. *)
Lemma copy_keyed (cols : list column) (i : nat) (l acc : list (list (option string))) :
  pk_index cols = Some i ->
  Forall (canonical i) l ->
  StronglySorted Z.lt (List.map (key_of i) (acc ++ l)) ->
  fold_result (insert_row cols) l acc = Ok (acc ++ l).
Proof.
  intros Hpk. revert acc. induction l as [|r l IH]; intros acc Hc Hs; simpl.
  - now rewrite app_nil_r.
  - apply Forall_cons_1 in Hc as [Hr Hc].
    destruct (canonical_id i r Hr) as (Hj & Hk & Hid).
    rewrite List.map_app in Hs. simpl in Hs.
    destruct (ascending_app _ _ Hs) as (_ & _ & Hlt).
    assert (Hacc : Forall (fun y => key_of i y < key_of i r) acc).
    { apply Forall_forall. intros y Hy. apply Hlt; [|now left].
      apply in_map. now apply list_elem_of_In. }
    unfold insert_row at 1. rewrite Hpk, Hj, Hk.
    replace (existsb (Z.eqb (key_of i r)) (List.map (key_of i) acc)) with false.
    + rewrite Hid, insert_last by exact Hacc. simpl.
      rewrite IH; [now rewrite <- app_assoc|exact Hc|].
      rewrite <- app_assoc. simpl. rewrite List.map_app. exact Hs.
    + symmetry. apply not_true_is_false. intros Hex. apply existsb_Zeqb_In in Hex.
      apply in_map_iff in Hex as (y & Hy & Hin).
      rewrite Forall_forall in Hacc. apply list_elem_of_In, Hacc in Hin. lia.
Qed.

(** ** The statements of the first pass *)

Lemma col_name_column_def (t c : string) : col_name (column_def t c) = c.
Proof. unfold column_def. destruct (endswith "_id" c); [|destruct (String.eqb c "uid")]; reflexivity. Qed.

Lemma column_names_column_def (t : string) (cols : list string) :
  List.map col_name (List.map (column_def t) cols) = cols.
Proof.
  induction cols as [|c cols IH]; simpl; [reflexivity|].
  now rewrite col_name_column_def, IH.
Qed.

Lemma create_table_spec (name : string) (cols : list column) (fks : list string)
    (db db' : sqlite_db) :
  create_table name cols fks db = Ok db' ->
  tables db !! name = None
  /\ tables db' = <[name := {| columns := cols; foreign_keys := fks; rows := [] |}]> (tables db)
  /\ indexes db' = indexes db.
Proof.
  unfold create_table. destruct cols as [|c cols]; [discriminate|].
  destruct (negb (nodup_names _)); [discriminate|].
  destruct (Nat.ltb 1 _); [discriminate|].
  destruct (tables db !! name); [discriminate|]. intros [= <-]. auto.
Qed.

Lemma add_column_spec (name : string) (col : column) (db db' : sqlite_db) :
  add_column name col db = Ok db' ->
  exists t, tables db !! name = Some t /\ col_pk col = false
    /\ tables db' = <[name := {| columns := columns t ++ [col];
                                foreign_keys := foreign_keys t;
                                rows := List.map (fun r => r ++ [None]) (rows t) |}]> (tables db).
Proof.
  unfold add_column. destruct (tables db !! name) as [t|]; [|discriminate].
  destruct (col_pk col) eqn:Hpk; [discriminate|].
  destruct (existsb _ _); [discriminate|]. intros [= <-]. now exists t.
Qed.

Lemma insert_record_spec (name : string) (fields : list (string * option string))
    (db db' : sqlite_db) :
  insert_record name fields db = Ok db' ->
  exists t rs, tables db !! name = Some t
    /\ insert_row (columns t) (rows t)
         (List.map (fun c => cell_of fields (col_name c)) (columns t)) = Ok rs
    /\ tables db' = <[name := {| columns := columns t; foreign_keys := foreign_keys t;
                                rows := rs |}]> (tables db).
Proof.
  unfold insert_record. destruct (tables db !! name) as [t|]; [|discriminate].
  destruct fields as [|f fields]; [discriminate|].
  destruct (forallb _ _); [|discriminate].
  destruct (insert_row _ _ _) as [rs|] eqn:E; simpl; [|discriminate].
  intros [= <-]. now exists t, rs.
Qed.

Lemma canonical_padded (i : nat) (r : list (option string)) :
  canonical i r -> canonical i (r ++ [None]) /\ key_of i (r ++ [None]) = key_of i r.
Proof.
  intros (k & Hr & Hk).
  assert (Hr' : (r ++ [None]) !! i = Some (Some (str_of_Z k))) by now apply lookup_app_l_Some.
  split; [now exists k|].
  now rewrite (canonical_key i r k), (canonical_key i (r ++ [None]) k).
Qed.

Lemma table_ok_padded (t : table) (col : column) :
  col_pk col = false -> table_ok t ->
  table_ok {| columns := columns t ++ [col]; foreign_keys := foreign_keys t;
              rows := List.map (fun r => r ++ [None]) (rows t) |}.
Proof.
  intros Hcol Ht i. cbn [columns rows]. rewrite pk_index_app by exact Hcol.
  intros Hi. destruct (Ht i Hi) as [Hc Hs]. clear Ht.
  induction Hc as [|r rs Hr Hc IH]; simpl; [split; constructor|].
  simpl in Hs. apply StronglySorted_inv in Hs as [Hs Hx].
  destruct (IH Hs) as [IH1 IH2]. destruct (canonical_padded i r Hr) as [Hp Hk].
  split; [now constructor|]. rewrite Hk. constructor; [exact IH2|].
  clear - Hx Hc. induction Hc as [|y ys Hy Hc IH]; simpl; [constructor|].
  simpl in Hx. apply Forall_cons_1 in Hx as [Hxy Hx].
  destruct (canonical_padded i y Hy) as [_ ->]. constructor; auto.
Qed.

Lemma table_ok_inserted (t : table) (r : list (option string))
    (rs : list (list (option string))) :
  List.length r = List.length (columns t) -> table_ok t ->
  insert_row (columns t) (rows t) r = Ok rs ->
  table_ok {| columns := columns t; foreign_keys := foreign_keys t; rows := rs |}.
Proof.
  intros Hlen Ht Hins i. cbn [columns rows]. intros Hi.
  destruct (Ht i Hi) as [Hc Hs].
  eapply insert_row_ok; eauto. rewrite Hlen. now apply pk_index_lt.
Qed.

(** ** The first pass keeps its tables in order *)

Lemma first_pass_ok_update (st : loader) (db : sqlite_db) (name : string) (t : table)
    (kn : gmap string (list string)) (fk : list (string * string)) :
  first_pass_ok st ->
  tables db = <[name := t]> (tables (dbcon st)) ->
  kn = <[name := column_names t]> (known st) ->
  table_ok t ->
  first_pass_ok {| dbcon := db; known := kn; forkeys := fk |}.
Proof.
  intros [H1 H2] Hdb -> Ht. split; cbn [dbcon known]; rewrite Hdb.
  - intros n. destruct (decide (n = name)) as [->|Hne].
    + now rewrite !lookup_insert_eq.
    + rewrite !lookup_insert_ne by congruence. apply H1.
  - intros n t'. destruct (decide (n = name)) as [->|Hne].
    + rewrite lookup_insert_eq. now intros [= <-].
    + rewrite lookup_insert_ne by congruence. apply H2.
Qed.

Lemma new_table_ok (name : string) (col_names : list string) (st st' : loader) :
  first_pass_ok st -> known st !! name = None ->
  new_table name col_names st = Ok st' -> first_pass_ok st'.
Proof.
  intros Hok Hnone. unfold new_table.
  destruct (create_table _ _ _ _) as [db|] eqn:Ec; simpl; [|discriminate].
  intros [= <-]. apply create_table_spec in Ec as (_ & Htab & _).
  cbn [drop_table_if_exists tables] in Htab.
  assert (Habs : tables (dbcon st) !! name = None).
  { destruct Hok as [H1 _]. specialize (H1 name). rewrite Hnone in H1.
    destruct (tables (dbcon st) !! name); [discriminate|reflexivity]. }
  rewrite delete_id in Htab by exact Habs.
  eapply first_pass_ok_update; eauto.
  - unfold column_names. cbn [columns]. now rewrite column_names_column_def.
  - intros i _. cbn [rows]. split; constructor.
Qed.

Lemma new_column_ok (name : string) (st st' : loader) (col : string) :
  first_pass_ok st -> new_column name st col = Ok st' -> first_pass_ok st'.
Proof.
  intros Hok. unfold new_column.
  destruct (add_column _ _ _) as [db|] eqn:Ea; simpl; [|discriminate].
  intros [= <-]. apply add_column_spec in Ea as (t & Ht & Hpk & Htab).
  pose proof Hok as [H1 H2].
  eapply first_pass_ok_update; eauto.
  - rewrite H1, Ht. simpl. unfold column_names. cbn [columns].
    now rewrite List.map_app.
  - apply table_ok_padded; [exact Hpk|]. eapply H2; eauto.
Qed.

Lemma insert_record_ok (st : loader) (name : string) (fields : list (string * option string))
    (db : sqlite_db) :
  first_pass_ok st -> insert_record name fields (dbcon st) = Ok db ->
  first_pass_ok {| dbcon := db; known := known st; forkeys := forkeys st |}.
Proof.
  intros Hok Hins. apply insert_record_spec in Hins as (t & rs & Ht & Hrow & Htab).
  pose proof Hok as [H1 H2].
  eapply first_pass_ok_update; eauto.
  - unfold column_names. cbn [columns]. apply map_eq. intros n.
    destruct (decide (n = name)) as [->|Hne].
    + rewrite lookup_insert_eq, H1, Ht. reflexivity.
    + now rewrite lookup_insert_ne by congruence.
  - eapply table_ok_inserted; eauto. now rewrite List.length_map.
Qed.

Lemma load_record_ok (st st' : loader) (r : xml_record) :
  first_pass_ok st -> load_record st r = Ok st' -> first_pass_ok st'.
Proof.
  intros Hok. unfold load_record.
  destruct (known st !! rec_table r) as [cols|] eqn:Ek.
  - simpl. destruct (fold_result _ _ st) as [st2|] eqn:E2; simpl; [|discriminate].
    destruct (insert_record _ _ _) as [db|] eqn:Ei; simpl; [|discriminate].
    intros [= <-]. eapply insert_record_ok; eauto.
    revert E2. apply fold_result_inv; [|exact Hok].
    intros s a s' Hs. now apply new_column_ok.
  - destruct (new_table _ _ st) as [st1|] eqn:E1; simpl; [|discriminate].
    destruct (fold_result _ _ st1) as [st2|] eqn:E2; simpl; [|discriminate].
    destruct (insert_record _ _ _) as [db|] eqn:Ei; simpl; [|discriminate].
    intros [= <-]. eapply insert_record_ok; eauto.
    revert E2. apply fold_result_inv; [|eapply new_table_ok; eauto].
    intros s a s' Hs. now apply new_column_ok.
Qed.

Lemma first_pass_is_ok (records : list xml_record) (st : loader) :
  first_pass records = Ok st -> first_pass_ok st.
Proof.
  unfold first_pass. apply fold_result_inv; [intros s a s' Hs; now apply load_record_ok|].
  split; cbn [dbcon known tables empty_db].
  - intros n. now rewrite !lookup_empty.
  - intros n t. now rewrite lookup_empty.
Qed.

(** ** The tables with deferred foreign keys *)

Lemma fold_left_inv {A S} (f : S -> A -> S) (P : S -> Prop) (l : list A) :
  (forall s a, In a l -> P s -> P (f s a)) -> forall s, P s -> P (fold_left f l s).
Proof.
  induction l as [|a l IH]; simpl; intros Hstep s Hs; [exact Hs|].
  apply IH; [intros; apply Hstep; auto|apply Hstep; auto].
Qed.

Lemma dict_set_keys {V} (k k0 : string) (v : V) (d : list (string * V)) :
  In k0 (List.map fst (dict_set String.eqb k v d)) -> k0 = k \/ In k0 (List.map fst d).
Proof.
  intros H. apply in_map_iff in H as ([k1 v1] & <- & Hin).
  apply (dict_set_In String.eqb) in Hin as [[= -> ->]|Hin]; [now left|].
  right. apply in_map_iff. now exists (k1, v1).
Qed.

Lemma dict_set_NoDup {V} (k : string) (v : V) (d : list (string * V)) :
  List.NoDup (List.map fst d) -> List.NoDup (List.map fst (dict_set String.eqb k v d)).
Proof.
  induction d as [|[k' v'] d IH]; simpl; intros Hnd.
  - repeat constructor. intros [].
  - apply List.NoDup_cons_iff in Hnd as [Hk' Hnd].
    destruct (String.eqb_spec k k') as [->|Hne]; simpl.
    + now constructor.
    + constructor; [|now apply IH].
      intros Hin. apply dict_set_keys in Hin as [->|Hin]; [congruence|contradiction].
Qed.

Lemma dict_get_absent {V} (k : string) (d : list (string * V)) :
  ~ In k (List.map fst d) -> dict_get String.eqb k d = None.
Proof.
  induction d as [|[k' v'] d IH]; simpl; intros Hk; [reflexivity|].
  destruct (String.eqb_spec k k') as [->|Hne]; [tauto|]. apply IH. tauto.
Qed.

Lemma dict_get_of_In {V} (k : string) (v : V) (d : list (string * V)) :
  List.NoDup (List.map fst d) -> In (k, v) d -> dict_get String.eqb k d = Some v.
Proof.
  induction d as [|[k' v'] d IH]; simpl; intros Hnd; [intros []|].
  apply List.NoDup_cons_iff in Hnd as [Hk' Hnd].
  intros [[= -> ->]|Hin]; [now rewrite String.eqb_refl|].
  destruct (String.eqb_spec k k') as [->|Hne]; [|now apply IH].
  exfalso. apply Hk'. apply in_map_iff. now exists (k', v).
Qed.

Lemma dict_get_snoc {V} (k k' : string) (v' : V) (d : list (string * V)) :
  dict_get String.eqb k (d ++ [(k', v')])
  = match dict_get String.eqb k d with
    | Some v => Some v
    | None => if String.eqb k k' then Some v' else None
    end.
Proof.
  induction d as [|[k1 v1] d IH]; simpl; [reflexivity|].
  now destruct (String.eqb k k1).
Qed.

(** [forkeys_tables] has one entry per table, and every column of an entry
    is a candidate foreign key of that table. *)
Lemma forkeys_tables_spec (kn : gmap string (list string)) (fks : list (string * string)) :
  List.NoDup (List.map fst (forkeys_tables kn fks))
  /\ forall t cols, In (t, cols) (forkeys_tables kn fks) ->
       cols <> [] /\ forall c, In c cols -> In (t, c) fks.
Proof.
  unfold forkeys_tables.
  apply (fold_left_inv _ (fun acc => List.NoDup (List.map fst acc)
           /\ forall t cols, In (t, cols) acc -> cols <> [] /\ forall c, In c cols -> In (t, c) fks)).
  - intros acc [t c] Hin [Hnd Hacc].
    destruct (kn !! drop_last3 c); [|now split].
    split; [now apply dict_set_NoDup|].
    intros t' cols' H. apply (dict_set_In String.eqb) in H as [[= -> ->]|H]; [|now apply Hacc].
    split; [now destruct (default [] _)|].
    intros c' Hc'. apply in_app_iff in Hc' as [Hc'|[<-|[]]]; [|exact Hin].
    destruct (dict_get String.eqb t acc) as [old|] eqn:Eg; simpl in Hc'; [|contradiction].
    apply dict_get_In in Eg; [|intros a b; apply String_eqb_iff].
    now apply (Hacc t old).
  - split; [constructor|intros t cols []].
Qed.

(** ** The rebuild of one table *)

Lemma append_length (a b : string) :
  String.length (String.append a b) = (String.length a + String.length b)%nat.
Proof. induction a as [|c a IH]; simpl; [reflexivity|]. now rewrite IH. Qed.

Lemma todelete_ne (name : string) : todelete name <> name.
Proof.
  intros H. apply (f_equal String.length) in H. unfold todelete in H.
  rewrite append_length in H. simpl in H. lia.
Qed.

Lemma rename_table_spec (old new : string) (db db' : sqlite_db) :
  rename_table old new db = Ok db' ->
  exists t, tables db !! old = Some t /\ tables db' = <[new := t]> (delete old (tables db)).
Proof.
  unfold rename_table. destruct (tables db !! old) as [t|]; [|discriminate].
  destruct (tables db !! new); [discriminate|]. intros [= <-]. now exists t.
Qed.

Lemma insert_select_all_spec (dst src : string) (db db' : sqlite_db) :
  insert_select_all dst src db = Ok db' ->
  exists d s rs, tables db !! dst = Some d /\ tables db !! src = Some s
    /\ fold_result (insert_row (columns d)) (rows s) (rows d) = Ok rs
    /\ tables db' = <[dst := {| columns := columns d; foreign_keys := foreign_keys d;
                               rows := rs |}]> (tables db).
Proof.
  unfold insert_select_all.
  destruct (tables db !! dst) as [d|]; [|discriminate].
  destruct (tables db !! src) as [s|]; [|discriminate].
  destruct (Nat.eqb _ _); [|discriminate].
  destruct (fold_result _ _ _) as [rs|] eqn:E; simpl; [|discriminate].
  intros [= <-]. now exists d, s, rs.
Qed.

(** What one rebuild leaves: the table rebuilt, its temporary copy gone,
    every other table as it was. *)
Lemma rebuild_table_spec (kn : gmap string (list string)) (db db' : sqlite_db)
    (name : string) (fks : list string) :
  rebuild_table kn db (name, fks) = Ok db' ->
  exists t cols rs,
    tables db !! name = Some t /\ kn !! name = Some cols
    /\ fold_result (insert_row (List.map (column_def name) cols)) (rows t) [] = Ok rs
    /\ tables db' !! name
       = Some {| columns := List.map (column_def name) cols; foreign_keys := fks; rows := rs |}
    /\ tables db' !! todelete name = None
    /\ forall n, n <> name -> n <> todelete name -> tables db' !! n = tables db !! n.
Proof.
  unfold rebuild_table. pose proof (todelete_ne name) as Hne.
  destruct (rename_table _ _ _) as [db2|] eqn:E2; simpl; [|discriminate].
  destruct (kn !! name) as [cols|] eqn:Ek; simpl; [|discriminate].
  destruct (create_table _ _ _ _) as [db4|] eqn:E4; simpl; [|discriminate].
  destruct (insert_select_all _ _ _) as [db5|] eqn:E5; simpl; [|discriminate].
  intros [= <-].
  apply rename_table_spec in E2 as (t & Ht & H2). cbn [drop_table_if_exists tables] in Ht, H2.
  rewrite lookup_delete_ne in Ht by exact Hne.
  apply create_table_spec in E4 as (_ & H4 & _). cbn [drop_table_if_exists tables] in H4.
  apply insert_select_all_spec in E5 as (d & s & rs & Hd & Hs & Hrs & H5).
  rewrite H4, lookup_insert_eq in Hd. injection Hd as <-.
  rewrite H4, lookup_insert_ne, lookup_delete_ne, H2, lookup_insert_eq in Hs by congruence.
  injection Hs as <-. cbn [columns rows foreign_keys] in *.
  exists t, cols, rs. split; [exact Ht|]. split; [reflexivity|]. split; [exact Hrs|].
  cbn [drop_table_if_exists tables]. rewrite H5.
  split; [now rewrite lookup_delete_ne, lookup_insert_eq by congruence|].
  split; [now rewrite lookup_delete_eq|].
  intros n Hn1 Hn2.
  rewrite lookup_delete_ne, lookup_insert_ne, H4, lookup_insert_ne, lookup_delete_ne, H2,
    lookup_insert_ne, !lookup_delete_ne by congruence.
  reflexivity.
Qed.

Lemma rebuild_table_step (kn : gmap string (list string)) (before db db' : sqlite_db)
    (done : list (string * list string)) (name : string) (fks : list string) :
  (forall n t0, tables before !! n = Some t0 -> kn !! n = Some (column_names t0)) ->
  ~ In name (List.map fst done) ->
  rebuilding before done db ->
  rebuild_table kn db (name, fks) = Ok db' ->
  rebuilding before (done ++ [(name, fks)]) db'.
Proof.
  intros Hkn Hfresh Hinv Hstep.
  apply rebuild_table_spec in Hstep as (t & cols & rs & Ht & Hcols & Hrs & Hnew & Htmp & Hother).
  intros n t'. rewrite dict_get_snoc.
  destruct (decide (n = name)) as [->|Hn1].
  - rewrite Hnew. intros [= <-].
    destruct (Hinv name t Ht) as (t0 & Ht0 & Hrel).
    rewrite dict_get_absent in Hrel |- * by exact Hfresh. subst t.
    rewrite String.eqb_refl. exists t0. split; [exact Ht0|].
    rewrite (Hkn name t0 Ht0) in Hcols. injection Hcols as <-.
    repeat split; assumption.
  - destruct (decide (n = todelete name)) as [->|Hn2]; [now rewrite Htmp|].
    rewrite Hother by assumption. intros Hn.
    destruct (Hinv n t' Hn) as (t0 & Ht0 & Hrel). exists t0. split; [exact Ht0|].
    destruct (dict_get String.eqb n done); [exact Hrel|].
    destruct (String.eqb_spec n name); [congruence|exact Hrel].
Qed.

Lemma rebuild_loop (kn : gmap string (list string)) (before : sqlite_db)
    (l : list (string * list string)) :
  (forall n t0, tables before !! n = Some t0 -> kn !! n = Some (column_names t0)) ->
  forall done db db',
    List.NoDup (List.map fst (done ++ l)) ->
    rebuilding before done db ->
    fold_result (rebuild_table kn) l db = Ok db' ->
    rebuilding before (done ++ l) db'.
Proof.
  intros Hkn. induction l as [|[name fks] l IH]; cbn [fold_result];
    intros done db db' Hnd Hinv.
  - intros [= <-]. now rewrite app_nil_r.
  - destruct (rebuild_table kn db (name, fks)) as [db1|] eqn:E1; cbn [rbind]; [|discriminate].
    intros Hrest.
    replace (done ++ (name, fks) :: l) with ((done ++ [(name, fks)]) ++ l) in *
      by now rewrite <- app_assoc.
    eapply IH; eauto. eapply rebuild_table_step; eauto.
    rewrite !List.map_app in Hnd. simpl in Hnd.
    apply List.NoDup_app_remove_r in Hnd. apply NoDup_remove_2 in Hnd.
    now rewrite app_nil_r in Hnd.
Qed.

(** A table rebuilt with the declarations it had holds the rows it held. *)
Lemma rebuilt_rows (name : string) (fks : list string) (t0 t : table) :
  table_ok t0 ->
  columns t0 = List.map (column_def name) (column_names t0) ->
  rebuilt name fks t0 t ->
  columns t = columns t0 /\ rows t = rows t0.
Proof.
  intros Hok Hcols (Hc & _ & Hrows). rewrite <- Hcols in Hc.
  split; [exact Hc|]. rewrite Hc in Hrows.
  destruct (pk_index (columns t0)) as [i|] eqn:Hpk.
  - destruct (Hok i Hpk) as [Hcan Hs].
    rewrite (copy_keyed _ i) in Hrows by assumption. now injection Hrows.
  - rewrite copy_plain in Hrows by exact Hpk. now injection Hrows.
Qed.

(** ** The indexes *)

Lemma create_index_spec (name tbl : string) (cols : list string) (db db' : sqlite_db) :
  create_index name tbl cols db = Ok db' ->
  is_Some (tables db !! tbl) /\ tables db' = tables db
  /\ indexes db' = indexes db ++ [{| idx_name := name; idx_table := tbl; idx_columns := cols |}].
Proof.
  unfold create_index. destruct (tables db !! tbl) as [t|]; [|discriminate].
  destruct (negb _); [discriminate|]. destruct (existsb _ _); [discriminate|].
  intros [= <-]. auto.
Qed.

Lemma forkey_index_loop (l : list (string * string)) (db db' : sqlite_db) :
  fold_result create_forkey_index l db = Ok db' ->
  tables db' = tables db
  /\ indexes db' = indexes db ++ List.map forkey_index l
  /\ forall fk, In fk l -> is_Some (tables db !! fst fk).
Proof.
  revert db. induction l as [|fk l IH]; simpl; intros db.
  - intros [= <-]. rewrite app_nil_r. repeat split. intros fk [].
  - destruct (create_forkey_index db fk) as [db1|] eqn:E1; simpl; [|discriminate].
    intros Hrest. apply create_index_spec in E1 as (Hsome & Ht & Hi).
    destruct (IH db1 Hrest) as (Ht' & Hi' & Hin).
    split; [congruence|]. split; [rewrite Hi', Hi, <- app_assoc; reflexivity|].
    intros fk' [<-|H]; [exact Hsome|]. rewrite <- Ht. now apply Hin.
Qed.

Lemma hot_index_loop (kn : gmap string (list string)) (l : list (string * string))
    (db db' : sqlite_db) :
  fold_result (create_hot_index kn) l db = Ok db' ->
  tables db' = tables db /\ exists more, indexes db' = indexes db ++ more.
Proof.
  revert db. induction l as [|tc l IH]; simpl; intros db.
  - intros [= <-]. split; [reflexivity|]. exists []. now rewrite app_nil_r.
  - destruct (create_hot_index kn db tc) as [db1|] eqn:E1; simpl; [|discriminate].
    intros Hrest. destruct (IH db1 Hrest) as (Ht' & more & Hi').
    assert (H1 : tables db1 = tables db /\ exists m, indexes db1 = indexes db ++ m).
    { unfold create_hot_index in E1. destruct (kn !! fst tc) as [cols|].
      - destruct (existsb _ cols).
        + apply create_index_spec in E1 as (_ & Ht & Hi). eauto.
        + injection E1 as <-. split; [reflexivity|]. exists []. now rewrite app_nil_r.
      - injection E1 as <-. split; [reflexivity|]. exists []. now rewrite app_nil_r. }
    destruct H1 as (Ht & m & Hi). split; [congruence|].
    exists (m ++ more). now rewrite Hi', Hi, <- app_assoc.
Qed.

(** ** The rows of the first pass and the records *)

Lemma fold_result_prefix {A S} (f : S -> A -> result S) (P : S -> list A -> Prop)
    (l : list A) :
  (forall s a s' pre, P s pre -> f s a = Ok s' -> P s' (pre ++ [a])) ->
  forall s pre s', P s pre -> fold_result f l s = Ok s' -> P s' (pre ++ l).
Proof.
  intros Hstep. induction l as [|a l IH]; cbn [fold_result]; intros s pre s' Hs.
  - intros [= <-]. now rewrite app_nil_r.
  - destruct (f s a) as [s1|] eqn:E; cbn [rbind]; [|discriminate].
    intros Hrest. replace (pre ++ a :: l) with ((pre ++ [a]) ++ l) by now rewrite <- app_assoc.
    eapply IH; eauto.
Qed.

Lemma records_of_snoc (name : string) (pre : list xml_record) (r : xml_record) :
  records_of name (pre ++ [r])
  = records_of name pre ++ (if String.eqb (rec_table r) name then [r] else []).
Proof. unfold records_of. now rewrite List.filter_app. Qed.

Lemma records_of_In (name : string) (records : list xml_record) (r : xml_record) :
  In r (records_of name records) <-> In r records /\ rec_table r = name.
Proof. unfold records_of. rewrite filter_In. now rewrite String_eqb_iff. Qed.

Lemma cell_of_absent (fields : list (string * option string)) (col : string) :
  ~ In col (List.map fst fields) -> cell_of fields col = None.
Proof.
  induction fields as [|[k v] fields IH]; simpl; intros H; [reflexivity|].
  destruct (String.eqb_spec k col); [tauto|]. apply IH. tauto.
Qed.

Lemma key_of_padded (i : nat) (r : list (option string)) :
  (i < List.length r)%nat ->
  (canonical i (r ++ [None]) -> canonical i r) /\ key_of i (r ++ [None]) = key_of i r.
Proof.
  intros Hi. assert (E : (r ++ [None]) !! i = r !! i) by now apply lookup_app_l.
  unfold canonical, key_of. now rewrite E.
Qed.

Lemma table_ok_unpadded (cols : list column) (col : column) (fks : list string)
    (rws : list (list (option string))) :
  col_pk col = false ->
  Forall (fun r => List.length r = List.length cols) rws ->
  table_ok {| columns := cols ++ [col]; foreign_keys := fks;
              rows := List.map (fun r => r ++ [None]) rws |} ->
  table_ok {| columns := cols; foreign_keys := fks; rows := rws |}.
Proof.
  intros Hcol Hlen Hok i. cbn [columns rows]. intros Hi.
  destruct (Hok i) as [Hc Hs]; [cbn [columns]; now rewrite pk_index_app|].
  cbn [rows] in Hc, Hs. apply pk_index_lt in Hi. clear Hok.
  induction Hlen as [|r rws Hr Hlen IH]; simpl in *; [split; constructor|].
  apply Forall_cons_1 in Hc as [Hcr Hc]. apply StronglySorted_inv in Hs as [Hs Hx].
  destruct (IH Hc Hs) as [IH1 IH2].
  destruct (key_of_padded i r) as [Hcan Hkey]; [lia|].
  split; [constructor; auto|]. rewrite Hkey in Hx. constructor; [exact IH2|].
  clear - Hx Hlen Hi. induction Hlen as [|y ys Hy Hlen IH]; simpl in *; [constructor|].
  apply Forall_cons_1 in Hx as [Hxy Hx].
  destruct (key_of_padded i y) as [_ Hkey]; [lia|]. rewrite Hkey in Hxy.
  constructor; auto.
Qed.

Lemma table_ok_prefix (cols : list column) (fks : list string)
    (rws : list (list (option string))) (x : list (option string)) :
  table_ok {| columns := cols; foreign_keys := fks; rows := rws ++ [x] |} ->
  table_ok {| columns := cols; foreign_keys := fks; rows := rws |}.
Proof.
  intros Hok i Hi. destruct (Hok i Hi) as [Hc Hs]. cbn [rows] in *.
  apply Forall_app in Hc as [Hc _]. rewrite List.map_app in Hs.
  apply ascending_app in Hs as (Hs & _). now split.
Qed.

Lemma record_row_length (names : list string) (r : xml_record) :
  List.length (record_row names r) = List.length names.
Proof. unfold record_row. now rewrite List.length_map. Qed.

Lemma record_row_padded (names : list string) (col : string) (r : xml_record) :
  ~ In col (List.map fst (rec_fields r)) ->
  record_row (names ++ [col]) r = record_row names r ++ [None].
Proof.
  intros H. unfold record_row. rewrite List.map_app. simpl.
  now rewrite cell_of_absent.
Qed.

Lemma first_pass_rows_update (st : loader) (db : sqlite_db) (name : string) (t : table)
    (kn : gmap string (list string)) (fk : list (string * string))
    (pre pre' : list xml_record) :
  first_pass_rows st pre ->
  tables db = <[name := t]> (tables (dbcon st)) ->
  (forall r, In r pre' -> In r pre \/ rec_table r = name) ->
  (forall n, n <> name -> records_of n pre' = records_of n pre) ->
  (forall r k, In r (records_of name pre') -> In k (List.map fst (rec_fields r)) ->
     In k (column_names t)) ->
  (table_ok (as_recorded t (records_of name pre')) ->
   rows t = List.map (record_row (column_names t)) (records_of name pre')) ->
  first_pass_rows {| dbcon := db; known := kn; forkeys := fk |} pre'.
Proof.
  intros [H1 H2] Hdb Hpre Hother HA HB. split; cbn [dbcon]; rewrite Hdb.
  - intros r Hr. destruct (decide (rec_table r = name)) as [->|Hne].
    + rewrite lookup_insert_eq. eauto.
    + rewrite lookup_insert_ne by congruence. apply H1.
      destruct (Hpre r Hr); [assumption|contradiction].
  - intros n t'. destruct (decide (n = name)) as [->|Hne].
    + rewrite lookup_insert_eq. intros [= <-]. now split.
    + rewrite lookup_insert_ne by congruence. rewrite Hother by exact Hne. apply H2.
Qed.

Lemma new_table_rows (name : string) (col_names : list string) (st st' : loader)
    (pre : list xml_record) :
  first_pass_ok st -> first_pass_rows st pre -> known st !! name = None ->
  new_table name col_names st = Ok st' -> first_pass_rows st' pre.
Proof.
  intros Hok Hrows Hnone. unfold new_table.
  destruct (create_table _ _ _ _) as [db|] eqn:Ec; simpl; [|discriminate].
  intros [= <-]. apply create_table_spec in Ec as (_ & Htab & _).
  cbn [drop_table_if_exists tables] in Htab.
  assert (Habs : tables (dbcon st) !! name = None).
  { destruct Hok as [H1 _]. specialize (H1 name). rewrite Hnone in H1.
    destruct (tables (dbcon st) !! name); [discriminate|reflexivity]. }
  rewrite delete_id in Htab by exact Habs.
  assert (Hnil : records_of name pre = []).
  { destruct (records_of name pre) as [|r rs] eqn:E; [reflexivity|].
    assert (Hr : In r (records_of name pre)) by (rewrite E; now left).
    apply records_of_In in Hr as [Hr <-]. destruct Hrows as [H1 _].
    destruct (H1 r Hr) as [t Ht]. congruence. }
  eapply first_pass_rows_update; eauto.
  - rewrite Hnil. intros r k [].
  - now rewrite Hnil.
Qed.

Lemma new_column_rows (name : string) (st st' : loader) (col : string)
    (pre : list xml_record) :
  first_pass_rows st pre -> new_column name st col = Ok st' -> first_pass_rows st' pre.
Proof.
  intros Hrows. unfold new_column.
  destruct (add_column _ _ _) as [db|] eqn:Ea; simpl; [|discriminate].
  intros [= <-]. pose proof Ea as Ea'. apply add_column_spec in Ea as (t & Ht & Hpk & Htab).
  assert (Hfresh : ~ In col (column_names t)).
  { unfold add_column in Ea'. rewrite Ht, Hpk in Ea'. cbn [added_column col_name] in Ea'.
    destruct (existsb (String.eqb col) _) eqn:Ex; [discriminate|].
    intros Hin. apply existsb_Seqb_In in Hin. unfold column_names in Hin. congruence. }
  pose proof Hrows as [_ H2]. destruct (H2 name t Ht) as [HA HB].
  assert (Hnames : column_names {| columns := columns t ++ [added_column col];
                                   foreign_keys := foreign_keys t;
                                   rows := List.map (fun r => r ++ [None]) (rows t) |}
                   = column_names t ++ [col]).
  { unfold column_names. cbn [columns]. now rewrite List.map_app. }
  assert (Hexp : List.map (record_row (column_names t ++ [col])) (records_of name pre)
                 = List.map (fun r => r ++ [None])
                     (List.map (record_row (column_names t)) (records_of name pre))).
  { rewrite List.map_map. apply map_ext_in. intros r Hr. apply record_row_padded.
    intros Hin. apply Hfresh. eapply HA; eauto. }
  eapply first_pass_rows_update; eauto.
  - rewrite Hnames. intros r k Hr Hk. apply in_app_iff. left. eapply HA; eauto.
  - rewrite Hnames. unfold as_recorded. cbn [columns foreign_keys rows].
    rewrite Hnames, Hexp. intros Hok. f_equal. apply HB.
    eapply table_ok_unpadded; eauto.
    apply Forall_forall. intros r Hr. apply list_elem_of_In in Hr.
    apply in_map_iff in Hr as (x & <- & _).
    rewrite record_row_length. unfold column_names. now rewrite List.length_map.
Qed.

Lemma insert_record_rows (st : loader) (r : xml_record) (db : sqlite_db)
    (pre : list xml_record) :
  first_pass_rows st pre ->
  insert_record (rec_table r) (rec_fields r) (dbcon st) = Ok db ->
  first_pass_rows {| dbcon := db; known := known st; forkeys := forkeys st |} (pre ++ [r]).
Proof.
  intros Hrows Hins. pose proof Hins as Hins'.
  apply insert_record_spec in Hins as (t & rs & Ht & Hrow & Htab).
  assert (Hsub : forall k, In k (List.map fst (rec_fields r)) -> In k (column_names t)).
  { unfold insert_record in Hins'. rewrite Ht in Hins'.
    destruct (rec_fields r) as [|f fields]; [discriminate|].
    destruct (forallb _ _) eqn:Ef; [|discriminate].
    rewrite forallb_forall in Ef. intros k Hk. apply existsb_Seqb_In. now apply Ef. }
  replace (List.map (fun c => cell_of (rec_fields r) (col_name c)) (columns t))
    with (record_row (column_names t) r) in Hrow
    by (unfold record_row, column_names; now rewrite List.map_map).
  pose proof Hrows as [_ H2]. destruct (H2 (rec_table r) t Ht) as [HA HB].
  assert (Hrec : records_of (rec_table r) (pre ++ [r]) = records_of (rec_table r) pre ++ [r])
    by now rewrite records_of_snoc, String.eqb_refl.
  eapply first_pass_rows_update; eauto.
  - intros x Hx. apply in_app_iff in Hx as [Hx|[<-|[]]]; auto.
  - intros n Hn. rewrite records_of_snoc.
    destruct (String.eqb_spec (rec_table r) n); [congruence|now rewrite app_nil_r].
  - unfold column_names. cbn [columns]. fold (column_names t). rewrite Hrec.
    intros x k Hx Hk. apply in_app_iff in Hx as [Hx|[<-|[]]]; [eapply HA; eauto|now apply Hsub].
  - unfold as_recorded, column_names. cbn [columns foreign_keys rows]. fold (column_names t).
    rewrite Hrec, List.map_app. simpl. intros Hok.
    assert (Hold : rows t = List.map (record_row (column_names t)) (records_of (rec_table r) pre)).
    { apply HB. eapply table_ok_prefix. exact Hok. }
    rewrite Hold in Hrow.
    destruct (pk_index (columns t)) as [i|] eqn:Hpk.
    + destruct (Hok i Hpk) as [Hc Hs]. cbn [rows] in Hc, Hs.
      apply Forall_app in Hc as [_ Hc].
      pose proof (copy_keyed (columns t) i [record_row (column_names t) r] _ Hpk Hc Hs) as E.
      cbn [fold_result] in E. rewrite Hrow in E. cbn [rbind] in E. congruence.
    + rewrite insert_row_plain in Hrow by exact Hpk. congruence.
Qed.

Lemma load_record_rows (st st' : loader) (r : xml_record) (pre : list xml_record) :
  first_pass_ok st /\ first_pass_rows st pre -> load_record st r = Ok st' ->
  first_pass_ok st' /\ first_pass_rows st' (pre ++ [r]).
Proof.
  intros [Hok Hrows] Hload. split; [eapply load_record_ok; eauto|].
  revert Hload. unfold load_record.
  assert (Hcols : forall l s s', first_pass_ok s /\ first_pass_rows s pre ->
            fold_result (new_column (rec_table r)) l s = Ok s' ->
            first_pass_ok s' /\ first_pass_rows s' pre).
  { intros l s s' Hs Hf.
    eapply (fold_result_inv _ (fun s => first_pass_ok s /\ first_pass_rows s pre));
      [|exact Hs|exact Hf].
    intros s0 a s0' _ [Ho Hr] Hc. split; [eapply new_column_ok|eapply new_column_rows]; eauto. }
  destruct (known st !! rec_table r) as [cols|] eqn:Ek.
  - simpl. destruct (fold_result _ _ st) as [st2|] eqn:E2; simpl; [|discriminate].
    destruct (insert_record _ _ _) as [db|] eqn:Ei; simpl; [|discriminate].
    intros [= <-]. apply insert_record_rows; [|exact Ei].
    eapply Hcols; [|exact E2]. now split.
  - destruct (new_table _ _ st) as [st1|] eqn:E1; simpl; [|discriminate].
    destruct (fold_result _ _ st1) as [st2|] eqn:E2; simpl; [|discriminate].
    destruct (insert_record _ _ _) as [db|] eqn:Ei; simpl; [|discriminate].
    intros [= <-]. apply insert_record_rows; [|exact Ei].
    eapply Hcols; [|exact E2].
    split; [eapply new_table_ok|eapply new_table_rows]; eauto.
Qed.

(** A table of the first pass whose records come in order holds their rows
    as they come. *)
Lemma first_pass_in_order (records : list xml_record) (st : loader) :
  first_pass records = Ok st -> first_pass_rows st records.
Proof.
  unfold first_pass. intros H.
  apply (fold_result_prefix load_record
           (fun s pre => first_pass_ok s /\ first_pass_rows s pre) records) with (pre := [])
    in H; [apply H| |].
  - intros s a s' pre. apply load_record_rows.
  - split; [split|split]; cbn [dbcon known tables empty_db].
    + intros n. now rewrite !lookup_empty.
    + intros n t. now rewrite lookup_empty.
    + intros r [].
    + intros n t. now rewrite lookup_empty.
Qed.

(** ** The rebuild *)




(** ** The mutations that commit, on the demonstration store *)

Lemma set_get_config_witness :
  has_table Fixture.demo "config" = true
  /\ In "Dynamic" (List.map element (config_t (work Fixture.demo)))
  /\ fst (get_config "Dynamic" (snd (set_config "Dynamic" "1" Fixture.demo))) = Ok "1".
Proof.
  assert (H1 : has_table Fixture.demo "config" = true) by reflexivity.
  assert (H2 : In "Dynamic" (List.map element (config_t (work Fixture.demo)))) by now left.
  split; [exact H1|]. split; [exact H2|].
  exact (proj1 (proj2 (set_get_config Fixture.demo "Dynamic" "1" H1 H2))).
Defined.

Lemma delete_property_commits_witness :
  fst (delete_property Fixture.G1 "Status" System_System Fixture.demo) = Ok tt
  /\ durable (snd (delete_property Fixture.G1 "Status" System_System Fixture.demo))
     = work (snd (delete_property Fixture.G1 "Status" System_System Fixture.demo)).
Proof.
  split; [reflexivity|].
  apply (delete_property_commits Fixture.demo _ Fixture.G1 "Status" System_System).
  reflexivity.
Defined.

Lemma tag_property_commits_witness :
  fst (tag_property Fixture.G1 "Status" "Scenario.S1" Fixture.demo) = Ok tt
  /\ durable (snd (tag_property Fixture.G1 "Status" "Scenario.S1" Fixture.demo))
     = work (snd (tag_property Fixture.G1 "Status" "Scenario.S1" Fixture.demo)).
Proof.
  split; [reflexivity|].
  apply (tag_property_commits Fixture.demo _ Fixture.G1 "Status" "Scenario.S1").
  reflexivity.
Defined.

(* ================================================================== *)
(** * What a loaded store holds: columns, types, metadata, records *)
(* ================================================================== *)

Lemma create_index_columns (name tbl : string) (cols : list string) (db db' : sqlite_db) :
  create_index name tbl cols db = Ok db' ->
  exists t, tables db !! tbl = Some t /\ forall c, In c cols -> In c (column_names t).
Proof.
  unfold create_index. destruct (tables db !! tbl) as [t|]; [|discriminate].
  destruct (forallb _ cols) eqn:Ef; simpl; [|discriminate]. intros _.
  exists t. split; [reflexivity|]. intros c Hc.
  rewrite forallb_forall in Ef. apply existsb_Seqb_In. now apply Ef.
Qed.

Lemma create_table_nodup (name : string) (cols : list column) (fks : list string)
    (db db' : sqlite_db) :
  create_table name cols fks db = Ok db' -> List.NoDup (List.map col_name cols).
Proof.
  unfold create_table. destruct cols as [|c cols]; [discriminate|].
  destruct (nodup_names _) eqn:E; simpl; [|discriminate]. intros _.
  now apply nodup_names_NoDup.
Qed.

(** The steps of a [load] that returns. *)
Lemma load_steps (namespace root_element : option string) (records : list xml_record)
    (db : sqlite_db) :
  load namespace root_element records = Ok db ->
  exists st db1,
    first_pass records = Ok st
    /\ fold_result (rebuild_table (known st)) (forkeys_tables (known st) (forkeys st))
         (dbcon st) = Ok db1
    /\ tables db = <[META_TABLE := meta_table namespace root_element]>
                     (delete META_TABLE (tables db1))
    /\ (exists t, tables db !! "object" = Some t
                  /\ In "class_id" (column_names t) /\ In "name" (column_names t))
    /\ (forall fk, In fk (forkeys st) -> is_Some (tables db1 !! fst fk)).
Proof.
  unfold load. destruct (first_pass records) as [st|] eqn:Hfp; cbn [rbind]; [|discriminate].
  unfold finish_load.
  destruct (fold_result (rebuild_table _) _ _) as [db1|] eqn:E1; cbn [rbind]; [|discriminate].
  destruct (fold_result create_forkey_index _ _) as [db2|] eqn:E2; cbn [rbind]; [|discriminate].
  cbv zeta.
  destruct (fold_result (create_hot_index _) _ _) as [db4|] eqn:E4; cbn [rbind]; [|discriminate].
  intros Hlast. pose proof Hlast as Hcols.
  apply create_index_spec in Hlast as (_ & Ht5 & _).
  apply create_index_columns in Hcols as (t & Ht & Hc).
  apply hot_index_loop in E4 as (Ht4 & _).
  cbn [with_tables drop_table_if_exists tables] in Ht4.
  apply forkey_index_loop in E2 as (Ht2 & _ & Hsome).
  exists st, db1. split; [reflexivity|]. split; [exact E1|].
  split; [now rewrite Ht5, Ht4, Ht2|].
  split; [|exact Hsome].
  exists t. rewrite Ht5. split; [exact Ht|]. split; apply Hc; simpl; auto.
Qed.

(** Where a table of the loaded store comes from: a table of the first
    pass, rebuilt when it has deferred foreign keys and as it was
    otherwise. *)
Lemma loaded_origin (namespace root_element : option string) (records : list xml_record)
    (db : sqlite_db) (t : string) (tb : table) :
  load namespace root_element records = Ok db ->
  t <> META_TABLE -> tables db !! t = Some tb ->
  exists st t0,
    first_pass records = Ok st /\ tables (dbcon st) !! t = Some t0
    /\ match dict_get String.eqb t (forkeys_tables (known st) (forkeys st)) with
       | Some fks => rebuilt t fks t0 tb
       | None => tb = t0
       end.
Proof.
  intros Hload Hmeta Htb.
  destruct (load_steps _ _ _ _ Hload) as (st & db1 & Hfp & E1 & Htab & _ & _).
  rewrite Htab, lookup_insert_ne, lookup_delete_ne in Htb by congruence.
  destruct (first_pass_is_ok _ _ Hfp) as [Hk _].
  destruct (forkeys_tables_spec (known st) (forkeys st)) as [Hnd _].
  assert (Hinv : rebuilding (dbcon st) ([] ++ forkeys_tables (known st) (forkeys st)) db1).
  { eapply rebuild_loop; eauto.
    - intros n t0 Hn. now rewrite Hk, Hn.
    - intros n t' Hn. exists t'. now split. }
  simpl in Hinv. destruct (Hinv t tb Htb) as (t0 & Ht0 & Hrel).
  exists st, t0. auto.
Qed.

Lemma loaded_column_names (namespace root_element : option string)
    (records : list xml_record) (db : sqlite_db) (t : string) (tb : table) :
  load namespace root_element records = Ok db ->
  t <> META_TABLE -> tables db !! t = Some tb ->
  exists st t0,
    first_pass records = Ok st /\ tables (dbcon st) !! t = Some t0
    /\ column_names tb = column_names t0.
Proof.
  intros Hload Hmeta Htb.
  destruct (loaded_origin _ _ _ _ _ _ Hload Hmeta Htb) as (st & t0 & Hfp & Ht0 & Hrel).
  exists st, t0. split; [exact Hfp|]. split; [exact Ht0|].
  destruct (dict_get String.eqb t _); [|now subst].
  destruct Hrel as (Hc & _). unfold column_names at 1. rewrite Hc.
  apply column_names_column_def.
Qed.

(** ** The columns of the first pass *)

Lemma new_columns_In (known_cols col_names : list string) (c : string) :
  In c (new_columns known_cols col_names) -> In c col_names.
Proof.
  revert known_cols. induction col_names as [|x l IH]; simpl; intros k; [tauto|].
  destruct (existsb (String.eqb x) k); [intros H; right; eauto|].
  intros [<-|H]; [now left|right; eauto].
Qed.

Lemma NoDup_snoc {A} (l : list A) (x : A) :
  List.NoDup l -> ~ In x l -> List.NoDup (l ++ [x]).
Proof.
  induction 1 as [|y l Hy Hl IH]; simpl; intros Hx.
  - repeat constructor. intros [].
  - constructor; [|apply IH; tauto].
    intros Hin. apply in_app_iff in Hin as [Hin|[<-|[]]]; tauto.
Qed.

Lemma first_pass_columns_mono (st : loader) (pre : list xml_record) (r : xml_record) :
  first_pass_columns st pre -> first_pass_columns st (pre ++ [r]).
Proof.
  intros H name t Ht. destruct (H name t Ht) as (H1 & H2 & H3).
  split; [exact H1|]. split; [exact H2|].
  intros c Hc. destruct (H3 c Hc) as (x & Hx & Hn & Hf).
  exists x. split; [apply in_app_iff; now left|now split].
Qed.

Lemma first_pass_columns_update (st : loader) (db : sqlite_db) (name : string) (t : table)
    (kn : gmap string (list string)) (fk : list (string * string)) (pre : list xml_record) :
  first_pass_columns st pre ->
  tables db = <[name := t]> (tables (dbcon st)) ->
  List.NoDup (column_names t) ->
  Forall (declared name) (columns t) ->
  (forall c, In c (column_names t) ->
     exists r, In r pre /\ rec_table r = name /\ In c (List.map fst (rec_fields r))) ->
  first_pass_columns {| dbcon := db; known := kn; forkeys := fk |} pre.
Proof.
  intros H Hdb H1 H2 H3 n t'. cbn [dbcon]. rewrite Hdb.
  destruct (decide (n = name)) as [->|Hne].
  - rewrite lookup_insert_eq. now intros [= <-].
  - rewrite lookup_insert_ne by congruence. apply H.
Qed.

Lemma declared_column_def (name col : string) : declared name (column_def name col).
Proof. left. now rewrite col_name_column_def. Qed.

Lemma new_table_columns (r : xml_record) (st st' : loader) (pre : list xml_record) :
  first_pass_ok st -> first_pass_columns st (pre ++ [r]) ->
  known st !! rec_table r = None ->
  new_table (rec_table r) (List.map fst (rec_fields r)) st = Ok st' ->
  first_pass_columns st' (pre ++ [r]).
Proof.
  intros Hok Hcols Hnone. unfold new_table.
  destruct (create_table _ _ _ _) as [db|] eqn:Ec; simpl; [|discriminate].
  intros [= <-]. pose proof (create_table_nodup _ _ _ _ _ Ec) as Hnd.
  apply create_table_spec in Ec as (_ & Htab & _).
  cbn [drop_table_if_exists tables] in Htab.
  assert (Habs : tables (dbcon st) !! rec_table r = None).
  { destruct Hok as [H1 _]. specialize (H1 (rec_table r)). rewrite Hnone in H1.
    destruct (tables (dbcon st) !! rec_table r); [discriminate|reflexivity]. }
  rewrite delete_id in Htab by exact Habs.
  eapply first_pass_columns_update; [exact Hcols|exact Htab| | |];
    unfold column_names; cbn [columns].
  - exact Hnd.
  - apply Forall_forall. intros c Hc. apply list_elem_of_In in Hc.
    apply in_map_iff in Hc as (x & <- & _). apply declared_column_def.
  - rewrite column_names_column_def. intros c Hc. exists r.
    split; [apply in_app_iff; right; now left|now split].
Qed.

Lemma new_column_columns (r : xml_record) (st st' : loader) (col : string)
    (pre : list xml_record) :
  In col (List.map fst (rec_fields r)) ->
  first_pass_columns st (pre ++ [r]) ->
  new_column (rec_table r) st col = Ok st' ->
  first_pass_columns st' (pre ++ [r]).
Proof.
  intros Hcol Hcols. unfold new_column.
  destruct (add_column _ _ _) as [db|] eqn:Ea; simpl; [|discriminate].
  intros [= <-]. pose proof Ea as Ea'. apply add_column_spec in Ea as (t & Ht & Hpk & Htab).
  assert (Hfresh : ~ In col (column_names t)).
  { unfold add_column in Ea'. rewrite Ht, Hpk in Ea'. cbn [added_column col_name] in Ea'.
    destruct (existsb (String.eqb col) _) eqn:Ex; [discriminate|].
    intros Hin. apply existsb_Seqb_In in Hin. unfold column_names in Hin. congruence. }
  destruct (Hcols _ t Ht) as (H1 & H2 & H3).
  eapply first_pass_columns_update; [exact Hcols|exact Htab| | |];
    unfold column_names; cbn [columns];
    rewrite ?List.map_app; simpl; fold (column_names t).
  - now apply NoDup_snoc.
  - apply Forall_app. split; [exact H2|]. constructor; [right; reflexivity|constructor].
  - intros c Hc. apply in_app_iff in Hc as [Hc|[<-|[]]]; [now apply H3|].
    exists r. split; [apply in_app_iff; right; now left|now split].
Qed.

Lemma insert_record_columns (st : loader) (name : string)
    (fields : list (string * option string)) (db : sqlite_db) (pre : list xml_record) :
  first_pass_columns st pre ->
  insert_record name fields (dbcon st) = Ok db ->
  first_pass_columns {| dbcon := db; known := known st; forkeys := forkeys st |} pre.
Proof.
  intros Hcols Hins. apply insert_record_spec in Hins as (t & rs & Ht & _ & Htab).
  destruct (Hcols _ t Ht) as (H1 & H2 & H3).
  eapply first_pass_columns_update; eauto.
Qed.

Lemma load_record_columns (st st' : loader) (r : xml_record) (pre : list xml_record) :
  first_pass_ok st /\ first_pass_columns st pre -> load_record st r = Ok st' ->
  first_pass_ok st' /\ first_pass_columns st' (pre ++ [r]).
Proof.
  intros [Hok Hcols] Hload. split; [eapply load_record_ok; eauto|].
  apply (first_pass_columns_mono _ _ r) in Hcols.
  revert Hload. unfold load_record.
  assert (Hloop : forall l s s',
            (forall c, In c l -> In c (List.map fst (rec_fields r))) ->
            first_pass_columns s (pre ++ [r]) ->
            fold_result (new_column (rec_table r)) l s = Ok s' ->
            first_pass_columns s' (pre ++ [r])).
  { intros l s s' Hl Hs Hf.
    eapply (fold_result_inv _ (fun s => first_pass_columns s (pre ++ [r]))); [|exact Hs|exact Hf].
    intros s0 a s0' Ha Hs0. apply new_column_columns; auto. }
  destruct (known st !! rec_table r) as [cols|] eqn:Ek.
  - simpl. destruct (fold_result _ _ st) as [st2|] eqn:E2; simpl; [|discriminate].
    destruct (insert_record _ _ _) as [db|] eqn:Ei; simpl; [|discriminate].
    intros [= <-]. eapply insert_record_columns; [|exact Ei].
    eapply Hloop; [|exact Hcols|exact E2]. intros c. apply new_columns_In.
  - destruct (new_table _ _ st) as [st1|] eqn:E1; simpl; [|discriminate].
    destruct (fold_result _ _ st1) as [st2|] eqn:E2; simpl; [|discriminate].
    destruct (insert_record _ _ _) as [db|] eqn:Ei; simpl; [|discriminate].
    intros [= <-]. eapply insert_record_columns; [|exact Ei].
    eapply Hloop; [|eapply new_table_columns; eauto|exact E2].
    intros c. apply new_columns_In.
Qed.

Lemma first_pass_has_columns (records : list xml_record) (st : loader) :
  first_pass records = Ok st -> first_pass_columns st records.
Proof.
  unfold first_pass. intros H.
  apply (fold_result_prefix load_record
           (fun s pre => first_pass_ok s /\ first_pass_columns s pre) records) with (pre := [])
    in H; [apply H| |].
  - intros s a s' pre. apply load_record_columns.
  - split; [split|]; cbn [dbcon known tables empty_db].
    + intros n. now rewrite !lookup_empty.
    + intros n t. now rewrite lookup_empty.
    + intros n t. cbn [dbcon tables empty_db]. now rewrite lookup_empty.
Qed.

(** ** The loaded store *)





(** ** Column types *)

Lemma substring_all (s : string) : substring 0 (String.length s) s = s.
Proof. induction s as [|c s IH]; simpl; [reflexivity|]. now rewrite IH. Qed.

Lemma substring_split (k : nat) (s : string) :
  (k <= String.length s)%nat ->
  String.append (substring 0 k s) (substring k (String.length s - k) s) = s.
Proof.
  revert k. induction s as [|c s IH]; intros k Hk; simpl in Hk.
  - destruct k; [reflexivity|lia].
  - destruct k as [|k]; simpl.
    + now rewrite substring_all.
    + assert (E : forall a b, String.append (String c a) b = String c (String.append a b))
        by reflexivity.
      rewrite E, IH by lia. reflexivity.
Qed.

(** A name that ends in [_id] is its stem followed by [_id]. *)
Lemma endswith_id (s : string) :
  endswith "_id" s = true -> s = String.append (drop_last3 s) "_id".
Proof.
  unfold endswith, drop_last3. cbn [String.length].
  destruct (Nat.leb_spec 3 (String.length s)) as [Hlen|]; [|discriminate].
  simpl. intros E. apply String_eqb_iff in E.
  rewrite <- (substring_split (String.length s - 3) s) at 1 by lia.
  replace (String.length s - (String.length s - 3))%nat with 3%nat by lia.
  now rewrite E.
Qed.

Lemma declared_type (name : string) (c : column) :
  declared name c ->
  col_type c = type_by_name (col_name c)
  /\ (col_pk c = true ->
      col_name c = String.append name "_id"
      /\ existsb (String.eqb name) PK_EXCEPTIONS = false).
Proof.
  unfold type_by_name. intros [E|E]; rewrite E; clear E.
  - rewrite col_name_column_def. unfold column_def.
    destruct (endswith "_id" (col_name c)) eqn:Hid; cbn [col_type col_pk orb].
    + split; [reflexivity|]. unfold is_primary_key. intros Hpk.
      apply andb_true_iff in Hpk as [Hstem Hexc]. apply String_eqb_iff in Hstem.
      split; [rewrite <- Hstem; now apply endswith_id|].
      now apply negb_true_iff in Hexc.
    + destruct (String.eqb (col_name c) "uid"); cbn [col_type col_pk];
        (split; [reflexivity|discriminate]).
  - cbn [added_column col_name col_type col_pk]. split; [reflexivity|discriminate].
Qed.

(** X6.  In a loaded store every column (the metadata table apart) has
    the type its name gives it, INTEGER for a name that ends in [_id] and
    for [uid], TEXT otherwise; and the only column that can be a primary
    key is [<table>_id], never in a table of [PK_EXCEPTIONS]. *)
Theorem loaded_column_types (namespace root_element : option string)
    (records : list xml_record) (db : sqlite_db) (t : string) (tb : table) (c : column) :
  load namespace root_element records = Ok db ->
  t <> META_TABLE -> tables db !! t = Some tb -> In c (columns tb) ->
  col_type c = type_by_name (col_name c)
  /\ (col_pk c = true ->
      col_name c = String.append t "_id"
      /\ existsb (String.eqb t) PK_EXCEPTIONS = false).
Proof.
  intros Hload Hmeta Htb Hc. apply declared_type.
  destruct (loaded_origin _ _ _ _ _ _ Hload Hmeta Htb) as (st & t0 & Hfp & Ht0 & Hrel).
  destruct (dict_get String.eqb t _) as [fks|].
  - destruct Hrel as (Hcols & _). rewrite Hcols in Hc.
    apply in_map_iff in Hc as (n & <- & _). apply declared_column_def.
  - subst tb. destruct (first_pass_has_columns _ _ Hfp _ _ Ht0) as (_ & H2 & _).
    rewrite Forall_forall in H2. now apply H2, list_elem_of_In.
Qed.

Lemma loaded_column_types_witness :
  load Fixture.demo_namespace Fixture.demo_root Fixture.demo_records = Ok Fixture.demo_store
  /\ List.map (fun c => (col_name c, col_type c, col_pk c))
       (default [] (columns <$> (tables Fixture.demo_store !! "object")))
     = [ ("object_id", INTEGER, true); ("class_id", INTEGER, false); ("name", TEXT, false);
         ("description", TEXT, false); ("category_id", INTEGER, false) ]
  /\ type_by_name "category_id" = INTEGER.
Proof.
  assert (H : load Fixture.demo_namespace Fixture.demo_root Fixture.demo_records
              = Ok Fixture.demo_store) by (vm_compute; reflexivity).
  assert (Hm : "object" <> META_TABLE) by discriminate.
  destruct (tables Fixture.demo_store !! "object") as [tb|] eqn:Htb;
    [|vm_compute in Htb; discriminate].
  assert (E : columns tb = List.map (column_def "object")
                ["object_id"; "class_id"; "name"; "description"; "category_id"])
    by (vm_compute in Htb; injection Htb as <-; reflexivity).
  split; [exact H|]. split; [simpl; rewrite E; reflexivity|].
  pose (c := column_def "object" "category_id").
  assert (Hc : In c (columns tb)) by (rewrite E; simpl; auto 6).
  destruct (loaded_column_types _ _ _ _ _ _ c H Hm Htb Hc) as [Ht _].
  transitivity (col_type c); [symmetry; exact Ht|reflexivity].
Defined.

(** ** [load], then [save] *)

Lemma filter_all {A} (P : A -> bool) (l : list A) :
  (forall x, In x l -> P x = true) -> List.filter P l = l.
Proof.
  induction l as [|x l IH]; simpl; intros H; [reflexivity|].
  rewrite H by now left. f_equal. apply IH. auto.
Qed.

Lemma save_with_metadata (db : sqlite_db) (namespace root_element : option string) :
  tables db !! META_TABLE = Some (meta_table namespace root_element) ->
  save db
  = Ok {| root := percent_s root_element; xmlns := percent_s namespace;
          body := List.flat_map (table_elements db)
                    (List.filter (fun n => negb (String.eqb n META_TABLE))
                       (sorted (table_names db))) |}.
Proof.
  intros Hm. unfold save, plexos_meta, select_meta. rewrite Hm. cbn.
  rewrite lookup_insert_eq, lookup_insert_ne, lookup_insert_eq by discriminate.
  now rewrite save_tables_spec.
Qed.



(** X8.  Without a metadata table [save] falls back on the root element
    [MasterDataSet] and the namespace of the master data set, and writes
    every table. *)
Theorem save_without_metadata (db : sqlite_db) :
  tables db !! META_TABLE = None ->
  save db
  = Ok {| root := "MasterDataSet"; xmlns := "http://tempuri.org/MasterDataSet.xsd";
          body := List.flat_map (table_elements db) (sorted (table_names db)) |}.
Proof.
  intros Hm. unfold save, plexos_meta, select_meta. rewrite Hm.
  rewrite lookup_insert_eq, lookup_insert_ne, lookup_insert_eq by discriminate.
  cbn [percent_s default]. rewrite save_tables_spec. cbn [app].
  rewrite filter_all; [reflexivity|].
  intros n Hn. apply negb_true_iff, String.eqb_neq. intros ->.
  assert (Hin : In META_TABLE (table_names db)).
  { eapply Permutation_in; [apply order_by_perm|exact Hn]. }
  apply table_names_In in Hin as [x Hx]. congruence.
Qed.

Lemma save_without_metadata_witness :
  tables (dbcon Fixture.demo_pass) !! META_TABLE = None
  /\ List.map e_tag (match save (dbcon Fixture.demo_pass) with
                     | Ok d => body d
                     | Raise _ => []
                     end)
     = ["t_class"; "t_class"; "t_object"; "t_object"].
Proof.
  assert (H : tables (dbcon Fixture.demo_pass) !! META_TABLE = None)
    by (vm_compute; reflexivity).
  split; [exact H|]. rewrite (save_without_metadata _ H). vm_compute. reflexivity.
Defined.

(** ** The records come back *)

Lemma rebuild_presence (kn : gmap string (list string)) (l : list (string * list string))
    (n : string) :
  forall db db',
    fold_result (rebuild_table kn) l db = Ok db' ->
    (forall e, In e l -> n <> todelete (fst e)) ->
    is_Some (tables db !! n) -> is_Some (tables db' !! n).
Proof.
  induction l as [|[name fks] l IH]; cbn [fold_result]; intros db db'.
  - now intros [= <-].
  - destruct (rebuild_table kn db (name, fks)) as [db1|] eqn:E1; cbn [rbind]; [|discriminate].
    intros Hrest Htmp Hn. apply (IH db1 db' Hrest); [intros e He; apply Htmp; now right|].
    apply rebuild_table_spec in E1 as (t & cols & rs & _ & _ & _ & Hnew & _ & Hother).
    destruct (decide (n = name)) as [->|Hne]; [rewrite Hnew; eauto|].
    rewrite Hother; [exact Hn|exact Hne|]. apply (Htmp (name, fks)). now left.
Qed.

Lemma table_elements_of (db : sqlite_db) (t : string) (tb : table) :
  tables db !! t = Some tb ->
  table_elements db t
  = List.map (fun row => {| e_tag := String.append "t_" t;
                            e_children := present_fields (column_names tb) row |}) (rows tb).
Proof. intros H. unfold table_elements. now rewrite H. Qed.



(* ================================================================== *)
(** * Deleting, tagging and untagging *)
(* ================================================================== *)

Lemma filter_filter {A} (P Q : A -> bool) (l : list A) :
  List.filter P (List.filter Q l) = List.filter (fun x => Q x && P x) l.
Proof.
  induction l as [|x l IH]; simpl; [reflexivity|].
  destruct (Q x); simpl; [destruct (P x)|]; now rewrite IH.
Qed.

Lemma without_nil {A} (key : A -> Z) (t : list A) : without [] key t = t.
Proof. unfold without. apply filter_all. reflexivity. Qed.

Lemma without_cons {A} (did : Z) (ids : list Z) (key : A -> Z) (t : list A) :
  without ids key (List.filter (fun x => negb (Z.eqb (key x) did)) t)
  = without (did :: ids) key t.
Proof.
  unfold without. rewrite filter_filter. apply filter_ext. intros x. simpl.
  now rewrite negb_orb.
Qed.

Lemma purged_nil (db : database) : purged [] db = db.
Proof. destruct db. unfold purged. cbn -[without]. now rewrite !without_nil. Qed.

(** The loop of [delete_property]. *)
Lemma delete_loop (ids : list Z) :
  forall c c',
    for_each ids (fun did =>
      let* _ := require_table "text" in
      let* _ := execute (with_text_t (List.filter (fun x => negb (Z.eqb (x_data_id x) did)))) in
      let* _ := require_table "tag" in
      let* _ := execute (with_tag_t (List.filter (fun t => negb (Z.eqb (t_data_id t) did)))) in
      let* _ := require_table "band" in
      let* _ := execute (with_band_t (List.filter (fun b => negb (Z.eqb (b_data_id b) did)))) in
      execute (with_data_t (List.filter (fun d => negb (Z.eqb (data_id d) did))))) c
    = (Ok tt, c') ->
    table_list c' = table_list c /\ has_data_uid c' = has_data_uid c
    /\ hierarchy_cache c' = hierarchy_cache c /\ durable c' = durable c
    /\ work c' = purged ids (work c).
Proof.
  induction ids as [|did ids IH]; intros c c'.
  - simpl. unfold ret. intros [= <-]. now rewrite purged_nil.
  - rewrite for_each_cons. unfold bind at 1, require_table at 1.
    destruct (has_table c "text") eqn:Hx; [|discriminate].
    unfold bind at 1, execute at 1. unfold bind at 1, require_table at 1.
    unfold has_table at 1. cbn [table_list]. fold (has_table c "tag").
    destruct (has_table c "tag") eqn:Ht; [|discriminate].
    unfold bind at 1, execute at 1. unfold bind at 1, require_table at 1.
    unfold has_table at 1. cbn [table_list]. fold (has_table c "band").
    destruct (has_table c "band") eqn:Hb; [|discriminate].
    unfold bind at 1, execute at 1. unfold execute at 1.
    cbn [table_list has_data_uid hierarchy_cache work durable].
    intros Hrest. apply IH in Hrest as (H1 & H2 & H3 & H4 & H5).
    cbn [table_list has_data_uid hierarchy_cache work durable] in *.
    repeat (split; [assumption|]). rewrite H5.
    destruct (work c). unfold purged, with_data_t, with_band_t, with_tag_t, with_text_t.
    cbn -[without]. now rewrite !without_cons.
Qed.

Lemma filter_without {A} (ids : list Z) (key : A -> Z) (k : Z) (t : list A) :
  ~ In k ids ->
  List.filter (fun x => Z.eqb (key x) k) (without ids key t)
  = List.filter (fun x => Z.eqb (key x) k) t.
Proof.
  intros Hk. unfold without. rewrite filter_filter. apply filter_ext. intros x.
  destruct (Z.eqb_spec (key x) k) as [->|]; [|now rewrite andb_false_r].
  rewrite andb_true_r. apply negb_true_iff, not_true_is_false.
  intros H. now apply existsb_Zeqb_In in H.
Qed.

Lemma without_In {A} (ids : list Z) (key : A -> Z) (t : list A) (x : A) :
  In x (without ids key t) <-> In x t /\ ~ In (key x) ids.
Proof.
  unfold without. rewrite filter_In, negb_true_iff. split; intros [H1 H2]; split; auto.
  - intros H. apply existsb_Zeqb_In in H. congruence.
  - apply not_true_is_false. intros H. now apply existsb_Zeqb_In in H.
Qed.

Lemma view_of_purged (ids : list Z) (db : database) (d : data_row) :
  ~ In (data_id d) ids -> view_of_data (purged ids db) d = view_of_data db d.
Proof.
  intros Hd. apply view_of_data_ext; cbn [purged property_t membership_t tag_t text_t band_t];
    try reflexivity; now apply filter_without.
Qed.

(** What is left of the view once the selected data rows are gone: no row
    the selection would find. *)
Lemma owned_purged (db : database) (oid : Z) (name : string) (tid : Z) :
  List.filter (owned_by oid name tid)
    (property_view (purged (owned_data db oid name tid) db)) = [].
Proof.
  apply filter_none. intros r Hr. apply not_true_is_false. intros Hown.
  unfold property_view in Hr. apply in_flat_map in Hr as (d & Hd & Hr).
  cbn [purged data_t] in Hd. apply without_In in Hd as [Hd Hid].
  rewrite view_of_purged in Hr by exact Hid.
  apply Hid. destruct (view_of_data_row_fields _ _ _ Hr) as [<- _].
  unfold owned_data. apply in_map. apply filter_In. split; [|exact Hown].
  unfold property_view. apply in_flat_map. eauto.
Qed.

Lemma purged_same_schema (ids : list Z) (db : database) : same_schema (purged ids db) db.
Proof. repeat split. Qed.

(** X10.  [delete_property], when it returns, has removed exactly the data
    rows its query selected, with their text, tag and band rows, and a
    [get_property] for the same name and tag then returns [None]. *)
Theorem delete_then_get (c c' : COAD) (self : ObjectDict) (name : string) (tag : tag_arg) :
  delete_property self name tag c = (Ok tt, c') ->
  exists tag_obj,
    resolve_tag (work c) tag = Ok tag_obj
    /\ work c' = purged (owned_data (work c) (object_id (o_meta self)) name
                           (object_id (o_meta tag_obj))) (work c)
    /\ get_property c' self name tag = Ok None.
Proof.
  unfold delete_property. unfold bind at 1, lift at 1.
  destruct (resolve_tag (work c) tag) as [tag_obj|] eqn:Htag; [|discriminate].
  unfold bind at 1, require_table at 1.
  destruct (has_table c "data") eqn:Hdata; [|discriminate].
  unfold bind at 1, query at 1. unfold bind at 1.
  match goal with |- context [for_each ?l ?b c] =>
    destruct (for_each l b c) as [[[]|e] c1] eqn:Hloop end; [|discriminate].
  unfold commit. intros [= <-].
  apply delete_loop in Hloop as (H1 & H2 & H3 & H4 & H5).
  fold (owned_data (work c) (object_id (o_meta self)) name (object_id (o_meta tag_obj))) in H5.
  exists tag_obj. split; [reflexivity|]. cbn [work]. split; [exact H5|].
  unfold get_property, has_table. cbn [table_list work]. rewrite H1.
  fold (has_table c "data"). rewrite Hdata. cbn [negb].
  assert (Htag' : resolve_tag (work c1) tag = Ok tag_obj).
  { rewrite <- Htag. destruct tag as [o|s]; [reflexivity|]. cbn [resolve_tag].
    apply get_by_hierarchy_same_schema. rewrite H5. apply purged_same_schema. }
  rewrite Htag'. cbn [rbind].
  match goal with |- context [property_rows ?c0 ?a ?b ?d] =>
    assert (Hrows : property_rows c0 a b d = []) end.
  { apply property_rows_nil. cbn [work]. rewrite H5. apply owned_purged. }
  rewrite Hrows. reflexivity.
Qed.

Lemma delete_then_get_witness :
  fst (delete_property Fixture.G1 "Rating" System_System Fixture.demo) = Ok tt
  /\ get_property (snd (delete_property Fixture.G1 "Rating" System_System Fixture.demo))
       Fixture.G1 "Rating" System_System = Ok None
  /\ List.map data_id
       (data_t (work (snd (delete_property Fixture.G1 "Rating" System_System Fixture.demo))))
     = [1].
Proof.
  assert (H : delete_property Fixture.G1 "Rating" System_System Fixture.demo
              = (Ok tt, snd (delete_property Fixture.G1 "Rating" System_System Fixture.demo)))
    by reflexivity.
  destruct (delete_then_get _ _ _ _ _ H) as (o & _ & _ & Hget).
  split; [reflexivity|]. split; [exact Hget|reflexivity].
Defined.

(** ** The rows of the view *)

Lemma left_outer_Some {A B} (f : A -> B) (l : list A) (b : B) :
  In (Some b) (left_outer f l) <-> exists a, In a l /\ f a = b.
Proof.
  destruct l as [|a0 l].
  - simpl. split; [intros [H|[]]; discriminate|intros (a & [] & _)].
  - unfold left_outer. rewrite in_map_iff. split.
    + intros (a & [= <-] & Ha). eauto.
    + intros (a & Ha & <-). eauto.
Qed.

Lemma view_row_In (db : database) (d : data_row) (r : view_row) :
  In r (view_of_data db d) <->
  exists p m t x b,
    In p (property_t db) /\ property_id p = d_property_id d
    /\ In m (membership_t db) /\ membership_id m = d_membership_id d
    /\ In t (left_outer t_object_id
               (List.filter (fun t => Z.eqb (t_data_id t) (data_id d)) (tag_t db)))
    /\ In x (left_outer x_value
               (List.filter (fun x => Z.eqb (x_data_id x) (data_id d)) (text_t db)))
    /\ In b (left_outer band_id
               (List.filter (fun b => Z.eqb (b_data_id b) (data_id d)) (band_t db)))
    /\ r = {| v_data_id := data_id d; v_value := d_value d; v_name := p_name p;
              v_input_mask := input_mask p; v_child_object_id := child_object_id m;
              v_parent_object_id := parent_object_id m; v_tag_object_id := t;
              v_text_value := x; v_band_id := b |}.
Proof.
  unfold view_of_data. split.
  - intros H. apply in_flat_map in H as (p & Hp & H). apply filter_In in Hp as [Hp Ep].
    apply in_flat_map in H as (m & Hm & H). apply filter_In in Hm as [Hm Em].
    apply in_flat_map in H as (t & Ht & H). apply in_flat_map in H as (x & Hx & H).
    apply in_map_iff in H as (b & <- & Hb).
    apply Z.eqb_eq in Ep, Em. exists p, m, t, x, b. repeat split; assumption.
  - intros (p & m & t & x & b & Hp & Ep & Hm & Em & Ht & Hx & Hb & ->).
    apply in_flat_map. exists p. split; [apply filter_In; split; [exact Hp|now apply Z.eqb_eq]|].
    apply in_flat_map. exists m. split; [apply filter_In; split; [exact Hm|now apply Z.eqb_eq]|].
    apply in_flat_map. exists t. split; [exact Ht|].
    apply in_flat_map. exists x. split; [exact Hx|].
    apply in_map_iff. exists b. now split.
Qed.

(** A data row has a view row of the property exactly when it carries it,
    whatever the tag, text and band tables hold. *)
Lemma of_property_row (db : database) (oid : Z) (name : string) (d : data_row) :
  (exists r, In r (view_of_data db d) /\ of_property oid name r = true)
  <-> carries db oid name d.
Proof.
  split.
  - intros (r & Hr & Hof). apply view_row_In in Hr
      as (p & m & t & x & b & Hp & Ep & Hm & Em & _ & _ & _ & ->).
    unfold of_property in Hof. cbn in Hof. apply andb_true_iff in Hof as [Hc Hn].
    apply Z.eqb_eq in Hc. apply String_eqb_iff in Hn.
    exists p, m. repeat split; assumption.
  - intros (p & m & Hp & Ep & Hn & Hm & Em & Hc).
    destruct (left_outer_nonempty t_object_id
      (List.filter (fun t => Z.eqb (t_data_id t) (data_id d)) (tag_t db))) as [t Ht].
    destruct (left_outer_nonempty x_value
      (List.filter (fun x => Z.eqb (x_data_id x) (data_id d)) (text_t db))) as [x Hx].
    destruct (left_outer_nonempty band_id
      (List.filter (fun b => Z.eqb (b_data_id b) (data_id d)) (band_t db))) as [b Hb].
    eexists. split; [apply view_row_In; exists p, m, t, x, b; repeat split; eassumption|].
    unfold of_property. cbn. rewrite Hc, Hn, Z.eqb_refl, String.eqb_refl. reflexivity.
Qed.

(** ... and one tagged with [tid] exactly when, besides, a Tag row joins it
    to [tid]. *)
Lemma tagged_row (db : database) (oid : Z) (name : string) (tid : Z) (d : data_row) :
  (exists r, In r (view_of_data db d)
             /\ of_property oid name r = true /\ sql_eq_opt (v_tag_object_id r) tid = true)
  <-> carries db oid name d
      /\ exists t, In t (tag_t db) /\ t_data_id t = data_id d /\ t_object_id t = tid.
Proof.
  split.
  - intros (r & Hr & Hof & Htag). split; [apply of_property_row; eauto|].
    apply view_row_In in Hr as (p & m & t & x & b & _ & _ & _ & _ & Ht & _ & _ & ->).
    cbn in Htag. destruct t as [t|]; [|discriminate]. apply Z.eqb_eq in Htag. subst t.
    apply left_outer_Some in Ht as (a & Ha & Hao). apply filter_In in Ha as [Ha Ea].
    apply Z.eqb_eq in Ea. eauto.
  - intros [(p & m & Hp & Ep & Hn & Hm & Em & Hc) (t & Ht & Etd & Eto)].
    destruct (left_outer_nonempty x_value
      (List.filter (fun x => Z.eqb (x_data_id x) (data_id d)) (text_t db))) as [x Hx].
    destruct (left_outer_nonempty band_id
      (List.filter (fun b => Z.eqb (b_data_id b) (data_id d)) (band_t db))) as [b Hb].
    eexists. split; [apply view_row_In; exists p, m, (Some tid), x, b;
                     repeat split; try eassumption|].
    + apply left_outer_Some. exists t. split; [|exact Eto].
      apply filter_In. split; [exact Ht|now apply Z.eqb_eq].
    + unfold of_property. cbn. rewrite Hc, Hn, !Z.eqb_refl, String.eqb_refl. now split.
Qed.

Lemma tagged_data_In (db : database) (oid : Z) (name : string) (tid did : Z) :
  In did (tagged_data db oid name tid) <->
  exists d, In d (data_t db) /\ data_id d = did /\ carries db oid name d
            /\ exists t, In t (tag_t db) /\ t_data_id t = did /\ t_object_id t = tid.
Proof.
  unfold tagged_data, property_view. rewrite in_map_iff. split.
  - intros (r & <- & Hr). apply filter_In in Hr as [Hr Hp]. apply andb_true_iff in Hp as [Hof Ht].
    apply in_flat_map in Hr as (d & Hd & Hr).
    destruct (view_of_data_row_fields _ _ _ Hr) as [Eid _].
    destruct (proj1 (tagged_row db oid name tid d)) as [Hc (t & H1 & H2 & H3)]; [eauto|].
    exists d. rewrite Eid. split; [exact Hd|]. split; [reflexivity|]. split; [exact Hc|].
    exists t. auto.
  - intros (d & Hd & <- & Hc & t & H1 & H2 & H3).
    destruct (proj2 (tagged_row db oid name tid d)) as (r & Hr & Hof & Ht); [eauto|].
    exists r. destruct (view_of_data_row_fields _ _ _ Hr) as [Eid _].
    split; [exact Eid|]. apply filter_In. split; [apply in_flat_map; eauto|].
    now rewrite Hof, Ht.
Qed.

(** ** Tagging *)

Lemma dedup_In (x : Z) (l : list Z) : In x (dedup l) <-> In x l.
Proof.
  induction l as [|y l IH]; simpl; [tauto|].
  destruct (existsb (Z.eqb y) l) eqn:E.
  - rewrite IH. split; [auto|]. intros [<-|H]; [|exact H]. now apply existsb_Zeqb_In.
  - simpl. now rewrite IH.
Qed.

Lemma group_by_id_In (x : Z) (l : list Z) : In x (group_by_id l) <-> In x l.
Proof.
  unfold group_by_id. split; intros H.
  - apply dedup_In. eapply Permutation_in; [apply order_by_perm|exact H].
  - eapply Permutation_in; [symmetry; apply order_by_perm|]. now apply dedup_In.
Qed.

Lemma untagged_data_In (db : database) (oid : Z) (name : string) (tid did : Z) :
  In did (untagged_data db oid name tid) <->
  (exists r, In r (property_view db) /\ of_property oid name r = true /\ v_data_id r = did)
  /\ ~ (exists r, In r (property_view db)
                  /\ sql_eq_opt (v_tag_object_id r) tid = true /\ v_data_id r = did).
Proof.
  unfold untagged_data. rewrite group_by_id_In, in_map_iff. split.
  - intros (r & <- & Hr). apply filter_In in Hr as [Hr Hp].
    apply andb_true_iff in Hp as [Hof Hno]. apply negb_true_iff in Hno.
    split; [eauto|]. intros (r' & Hr' & Ht & Eid).
    assert (H : existsb (Z.eqb (v_data_id r))
                  (List.map v_data_id
                     (List.filter (fun r => sql_eq_opt (v_tag_object_id r) tid)
                        (property_view db))) = true); [|congruence].
    apply existsb_Zeqb_In. rewrite <- Eid. apply in_map. now apply filter_In.
  - intros [(r & Hr & Hof & <-) Hno]. exists r. split; [reflexivity|].
    apply filter_In. split; [exact Hr|]. fold (of_property oid name r). rewrite Hof.
    apply negb_true_iff, not_true_is_false. intros H. apply existsb_Zeqb_In in H.
    apply in_map_iff in H as (r' & Eid & Hr'). apply filter_In in Hr' as [Hr' Ht].
    apply Hno. eauto.
Qed.

Lemma view_In (db : database) (r : view_row) :
  In r (property_view db) <-> exists d, In d (data_t db) /\ In r (view_of_data db d).
Proof. unfold property_view. apply in_flat_map. Qed.

(** A data row that carries the property is selected for tagging or has the
    tag already. *)
Lemma untagged_or_tagged (db : database) (oid : Z) (name : string) (tid : Z) (d : data_row) :
  In d (data_t db) -> carries db oid name d ->
  In (data_id d) (untagged_data db oid name tid)
  \/ exists t, In t (tag_t db) /\ t_data_id t = data_id d /\ t_object_id t = tid.
Proof.
  intros Hd Hc. apply of_property_row in Hc as (r & Hr & Hof).
  destruct (view_of_data_row_fields _ _ _ Hr) as [Eid _].
  destruct (existsb (Z.eqb (data_id d))
              (List.map v_data_id
                 (List.filter (fun r => sql_eq_opt (v_tag_object_id r) tid)
                    (property_view db)))) eqn:E.
  - right. apply existsb_Zeqb_In, in_map_iff in E as (r' & Eid' & Hr').
    apply filter_In in Hr' as [Hr' Ht]. apply view_In in Hr' as (d' & Hd' & Hr').
    apply view_row_In in Hr' as (p & m & t & x & b & _ & _ & _ & _ & Ht' & _ & _ & ->).
    cbn in Ht, Eid'. destruct t as [t|]; [|discriminate]. apply Z.eqb_eq in Ht. subst t.
    apply left_outer_Some in Ht' as (a & Ha & Hao). apply filter_In in Ha as [Ha Ea].
    apply Z.eqb_eq in Ea. exists a. repeat split; congruence.
  - left. apply untagged_data_In. split.
    + exists r. split; [apply view_In; eauto|]. now split.
    + intros (r' & Hr' & Ht & Eid').
      assert (H : existsb (Z.eqb (data_id d))
                    (List.map v_data_id
                       (List.filter (fun r => sql_eq_opt (v_tag_object_id r) tid)
                          (property_view db))) = true); [|congruence].
      apply existsb_Zeqb_In. rewrite <- Eid'. apply in_map. now apply filter_In.
Qed.

(** What [tag_property] does when it returns. *)
Lemma tag_property_eval (c c1 : COAD) (self : ObjectDict) (name tag : string) :
  tag_property self name tag c = (Ok tt, c1) ->
  exists tag_obj,
    get_by_hierarchy (work c) tag = Ok tag_obj
    /\ has_table c "data" = true /\ has_table c "tag" = true
    /\ c1 = tagged_with
              (List.map (fun did => {| t_data_id := did;
                                       t_object_id := object_id (o_meta tag_obj) |})
                 (untagged_data (work c) (object_id (o_meta self)) name
                    (object_id (o_meta tag_obj)))) c.
Proof.
  unfold tag_property, bind, lift, require_table, query, execute, commit.
  destruct (get_by_hierarchy (work c) tag) as [o|]; [|discriminate].
  rewrite tag_property_guard_never_fires.
  destruct (has_table c "data") eqn:Hd; [|discriminate].
  destruct (has_table c "tag") eqn:Ht; [|discriminate].
  intros [= <-]. exists o. repeat split.
Qed.

Lemma tag_property_run (c : COAD) (self : ObjectDict) (name tag : string) (o : ObjectDict) :
  get_by_hierarchy (work c) tag = Ok o ->
  has_table c "data" = true -> has_table c "tag" = true ->
  tag_property self name tag c
  = (Ok tt,
     tagged_with
       (List.map (fun did => {| t_data_id := did; t_object_id := object_id (o_meta o) |})
          (untagged_data (work c) (object_id (o_meta self)) name (object_id (o_meta o)))) c).
Proof.
  intros Ho Hd Ht.
  unfold tag_property, bind, lift, require_table, query, execute, commit.
  rewrite Ho, tag_property_guard_never_fires, Hd.
  unfold has_table in *. cbn [table_list]. rewrite Ht. reflexivity.
Qed.

Lemma tagged_with_nil (c : COAD) : durable c = work c -> tagged_with [] c = c.
Proof.
  intros H. destruct c as [tl u hc w d]. cbn in H. subst d. unfold tagged_with. cbn.
  destruct w. unfold with_tag_t. cbn. now rewrite app_nil_r.
Qed.

Lemma empty_list {A} (l : list A) : (forall x, ~ In x l) -> l = [].
Proof. destruct l as [|x l]; [reflexivity|]. intros H. destruct (H x). now left. Qed.

(** Once tagged, nothing of the property is left to tag. *)
Lemma nothing_left_to_tag (db : database) (oid : Z) (name : string) (tid : Z) :
  untagged_data
    (with_tag_t (fun t => t ++
       List.map (fun did => {| t_data_id := did; t_object_id := tid |})
         (untagged_data db oid name tid)) db) oid name tid = [].
Proof.
  set (new := List.map _ _). set (db1 := with_tag_t _ db).
  apply empty_list. intros did Hin. apply untagged_data_In in Hin as [(r & Hr & Hof & Eid) Hno].
  apply view_In in Hr as (d & Hd & Hr).
  destruct (view_of_data_row_fields _ _ _ Hr) as [Eid' _].
  assert (Hc1 : carries db1 oid name d) by (apply of_property_row; eauto).
  assert (Hc : carries db oid name d) by exact Hc1.
  assert (Htag : exists t, In t (tag_t db1) /\ t_data_id t = data_id d /\ t_object_id t = tid).
  { destruct (untagged_or_tagged db oid name tid d Hd Hc) as [Hu|(t & Ht & E1 & E2)].
    - exists {| t_data_id := data_id d; t_object_id := tid |}. split; [|now split].
      cbn. apply in_app_iff. right. unfold new.
      apply (in_map (fun did => {| t_data_id := did; t_object_id := tid |})). exact Hu.
    - exists t. split; [cbn; apply in_app_iff; now left|now split]. }
  destruct (proj2 (tagged_row db1 oid name tid d) (conj Hc1 Htag)) as (r' & Hr' & _ & Ht').
  apply Hno. exists r'. split; [apply view_In; eauto|]. split; [exact Ht'|].
  destruct (view_of_data_row_fields _ _ _ Hr') as [-> _]. congruence.
Qed.

Lemma tag_rows_same_schema (new : list tag_row) (db : database) :
  same_schema (with_tag_t (fun t => t ++ new) db) db.
Proof. repeat split. Qed.

(** X11.  [tag_property] is idempotent: called again with the same
    arguments it finds nothing left to tag and leaves the handle as the
    first call left it. *)
Theorem tag_property_idempotent (c c1 : COAD) (self : ObjectDict) (name tag : string) :
  tag_property self name tag c = (Ok tt, c1) ->
  tag_property self name tag c1 = (Ok tt, c1).
Proof.
  intros H. apply tag_property_eval in H as (o & Ho & Hd & Ht & ->).
  set (c1 := tagged_with _ c).
  assert (Ho1 : get_by_hierarchy (work c1) tag = Ok o).
  { rewrite <- Ho. apply get_by_hierarchy_same_schema, tag_rows_same_schema. }
  rewrite (tag_property_run c1 self name tag o Ho1 Hd Ht).
  assert (E : untagged_data (work c1) (object_id (o_meta self)) name (object_id (o_meta o))
              = []) by apply nothing_left_to_tag.
  rewrite E. cbn [List.map]. now rewrite (tagged_with_nil c1) by reflexivity.
Qed.

Lemma tag_property_idempotent_witness :
  fst (tag_property Fixture.G1 "Rating" "Scenario.S1" Fixture.demo) = Ok tt
  /\ tag_property Fixture.G1 "Rating" "Scenario.S1"
       (snd (tag_property Fixture.G1 "Rating" "Scenario.S1" Fixture.demo))
     = (Ok tt, snd (tag_property Fixture.G1 "Rating" "Scenario.S1" Fixture.demo))
  /\ List.length
       (tag_t (work (snd (tag_property Fixture.G1 "Rating" "Scenario.S1" Fixture.demo))))
     = 2%nat.
Proof.
  split; [reflexivity|]. split; [|reflexivity].
  apply (tag_property_idempotent Fixture.demo). reflexivity.
Defined.

(** ** Untagging *)

Lemma with_tag_id (db : database) (f : list tag_row -> list tag_row) :
  f (tag_t db) = tag_t db -> with_tag_t f db = db.
Proof. intros H. destruct db. unfold with_tag_t. cbn in *. now rewrite H. Qed.

(** What [untag_property] does for an object other than the one with id 1,
    on a store with its data and tag tables. *)
Lemma untag_property_run (c : COAD) (self : ObjectDict) (name tag : string) (o : ObjectDict) :
  get_by_hierarchy (work c) tag = Ok o ->
  object_id (o_meta o) <> 1 ->
  has_table c "data" = true -> has_table c "tag" = true ->
  exists c',
    untag_property self name tag c = (Ok tt, c')
    /\ work c' = with_tag_t
                   (untag_rows (tagged_data (work c) (object_id (o_meta self)) name
                                  (object_id (o_meta o))) (object_id (o_meta o))) (work c)
    /\ durable c' = durable c.
Proof.
  intros Ho Hid Hd Ht.
  unfold untag_property, bind, lift, require_table, query, execute.
  rewrite Ho, untag_property_guard.
  destruct (Z.eqb_spec (object_id (o_meta o)) 1) as [|_]; [contradiction|].
  rewrite Hd.
  change (List.map v_data_id (List.filter _ (property_view (work c))))
    with (tagged_data (work c) (object_id (o_meta self)) name (object_id (o_meta o))).
  destruct (tagged_data (work c) _ name _) as [|did ids] eqn:E.
  - eexists. split; [reflexivity|]. split; [|reflexivity].
    symmetry. apply with_tag_id. unfold untag_rows. now apply filter_all.
  - rewrite Ht. eexists. split; [reflexivity|]. now split.
Qed.

(** A data id [tag_property] tagged is found tagged afterwards. *)
Lemma newly_tagged (db : database) (oid : Z) (name : string) (tid did : Z)
    (new : list tag_row) :
  In {| t_data_id := did; t_object_id := tid |} new ->
  In did (untagged_data db oid name tid) ->
  In did (tagged_data (with_tag_t (fun t => t ++ new) db) oid name tid).
Proof.
  intros Hnew Hu. apply untagged_data_In in Hu as [(r & Hr & Hof & Eid) _].
  apply view_In in Hr as (d & Hd & Hr).
  destruct (view_of_data_row_fields _ _ _ Hr) as [Eid' _].
  assert (Hc : carries db oid name d) by (apply of_property_row; eauto).
  apply tagged_data_In. exists d. split; [exact Hd|]. split; [congruence|].
  split; [exact Hc|].
  exists {| t_data_id := did; t_object_id := tid |}.
  split; [cbn [with_tag_t tag_t]; apply in_app_iff; right; exact Hnew|]. now split.
Qed.

(** X12.  [untag_property] undoes [tag_property]: when no value of the
    property carried the tag before, tagging and then untagging leaves the
    tables the connection sees as they were.  The removal of the tags is
    not committed. *)
Theorem untag_undoes_tag (c c1 : COAD) (self : ObjectDict) (name tag : string)
    (o : ObjectDict) :
  get_by_hierarchy (work c) tag = Ok o ->
  object_id (o_meta o) <> 1 ->
  tagged_data (work c) (object_id (o_meta self)) name (object_id (o_meta o)) = [] ->
  tag_property self name tag c = (Ok tt, c1) ->
  exists c2,
    untag_property self name tag c1 = (Ok tt, c2)
    /\ work c2 = work c
    /\ durable c2 = durable c1.
Proof.
  intros Ho Hid Hnone Htag.
  apply tag_property_eval in Htag as (o' & Ho' & Hd & Ht & ->).
  rewrite Ho in Ho'. injection Ho' as <-.
  set (oid := object_id (o_meta self)) in *. set (tid := object_id (o_meta o)) in *.
  set (new := List.map (fun did => {| t_data_id := did; t_object_id := tid |})
                (untagged_data (work c) oid name tid)).
  set (c1 := tagged_with new c).
  assert (Ho1 : get_by_hierarchy (work c1) tag = Ok o).
  { rewrite <- Ho. apply get_by_hierarchy_same_schema, tag_rows_same_schema. }
  destruct (untag_property_run c1 self name tag o Ho1 Hid Hd Ht) as (c2 & Hrun & Hw & Hdur).
  exists c2. split; [exact Hrun|]. split; [|exact Hdur].
  rewrite Hw. fold oid tid. cbn [c1 tagged_with work].
  set (ids2 := tagged_data (with_tag_t (fun t => t ++ new) (work c)) oid name tid).
  assert (Hrows : untag_rows ids2 tid (tag_t (work c) ++ new) = tag_t (work c)).
  { unfold untag_rows. rewrite List.filter_app.
    rewrite (filter_all _ (tag_t (work c))), (filter_none _ new); [apply app_nil_r| |].
    - intros t Hin. unfold new in Hin. apply in_map_iff in Hin as (did & <- & Hdid).
      cbn [t_data_id t_object_id]. rewrite Z.eqb_refl, andb_true_r.
      apply negb_false_iff, existsb_Zeqb_In. unfold ids2. apply newly_tagged; [|exact Hdid].
      unfold new. apply (in_map (fun did => {| t_data_id := did; t_object_id := tid |})).
      exact Hdid.
    - intros t Hin. apply negb_true_iff, not_true_is_false. intros H.
      apply andb_true_iff in H as [H1 H2]. apply Z.eqb_eq in H2.
      apply existsb_Zeqb_In in H1. unfold ids2 in H1.
      apply tagged_data_In in H1 as (d & Hd1 & Eid & Hc & _).
      assert (Hbefore : In (t_data_id t) (tagged_data (work c) oid name tid)).
      { apply tagged_data_In. exists d. split; [exact Hd1|]. split; [exact Eid|].
        split; [exact Hc|]. exists t. now split. }
      rewrite Hnone in Hbefore. destruct Hbefore. }
  destruct (work c). unfold with_tag_t. cbn in *. now rewrite Hrows.
Qed.

Lemma untag_undoes_tag_witness :
  get_by_hierarchy (work Fixture.demo) "Scenario.S1"
  = Ok {| o_meta := {| object_id := 3; o_class_id := 3; o_name := "S1" |} |}
  /\ tagged_data (work Fixture.demo) 2 "Status" 3 = []
  /\ List.length
       (tag_t (work (snd (tag_property Fixture.G1 "Status" "Scenario.S1" Fixture.demo))))
     = 2%nat
  /\ work (snd (untag_property Fixture.G1 "Status" "Scenario.S1"
                  (snd (tag_property Fixture.G1 "Status" "Scenario.S1" Fixture.demo))))
     = work Fixture.demo.
Proof.
  assert (H1 : get_by_hierarchy (work Fixture.demo) "Scenario.S1"
               = Ok {| o_meta := {| object_id := 3; o_class_id := 3; o_name := "S1" |} |})
    by reflexivity.
  assert (H2 : object_id (o_meta {| o_meta := {| object_id := 3; o_class_id := 3;
                                                 o_name := "S1" |} |}) <> 1)
    by discriminate.
  assert (H3 : tagged_data (work Fixture.demo) (object_id (o_meta Fixture.G1)) "Status" 3 = [])
    by reflexivity.
  assert (H4 : tag_property Fixture.G1 "Status" "Scenario.S1" Fixture.demo
               = (Ok tt, snd (tag_property Fixture.G1 "Status" "Scenario.S1" Fixture.demo)))
    by reflexivity.
  destruct (untag_undoes_tag _ _ _ _ _ _ H1 H2 H3 H4) as (c2 & Hrun & Hw & _).
  split; [exact H1|]. split; [exact H3|]. split; [reflexivity|].
  rewrite Hrun. exact Hw.
Defined.

(** X13.  [untag_property] refuses the object with id 1 and leaves the
    handle as it was; and whatever it is given and however it ends, it
    commits nothing. *)
Theorem untag_property_never_commits (c : COAD) (self : ObjectDict) (name tag : string) :
  durable (snd (untag_property self name tag c)) = durable c
  /\ forall o, get_by_hierarchy (work c) tag = Ok o -> object_id (o_meta o) = 1 ->
       untag_property self name tag c = (Raise CannotUntagSystem, c).
Proof.
  split.
  - unfold untag_property, bind, lift, require_table, query, execute.
    destruct (get_by_hierarchy (work c) tag) as [o|]; [|reflexivity].
    destruct (py_eq _ _); [reflexivity|].
    destruct (has_table c "data"); [|reflexivity].
    destruct (List.map v_data_id _); [reflexivity|].
    destruct (has_table c "tag"); reflexivity.
  - intros o Ho Hid. unfold untag_property, bind, lift. rewrite Ho, untag_property_guard, Hid.
    reflexivity.
Qed.

Lemma untag_property_never_commits_witness :
  get_by_hierarchy (work Fixture.demo) "System.System" = Ok Fixture.System_obj
  /\ untag_property Fixture.G1 "Status" "System.System" Fixture.demo
     = (Raise CannotUntagSystem, Fixture.demo).
Proof.
  assert (H : get_by_hierarchy (work Fixture.demo) "System.System" = Ok Fixture.System_obj)
    by reflexivity.
  split; [exact H|].
  exact (proj2 (untag_property_never_commits Fixture.demo Fixture.G1 "Status" "System.System")
           _ H eq_refl).
Defined.

(* ================================================================== *)
(** * Lookups *)
(* ================================================================== *)

Lemma fetchone_filter {A} (P : A -> bool) (l : list A) (x : A) :
  fetchone (List.filter P l) = Some x -> In x l /\ P x = true.
Proof.
  unfold fetchone. intros H. apply head_Some_elem_of, list_elem_of_In in H.
  now apply filter_In in H.
Qed.

Lemma ClassDict_init_meta (db : database) (meta : class_row) (cls : ClassDict) :
  ClassDict_init db meta = Ok cls -> c_meta cls = meta.
Proof.
  unfold ClassDict_init. destruct (fold_result (add_collection db) _ _); simpl; [|discriminate].
  destruct (fold_result add_names _ _); simpl; [|discriminate]. now intros [= <-].
Qed.

Lemma COAD_getitem_meta (db : database) (key : string) (cls : ClassDict) :
  COAD_getitem db key = Ok cls ->
  In (c_meta cls) (class_t db) /\ class_name (c_meta cls) = key.
Proof.
  unfold COAD_getitem.
  destruct (fetchone _) as [row|] eqn:E; [|discriminate]. intros H.
  apply ClassDict_init_meta in H. subst row.
  apply fetchone_filter in E as [Hin Hn]. now apply String_eqb_iff in Hn.
Qed.

Lemma ClassDict_getitem_meta (db : database) (cls : ClassDict) (key : string) (o : ObjectDict) :
  ClassDict_getitem db cls key = Ok o ->
  In (o_meta o) (object_t db)
  /\ o_class_id (o_meta o) = class_id (c_meta cls) /\ o_name (o_meta o) = key.
Proof.
  unfold ClassDict_getitem.
  destruct (fetchone _) as [row|] eqn:E; [|discriminate]. unfold ObjectDict_init.
  destruct (get_class db _); simpl; [|discriminate]. intros [= <-]. cbn [o_meta].
  apply fetchone_filter in E as [Hin Hp]. apply andb_true_iff in Hp as [Hc Hn].
  apply Z.eqb_eq in Hc. apply String_eqb_iff in Hn. auto.
Qed.

(** X14.  What [get_by_hierarchy] returns as an object: the identifier
    has exactly two parts around one dot, the first names a class of the
    store and the second an object of that class, which is the one
    returned.  So an identifier without a dot, or written with a bar, never
    names an object. *)
Theorem get_by_hierarchy_sound (db : database) (identifier : string) (o : ObjectDict) :
  get_by_hierarchy db identifier = Ok o ->
  exists cname oname cls,
    split dot identifier = [cname; oname]
    /\ In cls (class_t db) /\ class_name cls = cname
    /\ In (o_meta o) (object_t db)
    /\ o_class_id (o_meta o) = class_id cls /\ o_name (o_meta o) = oname.
Proof.
  unfold get_by_hierarchy.
  destruct (split dot identifier) as [|cname [|oname [|x rest]]] eqn:Es; try discriminate.
  - destruct (COAD_getitem db cname); simpl; discriminate.
  - destruct (COAD_getitem db cname) as [cls|] eqn:Ec; simpl; [|discriminate].
    destruct (ClassDict_getitem db cls oname) as [obj|] eqn:Eo; simpl; [|discriminate].
    intros [= <-]. apply COAD_getitem_meta in Ec as [H1 H2].
    apply ClassDict_getitem_meta in Eo as (H3 & H4 & H5).
    exists cname, oname, (c_meta cls). repeat split; assumption.
  - destruct (COAD_getitem db cname) as [cls|]; simpl; [|discriminate].
    destruct (ClassDict_getitem db cls oname); simpl; discriminate.
Qed.

Lemma get_by_hierarchy_sound_witness :
  get_by_hierarchy (work Fixture.demo) "Generator.G1" = Ok Fixture.G1
  /\ split dot "Generator.G1" = ["Generator"; "G1"]
  /\ get_by_hierarchy (work Fixture.demo) "Generator|G1" = Raise (NoSuchClass "Generator|G1").
Proof.
  assert (H : get_by_hierarchy (work Fixture.demo) "Generator.G1" = Ok Fixture.G1)
    by reflexivity.
  destruct (get_by_hierarchy_sound _ _ _ H) as (cn & on & cls & Hs & _).
  split; [exact H|]. split; [reflexivity|reflexivity].
Defined.

(** X15.  [get_hierarchy_for_object_id] answers [Class.Object] for an
    object of the store and its class, leaves the store alone and keeps the
    answer: a later call for the same id returns it from the cache, whatever
    the store has become since. *)
Theorem hierarchy_stays_cached (oid : Z) (c c' : COAD) (hier : string) :
  get_hierarchy_for_object_id oid c = (Ok hier, c') ->
  work c' = work c /\ durable c' = durable c
  /\ hierarchy_cache c' !! oid = Some hier
  /\ (hierarchy_cache c !! oid = None ->
      exists o cl, In o (object_t (work c)) /\ object_id o = oid
                   /\ In cl (class_t (work c)) /\ class_id cl = o_class_id o
                   /\ hier = String.append (class_name cl) (String.append "." (o_name o)))
  /\ forall c2, hierarchy_cache c2 = hierarchy_cache c' ->
       get_hierarchy_for_object_id oid c2 = (Ok hier, c2).
Proof.
  unfold get_hierarchy_for_object_id.
  destruct (hierarchy_cache c !! oid) as [h|] eqn:Ec.
  - intros [= <- <-]. repeat split; [exact Ec|discriminate|].
    intros c2 E2. now rewrite E2, Ec.
  - destruct (fetchone _) as [[oname cname]|] eqn:Ef; [|discriminate].
    unfold bind, cache_hierarchy, ret. intros [= <- <-].
    cbn [work durable hierarchy_cache]. repeat split.
    + apply lookup_insert_eq.
    + intros _. unfold fetchone in Ef. apply head_Some_elem_of, list_elem_of_In in Ef.
      apply in_flat_map in Ef as (o & Ho & Hin). apply filter_In in Ho as [Ho Eo].
      apply in_map_iff in Hin as (cl & [= <- <-] & Hcl). apply filter_In in Hcl as [Hcl El].
      apply Z.eqb_eq in Eo, El. exists o, cl. repeat split; assumption.
    + intros c2 E2. now rewrite E2, lookup_insert_eq.
Qed.

Lemma hierarchy_stays_cached_witness :
  get_hierarchy_for_object_id 2 Fixture.demo
  = (Ok "Generator.G1", snd (get_hierarchy_for_object_id 2 Fixture.demo))
  /\ hierarchy_cache (snd (get_hierarchy_for_object_id 2 Fixture.demo)) !! 2
     = Some "Generator.G1".
Proof.
  assert (H : get_hierarchy_for_object_id 2 Fixture.demo
              = (Ok "Generator.G1", snd (get_hierarchy_for_object_id 2 Fixture.demo)))
    by reflexivity.
  split; [exact H|]. exact (proj1 (proj2 (proj2 (hierarchy_stays_cached _ _ _ _ H)))).
Defined.

(* ================================================================== *)
(** * Failing reads and writes *)
(* ================================================================== *)

(** A mask that does not split into whole pairs stops the loop that reads
    it: [next(it)] finds the iterator exhausted. *)
Lemma build_valdict_odd (tokens : list string) :
  Nat.even (List.length tokens) = false ->
  forall d0, build_valdict tokens d0 = Raise StopIteration.
Proof.
  induction tokens as [|k|k v rest IH] using pair_ind; intros Hodd d0.
  - discriminate.
  - reflexivity.
  - exact (IH Hodd _).
Qed.

Lemma valdict_of_odd (mask : option string) :
  mask_paired mask = false -> valdict_of mask = Raise StopIteration.
Proof.
  unfold mask_paired, valdict_of. destruct mask as [m|]; [|discriminate].
  destruct (truthy (Some m)); [|discriminate]. intros H. now apply build_valdict_odd.
Qed.



Lemma for_until_skips {A} (body : A -> M bool) (l : list A) (c : COAD) :
  (forall x, body x c = (Ok false, c) \/ exists e, body x c = (Raise e, c)) ->
  for_until l body c = (Ok false, c) \/ exists e, for_until l body c = (Raise e, c).
Proof.
  intros Hb. induction l as [|x l IH]; [left; reflexivity|].
  cbn [for_until]. unfold bind. destruct (Hb x) as [->|[e ->]]; [exact IH|right; eauto].
Qed.

Lemma overwrite_tagged_other_name (self : ObjectDict) (name : string) (value : pvalue)
    (ptag : Z) (c : COAD) :
  (forall p, In p (property_t (work c)) -> p_name p <> name) ->
  overwrite_tagged self name value ptag c = (Ok false, c)
  \/ exists e, overwrite_tagged self name value ptag c = (Raise e, c).
Proof.
  intros Hno. unfold overwrite_tagged, bind, lift.
  destruct (fetchone _) as [d|]; cbn [subscript]; [|right; eauto].
  destruct (fetchone _) as [p|] eqn:Ep; cbn [subscript]; [|right; eauto].
  apply fetchone_filter in Ep as [Hp _].
  destruct (String.eqb_spec (p_name p) name) as [E|_]; [now apply Hno in E|].
  left; reflexivity.
Qed.

(** X17.  [set_property] with a name that no row of the property table
    has: the call fails and leaves the handle as it was, the connection and
    the file both.  When the class of the object lists properties for the
    class of the tag, the failure is the one that names the property and the
    class. *)
Theorem set_property_unknown_name (c : COAD) (self : ObjectDict) (name : string)
    (value : pvalue) (tag : string) (data_tag : option string) :
  (forall p, In p (property_t (work c)) -> p_name p <> name) ->
  (exists e, set_property self name value tag data_tag c = (Raise e, c))
  /\ forall tag_obj tag_cls self_cls,
       get_by_hierarchy (work c) tag = Ok tag_obj ->
       get_class (work c) tag_obj = Ok tag_cls ->
       get_class (work c) self = Ok self_cls ->
       dict_get String.eqb (class_name (c_meta tag_cls)) (valid_properties_by_name self_cls)
         <> None ->
       set_property self name value tag data_tag c
       = (Raise (NotValidProperty name (class_name (c_meta tag_cls))), c).
Proof.
  intros Hno.
  assert (Hnative : forall self_cls cn by_name,
    bn_sound (work c) (valid_properties_by_name self_cls) ->
    dict_get String.eqb cn (valid_properties_by_name self_cls) = Some by_name ->
    dict_get String.eqb name by_name = None).
  { intros self_cls cn by_name Hsc Hbn.
    destruct (dict_get String.eqb name by_name) as [k|] eqn:Ek; [|reflexivity].
    apply (dict_get_In _ String_eqb_iff) in Hbn, Ek.
    destruct (Hsc _ _ _ _ Hbn Ek) as (p & Hp & _ & Hn).
    now apply Hno in Hn. }
  split.
  - unfold set_property, bind, lift.
    destruct (get_by_hierarchy (work c) tag) as [tag_obj|]; [|eauto].
    destruct (get_class (work c) tag_obj) as [tag_cls|]; [|eauto].
    destruct (get_class (work c) self) as [self_cls|] eqn:Hsc; [|eauto].
    destruct (dict_get String.eqb _ (valid_properties_by_name self_cls)) as [by_name|] eqn:Hbn.
    + unfold set_property_native. rewrite (Hnative _ _ _ (get_class_sound _ _ _ Hsc) Hbn). eauto.
    + unfold set_property_tagged, bind, require_table, query.
      destruct (has_table c "tag"); [|eauto].
      destruct (for_until_skips (overwrite_tagged self name value)
                  (List.map t_data_id
                     (List.filter (fun t => Z.eqb (t_object_id t) (object_id (o_meta tag_obj)))
                        (tag_t (work c)))) c) as [->|[e ->]]; [| |eauto].
      * intros x. now apply overwrite_tagged_other_name.
      * destruct (dict_get String.eqb "System" (valid_properties_by_name self_cls))
          as [d|] eqn:Hd; [|eauto].
        rewrite (Hnative _ _ _ (get_class_sound _ _ _ Hsc) Hd). eauto.
  - intros tag_obj tag_cls self_cls Ht Htc Hsc Hbn.
    unfold set_property, bind, lift. rewrite Ht, Htc, Hsc.
    destruct (dict_get String.eqb _ (valid_properties_by_name self_cls)) as [by_name|] eqn:E;
      [|congruence].
    unfold set_property_native. now rewrite (Hnative _ _ _ (get_class_sound _ _ _ Hsc) E).
Qed.

Lemma set_property_unknown_name_witness :
  set_property Fixture.G1 "Colour" (VScalar "1") "System.System" None Fixture.demo
  = (Raise (NotValidProperty "Colour" "System"), Fixture.demo).
Proof.
  refine (proj2 (set_property_unknown_name Fixture.demo Fixture.G1 "Colour" (VScalar "1")
                   "System.System" None _) Fixture.System_obj _ _ eq_refl eq_refl eq_refl _).
  - intros p Hp. cbn in Hp. intuition (subst; discriminate).
  - vm_compute. discriminate.
Defined.

(* ================================================================== *)
(** * Objects by their id *)
(* ================================================================== *)

Lemma fetchone_only {A} (l : list A) (a : A) :
  l <> [] -> (forall x, In x l -> x = a) -> fetchone l = Some a.
Proof.
  destruct l as [|x l]; [congruence|]. intros _ H. unfold fetchone. simpl.
  f_equal. apply H. now left.
Qed.

Lemma split_once_dotless (a b : string) :
  dotless a = true ->
  split_once dot (String.append a (String.append "." b)) = (a, Some b).
Proof.
  induction a as [|ch a IH]; intros Hd.
  - reflexivity.
  - cbn [dotless] in Hd. apply andb_true_iff in Hd as [Hc Ha].
    change (String.append (String ch a) (String.append "." b))
      with (String ch (String.append a (String.append "." b))).
    cbn [split_once]. apply negb_true_iff in Hc. rewrite Hc, (IH Ha). reflexivity.
Qed.

(** X18.  [get_by_object_id] goes through the names: it asks for the
    hierarchy of the id and looks the class and the object up by name.  It
    returns the object of that id when the id is not cached yet, no class
    shares its id or its name with another, the name of the class has no dot
    in it, and no other object of the class has the name of the object. *)
Theorem get_by_object_id_round_trip (c : COAD) (o : object_row) (cls : ClassDict) :
  hierarchy_cache c !! object_id o = None ->
  In o (object_t (work c)) ->
  get_class (work c) {| o_meta := o |} = Ok cls ->
  dotless (class_name (c_meta cls)) = true ->
  (forall o', In o' (object_t (work c)) -> object_id o' = object_id o -> o' = o) ->
  (forall o', In o' (object_t (work c)) ->
     o_class_id o' = o_class_id o -> o_name o' = o_name o -> o' = o) ->
  (forall cl cl', In cl (class_t (work c)) -> In cl' (class_t (work c)) ->
     class_id cl = class_id cl' \/ class_name cl = class_name cl' -> cl = cl') ->
  exists c', get_by_object_id (object_id o) c = (Return {| o_meta := o |}, c')
             /\ work c' = work c /\ durable c' = durable c.
Proof.
  intros Hcache Ho Hcls Hdot Hid Hname Hclass.
  pose proof Hcls as Hcls'. unfold get_class, get_by_class_id in Hcls'. cbn [o_meta] in Hcls'.
  destruct (fetchone (List.filter _ (class_t (work c)))) as [cl|] eqn:Ecl; [|discriminate].
  cbn [subscript rbind] in Hcls'.
  apply fetchone_filter in Ecl as [Hcl Hclid]. apply Z.eqb_eq in Hclid.
  destruct (COAD_getitem_meta _ _ _ Hcls') as [Hm Hmn].
  assert (Em : c_meta cls = cl) by (apply Hclass; auto).
  unfold get_by_object_id, get_hierarchy_for_object_id. rewrite Hcache.
  rewrite (fetchone_only _ (o_name o, class_name cl)).
  - unfold bind, cache_hierarchy, ret. rewrite split_once_dotless by now rewrite <- Em.
    cbn [work durable]. rewrite Hcls'. cbn [rbind].
    eexists. split; [apply f_equal2; [|reflexivity]|split; reflexivity].
    unfold ClassDict_getitem. rewrite (fetchone_only _ o).
    + unfold ObjectDict_init. rewrite Hcls. reflexivity.
    + intros E. assert (Hin : In o []); [|destruct Hin]. rewrite <- E.
      apply filter_In. split; [exact Ho|]. rewrite Em, Hclid, Z.eqb_refl, String.eqb_refl.
      reflexivity.
    + intros o' Ho'. apply filter_In in Ho' as [Ho' Hp].
      apply andb_true_iff in Hp as [H1 H2]. apply Z.eqb_eq in H1. apply String.eqb_eq in H2.
      apply Hname; [exact Ho'| |exact H2]. rewrite H1, Em. exact Hclid.
  - intros E. assert (Hin : In (o_name o, class_name cl) []); [|destruct Hin]. rewrite <- E.
    apply in_flat_map. exists o. split.
    + apply filter_In. split; [exact Ho|apply Z.eqb_refl].
    + apply in_map_iff. exists cl. split; [reflexivity|].
      apply filter_In. split; [exact Hcl|now apply Z.eqb_eq].
  - intros [on cn] Hin. apply in_flat_map in Hin as (o' & Ho' & Hin).
    apply filter_In in Ho' as [Ho' Eo]. apply Z.eqb_eq in Eo.
    apply in_map_iff in Hin as (cl' & [= <- <-] & Hcl'). apply filter_In in Hcl' as [Hcl' El].
    apply Z.eqb_eq in El. rewrite (Hid o' Ho' Eo) in *.
    rewrite (Hclass cl' cl Hcl' Hcl); [reflexivity|]. left. congruence.
Qed.

Lemma get_by_object_id_round_trip_witness :
  exists c', get_by_object_id 2 Fixture.demo = (Return Fixture.G1, c')
             /\ work c' = work Fixture.demo /\ durable c' = durable Fixture.demo.
Proof.
  refine (get_by_object_id_round_trip Fixture.demo (o_meta Fixture.G1) _
            eq_refl _ eq_refl eq_refl _ _ _).
  - cbn. tauto.
  - intros o' Ho' E. cbn in Ho'. intuition (subst; try reflexivity; discriminate).
  - intros o' Ho' E1 E2. cbn in Ho'. intuition (subst; try reflexivity; discriminate).
  - intros cl cl' H1 H2 E. cbn in H1, H2.
    intuition (subst; try reflexivity; discriminate).
Defined.

(* ================================================================== *)
(** * Categories *)
(* ================================================================== *)

Section CategoryFacts.
Variable int : string -> option Z.

Lemma keyed_spec (rows : list category_row) (ks : list (Z * category_row)) :
  keyed int rows = Return ks <->
  List.map snd ks = rows /\ ranked int rows (List.map fst ks).
Proof.
  unfold ranked. revert ks. induction rows as [|r rows IH]; intros ks; cbn [keyed].
  - split.
    + intros [= <-]. split; [reflexivity|constructor].
    + intros [H _]. destruct ks; [reflexivity|discriminate].
  - split.
    + destruct (rank_of int r) as [k|] eqn:Ek; [|discriminate].
      destruct (keyed int rows) as [ks'|]; [|discriminate]. intros [= <-].
      destruct (proj1 (IH ks') eq_refl) as [H1 H2]. cbn. split; [now rewrite H1|].
      constructor; assumption.
    + intros [H1 H2]. destruct ks as [|[k r'] ks]; [discriminate|].
      cbn in H1, H2. injection H1 as -> H1. inversion H2 as [|? ? ? ? Hk Hrest]; subst.
      rewrite Hk. rewrite (proj2 (IH ks)); [reflexivity|]. split; [reflexivity|exact Hrest].
Qed.

Lemma ranked_keyed (rows : list category_row) (ks : list Z) :
  ranked int rows ks -> keyed int rows = Return (combine ks rows).
Proof.
  induction 1 as [|r k rows ks Hk _ IH]; cbn [keyed combine]; [reflexivity|].
  now rewrite Hk, IH.
Qed.

Lemma ranked_fun (rows : list category_row) (ks ks' : list Z) :
  ranked int rows ks -> ranked int rows ks' -> ks = ks'.
Proof.
  intros H. revert ks'. induction H as [|r k rows ks Hk _ IH]; intros ks' H'.
  - now inversion H'.
  - inversion H' as [|? k' ? ks'' Hk' Hr]; subst. f_equal; [congruence|auto].
Qed.

Lemma by_rank_total (a b : Z * category_row) : by_rank a b = true \/ by_rank b a = true.
Proof. unfold by_rank. destruct (Z.leb_spec (fst a) (fst b)); [auto|right; apply Z.leb_le; lia]. Qed.

Lemma by_rank_trans (a b c : Z * category_row) :
  by_rank a b = true -> by_rank b c = true -> by_rank a c = true.
Proof. unfold by_rank. rewrite !Z.leb_le. lia. Qed.

(** X19.  [get_categories] returns the categories of the class, each of
    them once, in ascending order of rank, whenever every rank of the class
    reads as a number. *)
Theorem get_categories_sorted (self : ClassDict) (h : catalogue) (ks : list Z) :
  has_category h = true ->
  ranked int (class_categories self h) ks ->
  exists cats ks',
    get_categories int self h = Return cats
    /\ Permutation cats (class_categories self h)
    /\ ranked int cats ks'
    /\ StronglySorted Z.le ks'.
Proof.
  intros Hh Hr. unfold get_categories. rewrite Hh. cbn [negb].
  rewrite (ranked_keyed _ _ Hr).
  set (kr := combine ks (class_categories self h)).
  assert (Hkr : List.map snd kr = class_categories self h
                /\ ranked int (class_categories self h) (List.map fst kr)).
  { apply keyed_spec. now apply ranked_keyed. }
  destruct Hkr as [Hsnd _].
  assert (Hall : Forall (fun p => rank_of int (snd p) = Return (fst p)) kr).
  { subst kr. clear Hsnd. induction Hr; cbn [combine]; constructor; auto. }
  exists (List.map snd (order_by by_rank kr)), (List.map fst (order_by by_rank kr)).
  split; [reflexivity|]. split; [|split].
  - rewrite <- Hsnd. apply Permutation_map, order_by_perm.
  - assert (Hall' : Forall (fun p => rank_of int (snd p) = Return (fst p)) (order_by by_rank kr)).
    { eapply Permutation_Forall; [symmetry; apply order_by_perm|exact Hall]. }
    unfold ranked. induction Hall'; cbn; constructor; auto.
  - pose proof (order_by_sorted by_rank by_rank_total by_rank_trans kr) as Hs.
    induction Hs as [|x l _ IH Hx]; cbn; constructor; [exact IH|].
    apply Forall_map. eapply Forall_impl; [exact Hx|].
    intros y Hy. now apply Z.leb_le.
Qed.

Lemma last_rank_spec (self : ClassDict) (name : string) (rows : list category_row)
    (ks : list Z) (acc : Z) :
  ranked int rows ks ->
  Forall (fun r => named "name" r = false) rows ->
  last_rank int self name rows acc = Return (fold_left (fun a k => Z.max k a) ks acc).
Proof.
  intros Hr. revert acc. induction Hr as [|r k rows ks Hk _ IH]; intros acc Hn.
  - reflexivity.
  - inversion Hn as [|? ? Hr0 Hrest]; subst. cbn [last_rank fold_left].
    rewrite Hk, Hr0. now apply IH.
Qed.

Lemma last_rank_refuses (self : ClassDict) (name : string) (rows : list category_row)
    (ks : list Z) (acc : Z) :
  ranked int rows ks ->
  Exists (fun r => named "name" r = true) rows ->
  last_rank int self name rows acc = Fail (CategoryExists name (class_name (c_meta self))).
Proof.
  intros Hr. revert acc. induction Hr as [|r k rows ks Hk _ IH]; intros acc He.
  - inversion He.
  - cbn [last_rank]. rewrite Hk. destruct (named "name" r) eqn:En; [reflexivity|].
    apply IH. inversion He; subst; [congruence|assumption].
Qed.

Lemma class_categories_snoc (self : ClassDict) (row : category_row) (h : catalogue) :
  in_class self row = true ->
  class_categories self (with_category row h) = class_categories self h ++ [row].
Proof.
  intros Hin. unfold class_categories, with_category. cbn [cat_work].
  rewrite List.filter_app. cbn [List.filter]. now rewrite Hin.
Qed.

Lemma in_class_new (self : ClassDict) (name : string) (key lastrank : Z) :
  in_class self (new_category self name key lastrank) = true.
Proof. unfold in_class, new_category. cbn. apply Z.eqb_refl. Qed.

Lemma get_category_id_added (self : ClassDict) (name : string) (row : category_row)
    (h : catalogue) :
  has_category h = true -> in_class self row = true -> named name row = true ->
  get_category_id self name (with_category row h)
  = Return (str_of_Z (category_id
      (hd row (List.filter (named name) (class_categories self h))))).
Proof.
  intros Hh Hin Hn. unfold get_category_id. cbn [has_category with_category cat_work].
  rewrite Hh. cbn [negb]. rewrite List.filter_app. cbn [List.filter]. rewrite Hin, Hn.
  cbn [andb]. unfold class_categories. rewrite filter_filter.
  destruct (List.filter _ (cat_work h)); reflexivity.
Qed.

(** X20.  What [add_category] does for a class whose ranks read as
    numbers.  Its test for an existing category compares each name with the
    text [name]: with a category of that very name in the class it refuses
    every new name and changes nothing.  Otherwise it appends a row of the
    class under the next key, with the largest rank plus one (0 for a class
    without categories), commits, and answers the id of the first category of
    the class with the name asked for: the new one when the name is new, the
    old one when it is not. *)
Theorem add_category_result (self : ClassDict) (name : string) (h : catalogue)
    (ks : list Z) (key : Z) :
  has_category h = true ->
  ranked int (class_categories self h) ks ->
  next_rowid (List.map category_id (cat_work h)) = Return key ->
  (Exists (fun r => named "name" r = true) (class_categories self h) ->
   add_category int self name h
   = (Fail (CategoryExists name (class_name (c_meta self))), h))
  /\ (Forall (fun r => named "name" r = false) (class_categories self h) ->
      let row := new_category self name key (top_rank ks) in
      add_category int self name h
      = (Return (str_of_Z (category_id
           (hd row (List.filter (named name) (class_categories self h))))),
         with_category row h)).
Proof.
  intros Hh Hr Hkey. unfold add_category. rewrite Hh. cbn [negb]. split.
  - intros He. now rewrite (last_rank_refuses _ _ _ _ _ Hr He).
  - intros Hn. cbv zeta. rewrite (last_rank_spec _ _ _ _ _ Hr Hn), Hkey.
    fold (top_rank ks). apply f_equal2; [|reflexivity].
    apply get_category_id_added; [exact Hh|apply in_class_new|].
    unfold named, new_category. cbn. apply String.eqb_refl.
Qed.

Lemma fold_max_le (ks : list Z) (acc : Z) :
  acc <= fold_left (fun a k => Z.max k a) ks acc
  /\ Forall (fun k => k <= fold_left (fun a k => Z.max k a) ks acc) ks.
Proof.
  revert acc. induction ks as [|k ks IH]; intros acc; cbn [fold_left].
  - split; [lia|constructor].
  - destruct (IH (Z.max k acc)) as [H1 H2]. split; [lia|].
    constructor; [lia|exact H2].
Qed.

Lemma last_rank_inv (self : ClassDict) (name : string) (rows : list category_row)
    (acc lr : Z) :
  last_rank int self name rows acc = Return lr ->
  exists ks, ranked int rows ks /\ lr = fold_left (fun a k => Z.max k a) ks acc.
Proof.
  revert acc. induction rows as [|r rows IH]; intros acc; cbn [last_rank].
  - intros [= <-]. exists []. split; [constructor|reflexivity].
  - destruct (rank_of int r) as [k|] eqn:Ek; [|discriminate].
    destruct (named "name" r); [discriminate|]. intros H.
    destruct (IH _ H) as (ks & Hr & ->). exists (k :: ks). split; [|reflexivity].
    constructor; assumption.
Qed.

Lemma insert_by_snoc {A} (le : A -> A -> bool) (a x : A) (m : list A) :
  le a x = true -> insert_by le a (m ++ [x]) = insert_by le a m ++ [x].
Proof.
  intros Hax. induction m as [|y m IH]; cbn [insert_by app].
  - now rewrite Hax.
  - destruct (le a y); [reflexivity|]. now rewrite IH.
Qed.

Lemma order_by_snoc {A} (le : A -> A -> bool) (x : A) (l : list A) :
  Forall (fun y => le y x = true) l -> order_by le (l ++ [x]) = order_by le l ++ [x].
Proof.
  induction 1 as [|y l Hy _ IH]; cbn [order_by app]; [reflexivity|].
  rewrite IH. now apply insert_by_snoc.
Qed.

Hypothesis int_str : forall z, int (str_of_Z z) = Some z.

(** X21.  A category added is the last of its class: after [add_category]
    has returned, [get_categories] gives the categories it gave before,
    followed by the new one, which carries the name asked for and is on the
    connection and in the file. *)
Theorem add_category_comes_last (self : ClassDict) (name : string) (h h' : catalogue)
    (cats : list category_row) (id : string) :
  get_categories int self h = Return cats ->
  add_category int self name h = (Return id, h') ->
  exists row,
    get_categories int self h' = Return (cats ++ [row])
    /\ cat_name row = Some name
    /\ cat_work h' = cat_work h ++ [row]
    /\ cat_durable h' = cat_work h'.
Proof.
  unfold get_categories, add_category.
  destruct (has_category h) eqn:Hh; [|discriminate]. cbn [negb].
  destruct (keyed int (class_categories self h)) as [kr|] eqn:Ekr; [|discriminate].
  intros [= <-].
  destruct (last_rank int self name (class_categories self h) (-1)) as [lr|] eqn:El;
    [|discriminate].
  destruct (next_rowid _) as [key|]; [|discriminate]. intros [= _ <-].
  set (row := new_category self name key lr). exists row.
  cbn [has_category with_category cat_work cat_durable]. rewrite Hh. cbn [negb].
  split; [|repeat split].
  fold (with_category row h). rewrite class_categories_snoc by apply in_class_new.
  apply keyed_spec in Ekr as [Hsnd Hr].
  destruct (last_rank_inv _ _ _ _ _ El) as (ks & Hr' & Elr).
  rewrite (ranked_fun _ _ _ Hr' Hr) in Elr. clear ks Hr'.
  assert (Hk : keyed int (class_categories self h ++ [row]) = Return (kr ++ [(lr + 1, row)])).
  { apply keyed_spec. rewrite !List.map_app. cbn [List.map fst snd]. split; [now rewrite Hsnd|].
    apply Forall2_app; [exact Hr|]. constructor; [|constructor].
    unfold rank_of, row, new_category. cbn [cat_rank]. now rewrite int_str. }
  rewrite Hk, order_by_snoc.
  - now rewrite List.map_app.
  - destruct (fold_max_le (List.map fst kr) (-1)) as [_ Hle]. rewrite <- Elr in Hle.
    rewrite List.Forall_map in Hle. eapply Forall_impl; [exact Hle|].
    intros y Hy. unfold by_rank. cbn [fst] in *. apply Z.leb_le. lia.
Qed.

End CategoryFacts.

Lemma int_decimal_str (z : Z) : Fixture.int_decimal (str_of_Z z) = Some z.
Proof.
  unfold Fixture.int_decimal, str_of_Z. destruct (to_int_not_nil z) as [H1 H2].
  rewrite (NilZero.isi _ H1 H2). cbn. now rewrite DecimalZ.of_to.
Qed.

Lemma get_categories_sorted_witness :
  exists cats ks',
    get_categories Fixture.int_decimal Fixture.Generator_cls Fixture.catalog = Return cats
    /\ Permutation cats (class_categories Fixture.Generator_cls Fixture.catalog)
    /\ ranked Fixture.int_decimal cats ks'
    /\ StronglySorted Z.le ks'.
Proof.
  apply (get_categories_sorted Fixture.int_decimal Fixture.Generator_cls Fixture.catalog [3; 1]).
  - reflexivity.
  - repeat constructor.
Defined.

Lemma add_category_result_witness :
  add_category Fixture.int_decimal Fixture.Generator_cls "Hydro" Fixture.catalog
  = (Return "3",
     with_category (new_category Fixture.Generator_cls "Hydro" 8 3) Fixture.catalog).
Proof.
  refine (proj2 (add_category_result Fixture.int_decimal Fixture.Generator_cls "Hydro"
                   Fixture.catalog [3; 1] 8 eq_refl _ eq_refl) _).
  - repeat constructor.
  - repeat constructor.
Defined.

Lemma add_category_comes_last_witness :
  exists row,
    get_categories Fixture.int_decimal Fixture.Generator_cls
      (snd (add_category Fixture.int_decimal Fixture.Generator_cls "Wind" Fixture.catalog))
    = Return (List.filter (fun r => Z.eqb (category_id r) 3) Fixture.category_rows
              ++ List.filter (fun r => Z.eqb (category_id r) 2) Fixture.category_rows
              ++ [row])
    /\ cat_name row = Some "Wind".
Proof.
  destruct (add_category_comes_last Fixture.int_decimal int_decimal_str
              Fixture.Generator_cls "Wind" Fixture.catalog
              (snd (add_category Fixture.int_decimal Fixture.Generator_cls "Wind"
                      Fixture.catalog))
              (List.filter (fun r => Z.eqb (category_id r) 3) Fixture.category_rows
               ++ List.filter (fun r => Z.eqb (category_id r) 2) Fixture.category_rows)
              "8" eq_refl eq_refl)
    as (row & H1 & H2 & _).
  exists row. split; [|exact H2]. rewrite H1. reflexivity.
Defined.

(* ================================================================== *)
(** * Memberships *)
(* ================================================================== *)

Lemma next_rowid_ok (keys : list Z) (k : Z) :
  next_rowid keys = Return k -> k = 1 \/ exists k0, last keys = Some k0 /\ k = k0 + 1.
Proof.
  unfold next_rowid. destruct (last keys) as [k0|]; [|intros [= <-]; now left].
  destruct (Z.ltb k0 (2 ^ 63 - 1)); [|discriminate]. intros [= <-]. right. eauto.
Qed.

Lemma add_child_cons (k : Z) (l : list ObjectDict) (acc : list (Z * list ObjectDict))
    (cid : Z) (obj : ObjectDict) :
  add_child ((k, l) :: acc) cid obj
  = if Z.eqb cid k then (cid, l ++ [obj]) :: acc else (k, l) :: add_child acc cid obj.
Proof.
  unfold add_child. cbn [dict_get]. destruct (Z.eqb cid k) eqn:E.
  - cbn [dict_set]. now rewrite E.
  - destruct (dict_get Z.eqb cid acc); cbn [dict_set]; now rewrite E.
Qed.

Lemma add_child_In (acc : list (Z * list ObjectDict)) (cid : Z) (obj : ObjectDict)
    (cid' : Z) (o : ObjectDict) :
  (exists objs, In (cid', objs) (add_child acc cid obj) /\ In o objs)
  <-> (exists objs, In (cid', objs) acc /\ In o objs) \/ (cid' = cid /\ o = obj).
Proof.
  induction acc as [|[k l] acc IH].
  - cbn. split.
    + intros (objs & [[= <- <-]|[]] & [<-|[]]). now right.
    + intros [(objs & [] & _)|[-> ->]]. exists [obj]. split; now left.
  - rewrite add_child_cons. destruct (Z.eqb_spec cid k) as [->|Hne].
    + split.
      * intros (objs & [[= <- <-]|Hin] & Ho).
        -- apply in_app_iff in Ho as [Ho|[<-|[]]]; [|now right].
           left. exists l. split; [now left|exact Ho].
        -- left. exists objs. split; [now right|exact Ho].
      * intros [(objs & [[= <- <-]|Hin] & Ho)|[-> ->]].
        -- exists (l ++ [obj]). split; [now left|]. apply in_app_iff. now left.
        -- exists objs. split; [now right|exact Ho].
        -- exists (l ++ [obj]). split; [now left|]. apply in_app_iff. right. now left.
    + split.
      * intros (objs & [[= <- <-]|Hin] & Ho).
        -- left. exists l. split; [now left|exact Ho].
        -- destruct (proj1 IH (ex_intro _ objs (conj Hin Ho))) as [(objs' & H1 & H2)|H].
           ++ left. exists objs'. split; [now right|exact H2].
           ++ now right.
      * intros [(objs & [[= <- <-]|Hin] & Ho)|H].
        -- exists l. split; [now left|exact Ho].
        -- destruct (proj2 IH (or_introl (ex_intro _ objs (conj Hin Ho)))) as (objs' & H1 & H2).
           exists objs'. split; [now right|exact H2].
        -- destruct (proj2 IH (or_intror H)) as (objs' & H1 & H2).
           exists objs'. split; [now right|exact H2].
Qed.

Lemma add_child_keys (acc : list (Z * list ObjectDict)) (cid : Z) (obj : ObjectDict) (k : Z) :
  In k (List.map fst (add_child acc cid obj)) <-> In k (List.map fst acc) \/ k = cid.
Proof.
  induction acc as [|[k0 l] acc IH].
  - cbn. intuition.
  - rewrite add_child_cons. destruct (Z.eqb_spec cid k0) as [->|Hne]; cbn [List.map fst In].
    + intuition.
    + rewrite IH. intuition.
Qed.

Lemma add_child_NoDup (acc : list (Z * list ObjectDict)) (cid : Z) (obj : ObjectDict) :
  List.NoDup (List.map fst acc) -> List.NoDup (List.map fst (add_child acc cid obj)).
Proof.
  induction acc as [|[k0 l] acc IH]; intros Hnd.
  - cbn. constructor; [intros []|constructor].
  - rewrite add_child_cons. cbn [List.map fst] in Hnd.
    apply List.NoDup_cons_iff in Hnd as [Hk Hnd].
    destruct (Z.eqb_spec cid k0) as [->|Hne]; cbn [List.map fst].
    + now constructor.
    + constructor; [|now apply IH]. rewrite add_child_keys. intuition.
Qed.

Lemma children_by_class_spec (db : database) (children : list ObjectDict)
    (acc groups : list (Z * list ObjectDict)) :
  List.NoDup (List.map fst acc) ->
  children_by_class db children acc = Ok groups ->
  List.NoDup (List.map fst groups)
  /\ forall cid obj,
       (exists objs, In (cid, objs) groups /\ In obj objs)
       <-> (exists objs, In (cid, objs) acc /\ In obj objs)
           \/ (In obj children
               /\ exists cls, get_class db obj = Ok cls /\ class_id (c_meta cls) = cid).
Proof.
  revert acc. induction children as [|o rest IH]; intros acc Hnd; cbn [children_by_class].
  - intros [= <-]. split; [exact Hnd|]. intros cid obj. split; [now left|].
    intros [H|[[] _]]. exact H.
  - destruct (get_class db o) as [cls|] eqn:Ec; cbn [rbind]; [|discriminate]. intros H.
    destruct (IH _ (add_child_NoDup _ _ _ Hnd) H) as [Hg Hiff]. split; [exact Hg|].
    intros cid obj. rewrite Hiff, add_child_In. split.
    + intros [[H1|[-> ->]]|[H1 H2]].
      * now left.
      * right. split; [now left|]. eauto.
      * right. split; [now right|exact H2].
    + intros [H1|[[<-|H1] H2]].
      * left. now left.
      * destruct H2 as (cls' & E & <-). left. right. split; [congruence|reflexivity].
      * right. split; assumption.
Qed.

Lemma add_child_nonempty (acc : list (Z * list ObjectDict)) (cid : Z) (obj : ObjectDict) :
  (forall k l, In (k, l) acc -> l <> []) ->
  forall k l, In (k, l) (add_child acc cid obj) -> l <> [].
Proof.
  induction acc as [|[k0 l0] acc IH]; intros Hacc k l.
  - cbn. intros [[= <- <-]|[]]. discriminate.
  - rewrite add_child_cons. destruct (Z.eqb cid k0).
    + intros [[= <- <-]|Hin]; [now destruct l0|]. apply (Hacc k). now right.
    + intros [[= <- <-]|Hin]; [apply (Hacc k0); now left|].
      apply (IH (fun k' l' H => Hacc k' l' (or_intror H)) k l Hin).
Qed.

Lemma children_by_class_nonempty (db : database) (children : list ObjectDict)
    (acc groups : list (Z * list ObjectDict)) :
  (forall k l, In (k, l) acc -> l <> []) ->
  children_by_class db children acc = Ok groups ->
  forall k l, In (k, l) groups -> l <> [].
Proof.
  revert acc. induction children as [|o rest IH]; intros acc Hacc; cbn [children_by_class].
  - now intros [= <-].
  - destruct (get_class db o) as [cls|]; cbn [rbind]; [|discriminate].
    apply IH. now apply add_child_nonempty.
Qed.

Lemma children_by_class_classes (db : database) (children : list ObjectDict)
    (acc groups : list (Z * list ObjectDict)) :
  children_by_class db children acc = Ok groups ->
  forall o, In o children -> exists cls, get_class db o = Ok cls.
Proof.
  revert acc. induction children as [|o' rest IH]; intros acc; cbn [children_by_class].
  - intros _ o [].
  - destruct (get_class db o') as [cls|] eqn:Ec; cbn [rbind]; [|discriminate].
    intros H o [<-|Ho]; [eauto|]. exact (IH _ H o Ho).
Qed.

Lemma NoDup_map_filter {A B} (f : A -> B) (P : A -> bool) (l : list A) :
  List.NoDup (List.map f l) -> List.NoDup (List.map f (List.filter P l)).
Proof.
  induction l as [|x l IH]; cbn [List.map List.filter]; intros Hnd; [constructor|].
  apply List.NoDup_cons_iff in Hnd as [Hx Hnd]. destruct (P x); cbn [List.map]; [|auto].
  constructor; [|auto]. intros Hin. apply Hx. apply in_map_iff in Hin as (y & E & Hy).
  apply filter_In in Hy as [Hy _]. apply in_map_iff. eauto.
Qed.

Lemma NoDup_app_disjoint {A} (l1 l2 : list A) :
  List.NoDup l1 -> List.NoDup l2 -> (forall x, In x l1 -> In x l2 -> False) ->
  List.NoDup (l1 ++ l2).
Proof.
  induction l1 as [|x l1 IH]; cbn [app]; intros H1 H2 Hd; [exact H2|].
  apply List.NoDup_cons_iff in H1 as [Hx H1]. constructor.
  - rewrite in_app_iff. intros [H|H]; [contradiction|]. apply (Hd x); [now left|exact H].
  - apply IH; [exact H1|exact H2|]. intros y Hy. apply Hd. now right.
Qed.

Lemma insert_children_spec (self : ObjectDict) (cid col : Z) (objs : list ObjectDict)
    (t t' : list member) :
  insert_children self cid col objs t = (Return tt, t') ->
  exists new,
    t' = List.filter (untouched self false [] (object_ids objs)) t ++ new
    /\ List.NoDup (List.map m_child_object_id new)
    /\ (forall obj, In obj objs ->
          exists m, In m new /\ m_child_object_id m = object_id (o_meta obj))
    /\ Forall (fun m => exists key obj,
                 In obj objs /\ m = membership_of self cid col key obj) new.
Proof.
  revert t t'. induction objs as [|obj rest IH]; intros t t'; cbn [insert_children].
  - intros [= <-]. exists []. rewrite app_nil_r. split; [|split; [constructor|split]].
    + symmetry. apply filter_all. intros m _. unfold untouched. cbn.
      now rewrite andb_false_r.
    + intros obj [].
    + constructor.
  - destruct (next_rowid _) as [key|]; [|discriminate]. intros H.
    destruct (IH _ _ H) as (new0 & -> & Hnd & Hcov & Hall).
    set (row := membership_of self cid col key obj).
    exists (List.filter (untouched self false [] (object_ids rest)) [row] ++ new0).
    split; [|split; [|split]].
    + rewrite List.filter_app, <- app_assoc. f_equal. unfold delete_child.
      rewrite filter_filter. apply List.filter_ext. intros m. unfold untouched.
      cbn [object_ids List.map existsb andb orb].
      destruct (Z.eqb (m_parent_object_id m) (object_id (o_meta self))); cbn; [|reflexivity].
      destruct (Z.eqb (m_child_object_id m) (object_id (o_meta obj))); reflexivity.
    + cbn [List.filter]. destruct (untouched self false [] (object_ids rest) row) eqn:Eu;
        cbn [app List.map]; [|exact Hnd].
      constructor; [|exact Hnd]. intros Hin. apply in_map_iff in Hin as (m & Em & Hm).
      rewrite List.Forall_forall in Hall. destruct (Hall m Hm) as (key' & obj' & Ho' & ->).
      unfold untouched, row, membership_of in Eu. cbn in Eu, Em.
      rewrite Z.eqb_refl in Eu. cbn in Eu. apply negb_true_iff in Eu.
      assert (Hex : existsb (Z.eqb (object_id (o_meta obj))) (object_ids rest) = true);
        [|congruence].
      apply existsb_exists. exists (object_id (o_meta obj')). split; [|now apply Z.eqb_eq].
      unfold object_ids. apply in_map_iff. eauto.
    + intros o [<-|Ho].
      * cbn [List.filter].
        destruct (untouched self false [] (object_ids rest) row) eqn:Eu.
        -- exists row. split; [now left|reflexivity].
        -- unfold untouched, row, membership_of in Eu. cbn in Eu.
           rewrite Z.eqb_refl in Eu. cbn in Eu. apply negb_false_iff in Eu.
           apply existsb_exists in Eu as (x & Hx & Ex). apply Z.eqb_eq in Ex. subst x.
           unfold object_ids in Hx. apply in_map_iff in Hx as (o' & Eo' & Ho').
           destruct (Hcov o' Ho') as (m & Hm & Em). exists m. split; [|congruence].
           apply in_app_iff. now right.
      * destruct (Hcov o Ho) as (m & Hm & Em). exists m. split; [|exact Em].
        apply in_app_iff. now right.
    + apply Forall_app. split.
      * cbn [List.filter]. destruct (untouched _ _ _ _ row); constructor; [|constructor].
        exists key, obj. split; [now left|reflexivity].
      * eapply Forall_impl; [exact Hall|]. intros m (key' & obj' & Ho' & E).
        exists key', obj'. split; [now right|exact E].
Qed.

Lemma set_classes_spec (f : family) (self : ObjectDict) (replace : bool)
    (name : option string) (groups : list (Z * list ObjectDict)) (t t' : list member) :
  List.NoDup (List.map fst groups) ->
  set_classes f self replace name groups t = (Return tt, t') ->
  exists new,
    t' = List.filter (untouched self replace (List.map fst groups) (group_ids groups)) t ++ new
    /\ List.NoDup (List.map m_child_object_id new)
    /\ (forall cid objs obj, In (cid, objs) groups -> In obj objs ->
          exists m, In m new /\ m_child_object_id m = object_id (o_meta obj))
    /\ Forall (fun m => exists cid objs key obj,
                 In (cid, objs) groups /\ In obj objs
                 /\ get_collection_id f self cid name = Return (m_collection_id m)
                 /\ m = membership_of self cid (m_collection_id m) key obj) new.
Proof.
  revert t t'. induction groups as [|[cid objs] rest IH]; intros t t' Hnd; cbn [set_classes].
  - intros [= <-]. exists []. rewrite app_nil_r. split; [|split; [constructor|split]].
    + symmetry. apply filter_all. intros m _. unfold untouched. cbn.
      now rewrite !andb_false_r.
    + intros ? ? ? [].
    + constructor.
  - cbn [List.map fst] in Hnd. apply List.NoDup_cons_iff in Hnd as [Hcid Hnd].
    destruct (get_collection_id f self cid name) as [col|] eqn:Ecol; [|discriminate].
    destruct (insert_children self cid col objs _) as [[[]|] t2] eqn:Eins; [|discriminate].
    intros H. destruct (insert_children_spec _ _ _ _ _ _ Eins) as (new1 & -> & Hnd1 & Hcov1 & Hall1).
    destruct (IH _ _ Hnd H) as (new2 & -> & Hnd2 & Hcov2 & Hall2).
    rewrite List.Forall_forall in Hall1, Hall2.
    set (U := untouched self replace (List.map fst rest) (group_ids rest)).
    assert (Hchild2 : forall m, In m new2 ->
              existsb (Z.eqb (m_child_object_id m)) (group_ids rest) = true).
    { intros m Hm. destruct (Hall2 m Hm) as (c & os & key & o & Hg & Ho & _ & ->).
      apply existsb_exists. exists (object_id (o_meta o)). split; [|apply Z.eqb_refl].
      unfold group_ids. apply in_flat_map. exists (c, os). split; [exact Hg|].
      unfold object_ids. cbn [snd]. apply in_map_iff. eauto. }
    assert (Hkept : forall m, In m new1 -> U m = true ->
              existsb (Z.eqb (m_child_object_id m)) (group_ids rest) = false).
    { intros m Hm Hu. destruct (Hall1 m Hm) as (key & o & Ho & ->).
      unfold U, untouched, membership_of in Hu. cbn in Hu. rewrite Z.eqb_refl in Hu.
      cbn in Hu. apply negb_true_iff, orb_false_iff in Hu as [_ Hu]. exact Hu. }
    assert (Hdropped : forall m, In m new1 -> U m = false ->
              existsb (Z.eqb (m_child_object_id m)) (group_ids rest) = true).
    { intros m Hm Hu. destruct (Hall1 m Hm) as (key & o & Ho & ->).
      unfold U, untouched, membership_of in Hu. cbn in Hu. rewrite Z.eqb_refl in Hu.
      cbn in Hu. apply negb_false_iff, orb_true_iff in Hu as [Hu|Hu]; [|exact Hu].
      apply andb_true_iff in Hu as [_ Hu]. apply existsb_exists in Hu as (x & Hx & Ex).
      apply Z.eqb_eq in Ex. subst x. contradiction. }
    exists (List.filter U new1 ++ new2). split; [|split; [|split]].
    + rewrite List.filter_app, <- app_assoc. f_equal. rewrite filter_filter.
      assert (E : forall m,
        (if replace then negb (Z.eqb (m_parent_object_id m) (object_id (o_meta self))
                               && Z.eqb (m_child_class_id m) cid) else true)
        && (untouched self false [] (object_ids objs) m && U m)
        = untouched self replace (List.map fst ((cid, objs) :: rest))
            (group_ids ((cid, objs) :: rest)) m).
      { intros m. unfold U, untouched, group_ids. cbn [List.flat_map List.map fst snd existsb].
        rewrite existsb_app.
        destruct (Z.eqb (m_parent_object_id m) (object_id (o_meta self))); cbn;
          [|now destruct replace].
        destruct replace; cbn.
        - destruct (Z.eqb (m_child_class_id m) cid); cbn; [reflexivity|].
          destruct (existsb _ (object_ids objs)); cbn; [now rewrite orb_true_r|].
          reflexivity.
        - destruct (existsb _ (object_ids objs)); reflexivity. }
      destruct replace.
      * unfold delete_class. rewrite filter_filter. apply List.filter_ext. exact E.
      * apply List.filter_ext. intros m. now rewrite <- E.
    + rewrite List.map_app. apply NoDup_app_disjoint.
      * now apply NoDup_map_filter.
      * exact Hnd2.
      * intros x H1 H2. apply in_map_iff in H1 as (m1 & <- & Hm1).
        apply in_map_iff in H2 as (m2 & E2 & Hm2). apply filter_In in Hm1 as [Hm1 Hu].
        pose proof (Hkept m1 Hm1 Hu) as K1. pose proof (Hchild2 m2 Hm2) as K2.
        rewrite E2 in K2. congruence.
    + intros c os o [[= <- <-]|Hg] Ho.
      * destruct (Hcov1 o Ho) as (m & Hm & Em). destruct (U m) eqn:Eu.
        -- exists m. split; [|exact Em]. apply in_app_iff. left. now apply filter_In.
        -- pose proof (Hdropped m Hm Eu) as Hd. apply existsb_exists in Hd as (x & Hx & Ex).
           apply Z.eqb_eq in Ex. subst x. unfold group_ids in Hx.
           apply in_flat_map in Hx as ([c' os'] & Hg' & Hx). unfold object_ids in Hx.
           cbn [snd] in Hx. apply in_map_iff in Hx as (o' & Eo' & Ho').
           destruct (Hcov2 c' os' o' Hg' Ho') as (m' & Hm' & Em').
           exists m'. split; [|congruence]. apply in_app_iff. now right.
      * destruct (Hcov2 c os o Hg Ho) as (m & Hm & Em). exists m. split; [|exact Em].
        apply in_app_iff. now right.
    + apply Forall_app. split; apply List.Forall_forall.
      * intros m Hm. apply filter_In in Hm as [Hm _].
        destruct (Hall1 m Hm) as (key & o & Ho & ->).
        exists cid, objs, key, o. cbn [m_collection_id membership_of].
        split; [now left|]. split; [exact Ho|]. split; [exact Ecol|reflexivity].
      * intros m Hm. destruct (Hall2 m Hm) as (c & os & key & o & Hg & Ho & Hc & E).
        exists c, os, key, o. split; [now right|]. auto.
Qed.

Lemma set_children_inv (self : ObjectDict) (children : list ObjectDict)
    (replace : bool) (name : option string) (f f' : family) :
  set_children self children replace name f = (Return tt, f') ->
  exists cids new,
    f' = committed
           (List.filter (untouched self replace cids (object_ids children)) (fam_membership f)
            ++ new) f
    /\ (forall cid, In cid cids <->
          exists obj cls, In obj children /\ get_class (store_of f) obj = Ok cls
                          /\ class_id (c_meta cls) = cid)
    /\ List.NoDup (List.map m_child_object_id new)
    /\ (forall obj, In obj children ->
          exists m, In m new /\ m_child_object_id m = object_id (o_meta obj))
    /\ (forall m, In m new ->
          exists obj cls key,
            In obj children /\ get_class (store_of f) obj = Ok cls
            /\ get_collection_id f self (class_id (c_meta cls)) name
               = Return (m_collection_id m)
            /\ m = membership_of self (class_id (c_meta cls)) (m_collection_id m) key obj).
Proof.
  unfold set_children.
  destruct (children_by_class (store_of f) children []) as [groups|] eqn:Eg; [|discriminate].
  destruct (set_classes f self replace name groups (fam_membership f)) as [[[]|] t] eqn:Es;
    [|discriminate].
  intros [= <-].
  destruct (children_by_class_spec _ _ [] _ (List.NoDup_nil _) Eg) as [Hnd Hiff].
  assert (Hgroups : forall cid obj,
    (exists objs, In (cid, objs) groups /\ In obj objs)
    <-> In obj children /\ exists cls, get_class (store_of f) obj = Ok cls
                                       /\ class_id (c_meta cls) = cid).
  { intros cid obj. rewrite Hiff. split; [|now right]. intros [(objs & [] & _)|H]. exact H. }
  assert (Hnonempty : forall cid objs, In (cid, objs) groups -> exists obj, In obj objs).
  { intros cid objs Hin.
    assert (Hne : objs <> []).
    { apply (children_by_class_nonempty _ _ [] _ (fun _ _ (H : In _ []) => match H with end)
               Eg cid objs Hin). }
    destruct objs as [|x objs]; [congruence|]. exists x. now left. }
  pose proof (children_by_class_classes _ _ _ _ Eg) as Hclasses.
  destruct (set_classes_spec _ _ _ _ _ _ _ Hnd Es) as (new & -> & Hnew & Hcov & Hall).
  exists (List.map fst groups), new. split; [|split; [|split; [exact Hnew|split]]].
  - f_equal. f_equal. apply List.filter_ext. intros m. unfold untouched. do 3 f_equal.
    apply eq_true_iff_eq. rewrite !existsb_exists. split.
    + intros (x & Hx & Ex). exists x. split; [|exact Ex]. unfold group_ids in Hx.
      apply in_flat_map in Hx as ([c os] & Hg & Hx). unfold object_ids in Hx. cbn [snd] in Hx.
      apply in_map_iff in Hx as (o & <- & Ho). unfold object_ids. apply in_map_iff.
      exists o. split; [reflexivity|]. apply (Hgroups c o). eauto.
    + intros (x & Hx & Ex). exists x. split; [|exact Ex]. unfold object_ids in Hx.
      apply in_map_iff in Hx as (o & <- & Ho).
      assert (Hc : exists c os, In (c, os) groups /\ In o os).
      { destruct (Hclasses o Ho) as (cls & Hc). exists (class_id (c_meta cls)).
        apply Hgroups. split; [exact Ho|]. eauto. }
      destruct Hc as (c & os & Hg & Ho').
      unfold group_ids. apply in_flat_map. exists (c, os). split; [exact Hg|].
      unfold object_ids. cbn [snd]. apply in_map_iff. eauto.
  - intros cid. split.
    + intros Hin. apply in_map_iff in Hin as ([c os] & <- & Hg). cbn [fst].
      destruct (Hnonempty _ _ Hg) as (o & Ho).
      destruct (proj1 (Hgroups c o) (ex_intro _ os (conj Hg Ho))) as (H1 & cls & H2 & H3).
      exists o, cls. auto.
    + intros (o & cls & Ho & Hc & E).
      destruct (proj2 (Hgroups cid o) (conj Ho (ex_intro _ cls (conj Hc E)))) as (os & Hg & _).
      apply in_map_iff. exists (cid, os). split; [reflexivity|exact Hg].
  - intros o Ho.
    destruct (Hclasses o Ho) as (cls & Hc).
    destruct (proj2 (Hgroups (class_id (c_meta cls)) o)
                (conj Ho (ex_intro _ cls (conj Hc eq_refl)))) as (os & Hg & Ho').
    exact (Hcov _ _ _ Hg Ho').
  - intros m Hm. rewrite List.Forall_forall in Hall.
    destruct (Hall m Hm) as (c & os & key & o & Hg & Ho & Hcol & E).
    destruct (proj1 (Hgroups c o) (ex_intro _ os (conj Hg Ho))) as (H1 & cls & H2 & <-).
    exists o, cls, key. auto.
Qed.

(** X22.  What [set_children] leaves when it returns: the membership rows
    it had no reason to touch, in their order, followed by one new row for
    each distinct child, all of it committed and no other table changed.  A
    row is touched when its parent is [self] and its child is one of the
    objects passed or, with [replace], of one of their classes.  A new row
    carries the class of [self], the class of the child and the collection
    found for that class. *)
Theorem set_children_result (self : ObjectDict) (children : list ObjectDict)
    (replace : bool) (name : option string) (f f' : family) :
  set_children self children replace name f = (Return tt, f') ->
  exists cids new,
    f' = committed
           (List.filter (untouched self replace cids (object_ids children)) (fam_membership f)
            ++ new) f
    /\ (forall cid, In cid cids <->
          exists obj cls, In obj children /\ get_class (store_of f) obj = Ok cls
                          /\ class_id (c_meta cls) = cid)
    /\ List.NoDup (List.map m_child_object_id new)
    /\ (forall obj, In obj children ->
          exists m, In m new /\ m_child_object_id m = object_id (o_meta obj))
    /\ (forall m, In m new ->
          exists obj cls key,
            In obj children /\ get_class (store_of f) obj = Ok cls
            /\ get_collection_id f self (class_id (c_meta cls)) name
               = Return (m_collection_id m)
            /\ m = membership_of self (class_id (c_meta cls)) (m_collection_id m) key obj).
Proof. apply set_children_inv. Qed.

Lemma set_children_result_witness :
  exists cids new,
    snd (set_children Fixture.System_obj [Fixture.G1; Fixture.Coal; Fixture.G2] true None
           Fixture.kin)
    = committed
        (List.filter (untouched Fixture.System_obj true cids
                        (object_ids [Fixture.G1; Fixture.Coal; Fixture.G2]))
           (fam_membership Fixture.kin) ++ new) Fixture.kin
    /\ List.NoDup (List.map m_child_object_id new).
Proof.
  destruct (set_children_result Fixture.System_obj [Fixture.G1; Fixture.Coal; Fixture.G2]
              true None Fixture.kin _ eq_refl) as (cids & new & H1 & _ & H2 & _).
  exists cids, new. split; [exact H1|exact H2].
Defined.

Lemma map_result_In {A B} (g : A -> result B) (l : list A) (ys : list B) (x : A) :
  map_result g l = Ok ys -> In x l -> exists y, In y ys /\ g x = Ok y.
Proof.
  revert ys. induction l as [|a l IH]; intros ys; cbn [map_result]; [intros _ []|].
  destruct (g a) as [y|] eqn:Ea; cbn [rbind]; [|discriminate].
  destruct (map_result g l) as [ys'|]; cbn [rbind]; [|discriminate].
  intros [= <-] [<-|Hx].
  - exists y. split; [now left|exact Ea].
  - destruct (IH _ eq_refl Hx) as (y' & Hy' & E). exists y'. split; [now right|exact E].
Qed.

Lemma get_class_meta (db : database) (obj : ObjectDict) (cls : ClassDict) :
  get_class db obj = Ok cls ->
  In (c_meta cls) (class_t db)
  /\ exists cl, In cl (class_t db) /\ class_id cl = o_class_id (o_meta obj)
                /\ class_name cl = class_name (c_meta cls).
Proof.
  unfold get_class, get_by_class_id.
  destruct (fetchone _) as [cl|] eqn:Ecl; cbn [subscript rbind]; [|discriminate].
  intros H. apply fetchone_filter in Ecl as [Hcl Hid]. apply Z.eqb_eq in Hid.
  destruct (COAD_getitem_meta _ _ _ H) as [Hm Hn]. split; [exact Hm|].
  exists cl. auto.
Qed.

(** X23.  The children set are the children read back.  In a store where
    class names, object ids and the names of the objects of a class are
    each unique, and for children that are objects of the store, whatever
    [get_children] returns after [set_children] contains every child that
    was passed, asked for without a class name or with the child's own. *)
Theorem set_then_get_children (self : ObjectDict) (children : list ObjectDict)
    (replace : bool) (name : option string) (f f' : family)
    (cname : option string) (kids : list ObjectDict) (obj : ObjectDict) (cls : ClassDict) :
  set_children self children replace name f = (Return tt, f') ->
  get_children f' self cname = Ok kids ->
  (forall cl cl', In cl (fam_class f) -> In cl' (fam_class f) ->
     class_name cl = class_name cl' -> cl = cl') ->
  (forall o o', In o (fam_object f) -> In o' (fam_object f) ->
     object_id o = object_id o' -> o = o') ->
  (forall o o', In o (fam_object f) -> In o' (fam_object f) ->
     o_class_id o = o_class_id o' -> o_name o = o_name o' -> o = o') ->
  Forall (fun o => In (o_meta o) (fam_object f)) children ->
  In obj children ->
  get_class (store_of f) obj = Ok cls ->
  cname = None \/ cname = Some (class_name (c_meta cls)) ->
  In obj kids.
Proof.
  intros Hset Hget Hnames Hids Hobjs Hrows Hobj Hcls Hcname.
  destruct (set_children_inv _ _ _ _ _ _ Hset) as (cids & new & -> & _ & _ & Hcov & Hnew).
  rewrite List.Forall_forall in Hrows.
  destruct (Hcov obj Hobj) as (m & Hm & Em).
  destruct (Hnew m Hm) as (obj' & cls' & key & Hobj' & Hcls' & _ & E).
  assert (Eo : obj' = obj).
  { assert (E' : o_meta obj' = o_meta obj).
    { apply Hids; [now apply Hrows|now apply Hrows|]. rewrite E in Em. exact Em. }
    destruct obj', obj. cbn in E'. now subst. }
  subst obj'. assert (cls' = cls) by congruence. subst cls'.
  destruct (get_class_meta _ _ _ Hcls) as (Hmeta & cl & Hcl & Hclid & Hcln).
  cbn [store_of class_t] in Hmeta, Hcl.
  assert (Ecl : c_meta cls = cl) by (apply Hnames; auto).
  set (r := (class_name (c_meta cls), o_name (o_meta obj))).
  assert (Hr : In r (child_rows
                       (committed (List.filter (untouched self replace cids (object_ids children))
                                     (fam_membership f) ++ new) f) self cname)).
  { assert (Hall : In r (child_rows
                       (committed (List.filter (untouched self replace cids (object_ids children))
                                     (fam_membership f) ++ new) f) self None)).
    { unfold child_rows. cbn [committed fam_membership fam_class fam_object].
      apply in_flat_map. exists m. split.
      - apply filter_In. split; [apply in_app_iff; now right|].
        rewrite E. cbn. apply Z.eqb_refl.
      - apply in_flat_map. exists (c_meta cls). split.
        + apply filter_In. split; [exact Hmeta|]. rewrite E. cbn. apply Z.eqb_refl.
        + apply in_map_iff. exists (o_meta obj). split; [reflexivity|].
          apply filter_In. split; [now apply Hrows|]. rewrite E. cbn. apply Z.eqb_refl. }
    destruct Hcname as [->| ->]; [exact Hall|].
    unfold child_rows in *. apply filter_In. split; [exact Hall|]. apply String.eqb_refl. }
  unfold get_children in Hget.
  destruct (map_result_In _ _ _ _ Hget Hr) as (kid & Hkid & Ek).
  cbn [fst snd r] in Ek.
  destruct (COAD_getitem _ _) as [cls2|] eqn:E2; cbn [rbind] in Ek; [|discriminate].
  destruct (COAD_getitem_meta _ _ _ E2) as [H2 H2n].
  destruct (ClassDict_getitem_meta _ _ _ _ Ek) as (H3 & H3c & H3n).
  cbn [store_of committed class_t object_t fam_class fam_object] in H2, H3.
  assert (E2m : c_meta cls2 = c_meta cls) by (apply Hnames; auto).
  assert (Ekid : o_meta kid = o_meta obj).
  { apply Hobjs; [exact H3|now apply Hrows| |exact H3n].
    rewrite H3c, E2m, Ecl. exact Hclid. }
  destruct kid, obj. cbn in Ekid. now subst.
Qed.

Lemma set_then_get_children_witness :
  In Fixture.Gas
    (match get_children
             (snd (set_children Fixture.System_obj [Fixture.Gas] false None Fixture.kin))
             Fixture.System_obj (Some "Fuel") with
     | Ok kids => kids
     | Raise _ => []
     end).
Proof.
  refine (set_then_get_children Fixture.System_obj [Fixture.Gas] false None Fixture.kin
            _ (Some "Fuel") _ Fixture.Gas _ eq_refl eq_refl _ _ _ _ _ eq_refl _).
  - intros cl cl' H1 H2 E. cbn in H1, H2.
    intuition (subst; try reflexivity; discriminate).
  - intros o o' H1 H2 E. cbn in H1, H2.
    intuition (subst; try reflexivity; discriminate).
  - intros o o' H1 H2 E1 E2. cbn in H1, H2.
    intuition (subst; try reflexivity; discriminate).
  - constructor; [|constructor]. do 4 right. left. reflexivity.
  - now left.
  - now right.
Defined.
